(** * The PNG driver's scanline cache

    A shallow embedding of [PNGDataset] and [PNGRasterBand] of the GDAL PNG
    driver: the forward-only scanline cache ([LoadScanline], [Restart],
    [FlushCache]) and the per-band block transfer ([IReadBlock],
    [IWriteBlock]).

    Conventions.
    - C [int] values are integers of [Z].  Signed overflow is undefined in
      C; [wf_file] bounds the byte size of an image by [INT_MAX], so no
      product of the model leaves the range on a well-formed file.
    - A heap block is a list of bytes; [NULL] is [None].  An access outside
      a block, or through [NULL], has no defined behaviour: the operation
      that performs it yields [None].
    - libpng, the file and the allocator are collaborators.  The decoder is
      modelled by the rows it delivers, and every call the driver makes to a
      collaborator is appended to a call log kept with the dataset. *)

From Stdlib Require Import ZArith Lia Init.Byte Strings.Byte.
From Stdlib Require Import Strings.Ascii.
From stdpp Require Import base option list numbers.
From stdpp Require Import strings.

Open Scope Z_scope.

(** ** Memory *)

Abbreviation GByte := Byte.byte.
Abbreviation block := (list GByte).

(** [p[i]] as an rvalue. *)
Definition peek (m : block) (i : Z) : option GByte :=
  if decide (0 <= i) then m !! Z.to_nat i else None.

(** [p[i] = v]. *)
Definition poke (m : block) (i : Z) (v : GByte) : option block :=
  if decide (0 <= i < Z.of_nat (length m))
  then Some (<[Z.to_nat i := v]> m) else None.

(** [memcpy( dst + d, src + s, n )]. *)
Definition memcpy (dst : block) (d : Z) (src : block) (s : Z) (n : Z)
  : option block :=
  if decide (0 <= d /\ 0 <= s /\ 0 <= n
             /\ d + n <= Z.of_nat (length dst)
             /\ s + n <= Z.of_nat (length src))
  then Some (take (Z.to_nat d) dst
             ++ take (Z.to_nat n) (drop (Z.to_nat s) src)
             ++ drop (Z.to_nat (d + n)) dst)
  else None.

(** [for( i = 0; i < n; i++ ) body], the body acting on one block. *)
Fixpoint for_each (l : list Z) (body : Z -> block -> option block)
    (m : block) : option block :=
  match l with
  | [] => Some m
  | i :: l' => m' ← body i m; for_each l' body m'
  end.

Definition for_upto (n : Z) (body : Z -> block -> option block)
    (m : block) : option block :=
  for_each (seqZ 0 n) body m.

(** ** The file and the decoder *)

(** What the header of a PNG file says, and the rows libpng delivers for
    it with the transformations the driver sets (samples of fewer than
    eight bits unpacked to one byte each), top to bottom, pixel
    interleaved. *)
Record PNGFile := {
  png_width : Z;
  png_height : Z;
  png_channels : Z;
  png_bit_depth : Z;
  png_interlaced : bool;
  png_image : list block
}.

Definition sample_size (nBitDepth : Z) : Z :=
  if nBitDepth =? 16 then 2 else 1.

Definition row_bytes (f : PNGFile) : Z :=
  png_channels f * sample_size (png_bit_depth f) * png_width f.

Definition INT_MAX : Z := 2147483647.

Definition wf_file (f : PNGFile) : Prop :=
  0 < png_width f /\ 0 < png_height f
  /\ 1 <= png_channels f <= 4
  /\ png_bit_depth f ∈ [1; 2; 4; 8; 16]
  /\ Z.of_nat (length (png_image f)) = png_height f
  /\ Forall (fun r => Z.of_nat (length r) = row_bytes f) (png_image f)
  /\ row_bytes f * png_height f <= INT_MAX.

(** The read structure: the next row the decoder will deliver, and
    whether [png_set_packing] was requested. *)
Record png_struct := {
  png_row_number : Z;
  png_packing : bool
}.

(** [png_create_read_struct], [png_create_info_struct], [png_init_io] and
    [png_read_info] on the rewound file, then [png_set_packing] when the
    bit depth is below eight. *)
Definition png_read_info (nBitDepth : Z) : png_struct :=
  {| png_row_number := 0; png_packing := nBitDepth <? 8 |}.

(** [png_read_rows( hPNG, &row, NULL, 1 )] with [row = dst + off]: the next
    row is written at [row].  Reading past the last row is a libpng error,
    which the driver does not trap. *)
Definition png_read_rows (f : PNGFile) (h : png_struct) (dst : block)
    (off : Z) : option (block * png_struct) :=
  if decide (0 <= png_row_number h) then
    r ← png_image f !! Z.to_nat (png_row_number h);
    dst' ← memcpy dst off r 0 (Z.of_nat (length r));
    Some (dst', {| png_row_number := png_row_number h + 1;
                   png_packing := png_packing h |})
  else None.

Fixpoint png_read_image_rows (f : PNGFile) (h : png_struct) (dst : block)
    (png_rows : list Z) : option (block * png_struct) :=
  match png_rows with
  | [] => Some (dst, h)
  | off :: rest =>
      '(dst', h') ← png_read_rows f h dst off;
      png_read_image_rows f h' dst' rest
  end.

(** [png_read_image( hPNG, png_rows )]: every row of the image is written
    at its row pointer.  The call is defined on an unread stream only. *)
Definition png_read_image (f : PNGFile) (h : png_struct) (dst : block)
    (png_rows : list Z) : option (block * png_struct) :=
  if decide (png_row_number h = 0)
  then png_read_image_rows f h dst png_rows
  else None.

(** ** The allocator *)

(** The contents of a fresh block are indeterminate in C; the model fills
    it with zero bytes. *)
Definition fresh_block (n : Z) : block := replicate (Z.to_nat n) Byte.x00.

(** [VSIMalloc] returns [NULL] when the allocation fails; whether it does
    is the environment's choice, given as [bAllocOk]. *)
Definition VSIMalloc (bAllocOk : bool) (n : Z) : option block :=
  if bAllocOk then Some (fresh_block n) else None.

(** [CPLMalloc] does not return when the allocation fails (it raises a
    fatal error), so every block it returns is valid. *)
Definition CPLMalloc (n : Z) : block := fresh_block n.

(** ** The dataset *)

Inductive CPLErr := CE_None | CE_Failure.

#[global] Instance CPLErr_eq_dec : EqDecision CPLErr.
Proof. solve_decision. Defined.

(** The calls made to the collaborators, as the log records them. *)
Inductive Call :=
  | CallRestart
  | CallReadRows (iRow : Z)
  | CallReadImage
  | CallVSIMalloc (nBytes : Z) (bOk : bool)
  | CallCPLMalloc (nBytes : Z)
  | CallCPLFree.

#[global] Instance Call_eq_dec : EqDecision Call.
Proof. solve_decision. Defined.

(** The fields of [PNGDataset] the cache reads or writes, the raster
    parameters it inherits from [GDALDataset], and the call log, oldest
    call first.  [psPNGInfo], [nColorType] and [poColorTable] play no part
    in the cache and are left out. *)
Record PNGDataset := {
  nRasterXSize : Z;
  nRasterYSize : Z;
  nBands : Z;
  fpImage : PNGFile;
  hPNG : png_struct;
  nBitDepth : Z;
  bInterlaced : bool;
  nBufferStartLine : Z;
  nBufferLines : Z;
  nLastLineRead : Z;
  pabyBuffer : option block;
  calls : list Call
}.

Definition set_hPNG (h : png_struct) (ds : PNGDataset) : PNGDataset :=
  {| nRasterXSize := nRasterXSize ds; nRasterYSize := nRasterYSize ds;
     nBands := nBands ds; fpImage := fpImage ds; hPNG := h;
     nBitDepth := nBitDepth ds; bInterlaced := bInterlaced ds;
     nBufferStartLine := nBufferStartLine ds;
     nBufferLines := nBufferLines ds;
     nLastLineRead := nLastLineRead ds;
     pabyBuffer := pabyBuffer ds; calls := calls ds |}.

Definition set_nBufferStartLine (n : Z) (ds : PNGDataset) : PNGDataset :=
  {| nRasterXSize := nRasterXSize ds; nRasterYSize := nRasterYSize ds;
     nBands := nBands ds; fpImage := fpImage ds; hPNG := hPNG ds;
     nBitDepth := nBitDepth ds; bInterlaced := bInterlaced ds;
     nBufferStartLine := n;
     nBufferLines := nBufferLines ds;
     nLastLineRead := nLastLineRead ds;
     pabyBuffer := pabyBuffer ds; calls := calls ds |}.

Definition set_nBufferLines (n : Z) (ds : PNGDataset) : PNGDataset :=
  {| nRasterXSize := nRasterXSize ds; nRasterYSize := nRasterYSize ds;
     nBands := nBands ds; fpImage := fpImage ds; hPNG := hPNG ds;
     nBitDepth := nBitDepth ds; bInterlaced := bInterlaced ds;
     nBufferStartLine := nBufferStartLine ds;
     nBufferLines := n;
     nLastLineRead := nLastLineRead ds;
     pabyBuffer := pabyBuffer ds; calls := calls ds |}.

Definition set_nLastLineRead (n : Z) (ds : PNGDataset) : PNGDataset :=
  {| nRasterXSize := nRasterXSize ds; nRasterYSize := nRasterYSize ds;
     nBands := nBands ds; fpImage := fpImage ds; hPNG := hPNG ds;
     nBitDepth := nBitDepth ds; bInterlaced := bInterlaced ds;
     nBufferStartLine := nBufferStartLine ds;
     nBufferLines := nBufferLines ds;
     nLastLineRead := n;
     pabyBuffer := pabyBuffer ds; calls := calls ds |}.

Definition set_pabyBuffer (b : option block) (ds : PNGDataset) : PNGDataset :=
  {| nRasterXSize := nRasterXSize ds; nRasterYSize := nRasterYSize ds;
     nBands := nBands ds; fpImage := fpImage ds; hPNG := hPNG ds;
     nBitDepth := nBitDepth ds; bInterlaced := bInterlaced ds;
     nBufferStartLine := nBufferStartLine ds;
     nBufferLines := nBufferLines ds;
     nLastLineRead := nLastLineRead ds;
     pabyBuffer := b; calls := calls ds |}.

Definition record_call (c : Call) (ds : PNGDataset) : PNGDataset :=
  {| nRasterXSize := nRasterXSize ds; nRasterYSize := nRasterYSize ds;
     nBands := nBands ds; fpImage := fpImage ds; hPNG := hPNG ds;
     nBitDepth := nBitDepth ds; bInterlaced := bInterlaced ds;
     nBufferStartLine := nBufferStartLine ds;
     nBufferLines := nBufferLines ds;
     nLastLineRead := nLastLineRead ds;
     pabyBuffer := pabyBuffer ds; calls := calls ds ++ [c] |}.

(** [PNGDataset::PNGDataset] followed by the assignments of
    [PNGDataset::Open], for a file that passed the signature test and is
    opened read-only. *)
Definition Open (f : PNGFile) : PNGDataset :=
  {| nRasterXSize := png_width f; nRasterYSize := png_height f;
     nBands := png_channels f; fpImage := f;
     hPNG := png_read_info (png_bit_depth f);
     nBitDepth := png_bit_depth f; bInterlaced := png_interlaced f;
     nBufferStartLine := 0; nBufferLines := 0; nLastLineRead := -1;
     pabyBuffer := None; calls := [] |}.

(** [PNGDataset::FlushCache].  The base class call flushes the block cache
    of the bands, which the model does not have. *)
Definition FlushCache (ds : PNGDataset) : PNGDataset :=
  match pabyBuffer ds with
  | Some _ =>
      set_nBufferLines 0
        (set_nBufferStartLine 0
           (set_pabyBuffer None (record_call CallCPLFree ds)))
  | None => ds
  end.

(** [PNGDataset::Restart]. *)
Definition Restart (ds : PNGDataset) : PNGDataset :=
  set_nLastLineRead (-1)
    (set_hPNG (png_read_info (nBitDepth ds)) (record_call CallRestart ds)).

(** One turn of [while( nLine > nLastLineRead )] in [LoadScanline]. *)
Definition read_next_row (ds : PNGDataset) : option PNGDataset :=
  row ← pabyBuffer ds;
  '(row', h') ← png_read_rows (fpImage ds) (hPNG ds) row 0;
  Some (set_nLastLineRead (nLastLineRead ds + 1)
          (set_pabyBuffer (Some row')
             (set_hPNG h'
                (record_call (CallReadRows (png_row_number (hPNG ds))) ds)))).

(** The loop itself.  [n] bounds the number of turns; [LoadScanline] passes
    the distance from the cursor to the requested line, which is the
    number of turns the loop takes. *)
Fixpoint read_until (n : nat) (nLine : Z) (ds : PNGDataset)
  : option PNGDataset :=
  if decide (nLine > nLastLineRead ds) then
    match n with
    | O => None
    | S n' => ds' ← read_next_row ds; read_until n' nLine ds'
    end
  else Some ds.

Definition buffered (nLine : Z) (ds : PNGDataset) : Prop :=
  nLine >= nBufferStartLine ds
  /\ nLine < nBufferStartLine ds + nBufferLines ds.

#[global] Instance buffered_dec nLine ds : Decision (buffered nLine ds).
Proof. unfold buffered. apply _. Defined.

(** [PNGDataset::LoadScanline].  [CPLAssert] is compiled out of release
    builds and is not part of the model. *)
Definition LoadScanline (bAllocOk : bool) (nLine : Z) (ds : PNGDataset)
  : option (CPLErr * PNGDataset) :=
  if decide (buffered nLine ds) then Some (CE_None, ds)
  else
    let nPixelOffset :=
      if nBitDepth ds =? 16 then 2 * nBands ds else 1 * nBands ds in
    if bInterlaced ds then
      let ds1 := if decide (nLastLineRead ds <> -1) then Restart ds else ds in
      let ds2 := set_nBufferLines (nRasterYSize ds1)
                   (set_nBufferStartLine 0 ds1) in
      let nBytes := nPixelOffset * nRasterXSize ds2 * nRasterYSize ds2 in
      let ds3 := set_pabyBuffer (VSIMalloc bAllocOk nBytes)
                   (record_call (CallVSIMalloc nBytes bAllocOk) ds2) in
      match pabyBuffer ds3 with
      | None => Some (CE_Failure, ds3)
      | Some buf =>
          let png_rows :=
            (fun i => i * nPixelOffset * nRasterXSize ds3)
              <$> seqZ 0 (nRasterYSize ds3) in
          '(buf', h') ← png_read_image (fpImage ds3) (hPNG ds3) buf png_rows;
          Some (CE_None,
                set_nLastLineRead (nRasterYSize ds3 - 1)
                  (set_pabyBuffer (Some buf')
                     (set_hPNG h' (record_call CallReadImage ds3))))
      end
    else
      let ds1 :=
        match pabyBuffer ds with
        | None =>
            set_pabyBuffer (Some (CPLMalloc (nPixelOffset * nRasterXSize ds)))
              (record_call (CallCPLMalloc (nPixelOffset * nRasterXSize ds)) ds)
        | Some _ => ds
        end in
      let ds2 := if decide (nLine <= nLastLineRead ds1)
                 then Restart ds1 else ds1 in
      ds3 ← read_until (Z.to_nat (nLine - nLastLineRead ds2)) nLine ds2;
      Some (CE_None, set_nBufferLines 1 (set_nBufferStartLine nLine ds3)).

(** ** The band *)

(** The transfer loops of [IReadBlock], reading from [scan] at
    [pabyScanline = scan + off] and writing to [pImage]. *)

(** [memcpy( pImage, pabyScanline, nPixelSize * nXSize )]. *)
Definition read_bulk (scan : block) (off nPixelSize nXSize : Z)
    (pImage : block) : option block :=
  memcpy pImage 0 scan off (nPixelSize * nXSize).

(** The loop of the [nPixelSize == 1] branch. *)
Definition read_strided1 (scan : block) (off nPixelOffset nXSize : Z)
    (pImage : block) : option block :=
  for_upto nXSize
    (fun i img => v ← peek scan (off + i * nPixelOffset); poke img i v)
    pImage.

(** The loop of the last branch ([nPixelSize == 2]). *)
Definition read_strided2 (scan : block) (off nPixelOffset nXSize : Z)
    (pImage : block) : option block :=
  for_upto nXSize
    (fun i img =>
       v0 ← peek scan (off + i * nPixelOffset);
       img1 ← poke img i v0;
       v1 ← peek scan (off + i * nPixelOffset + 1);
       poke img1 (i + 1) v1)
    pImage.

(** The two per-pixel branches together: what [IReadBlock] runs when it
    does not take the [memcpy] branch. *)
Definition read_strided (scan : block) (off nPixelSize nPixelOffset nXSize : Z)
    (pImage : block) : option block :=
  if nPixelSize =? 1 then read_strided1 scan off nPixelOffset nXSize pImage
  else read_strided2 scan off nPixelOffset nXSize pImage.

(** The same for [IWriteBlock], reading from [pImage] and writing to
    [scan] at [pabyScanline = scan + off]. *)
Definition write_bulk (scan : block) (off nPixelSize nXSize : Z)
    (pImage : block) : option block :=
  memcpy scan off pImage 0 (nPixelSize * nXSize).

Definition write_strided1 (scan : block) (off nPixelOffset nXSize : Z)
    (pImage : block) : option block :=
  for_upto nXSize
    (fun i sc => v ← peek pImage i; poke sc (off + i * nPixelOffset) v)
    scan.

Definition write_strided2 (scan : block) (off nPixelOffset nXSize : Z)
    (pImage : block) : option block :=
  for_upto nXSize
    (fun i sc =>
       v0 ← peek pImage i;
       sc1 ← poke sc (off + i * nPixelOffset) v0;
       v1 ← peek pImage (i + 1);
       poke sc1 (off + i * nPixelOffset + 1) v1)
    scan.

Definition write_strided (scan : block) (off nPixelSize nPixelOffset nXSize : Z)
    (pImage : block) : option block :=
  if nPixelSize =? 1 then write_strided1 scan off nPixelOffset nXSize pImage
  else write_strided2 scan off nPixelOffset nXSize pImage.

(** [PNGRasterBand::IReadBlock] of band [nBand] ([nBlockXOff] is zero, the
    block being a whole row).  The result carries the caller's buffer
    after the call. *)
Definition IReadBlock (nBand : Z) (bAllocOk : bool) (nBlockYOff : Z)
    (pImage : block) (ds : PNGDataset)
  : option (CPLErr * block * PNGDataset) :=
  let nXSize := nRasterXSize ds in
  let nPixelSize := if nBitDepth ds =? 16 then 2 else 1 in
  let nPixelOffset := nBands ds * nPixelSize in
  '(eErr, ds') ← LoadScanline bAllocOk nBlockYOff ds;
  if decide (eErr <> CE_None) then Some (eErr, pImage, ds')
  else
    scan ← pabyBuffer ds';
    let off := (nBlockYOff - nBufferStartLine ds') * nPixelOffset * nXSize
               + nPixelSize * (nBand - 1) in
    img ← (if nPixelSize =? nPixelOffset
           then read_bulk scan off nPixelSize nXSize pImage
           else read_strided scan off nPixelSize nPixelOffset nXSize pImage);
    Some (CE_None, img, ds').

(** [PNGRasterBand::IWriteBlock] of band [nBand]. *)
Definition IWriteBlock (nBand : Z) (bAllocOk : bool) (nBlockYOff : Z)
    (pImage : block) (ds : PNGDataset)
  : option (CPLErr * PNGDataset) :=
  let nXSize := nRasterXSize ds in
  '(eErr, ds') ← LoadScanline bAllocOk nBlockYOff ds;
  if decide (eErr <> CE_None) then Some (eErr, ds')
  else
    let nPixelSize := if nBitDepth ds' =? 16 then 2 else 1 in
    let nPixelOffset := nBands ds' * nPixelSize in
    scan ← pabyBuffer ds';
    let off := (nBlockYOff - nBufferStartLine ds') * nPixelOffset * nXSize
               + nPixelSize * (nBand - 1) in
    scan' ← (if nPixelSize =? nPixelOffset
             then write_bulk scan off nPixelSize nXSize pImage
             else write_strided scan off nPixelSize nPixelOffset nXSize pImage);
    Some (CE_None, set_pabyBuffer (Some scan') ds').

(** ** Reading the call log *)

Definition is_restart (c : Call) : bool :=
  match c with CallRestart => true | _ => false end.

Definition is_decode (c : Call) : bool :=
  match c with CallReadRows _ | CallReadImage => true | _ => false end.

Definition is_read_rows (c : Call) : bool :=
  match c with CallReadRows _ => true | _ => false end.

Definition is_read_image (c : Call) : bool :=
  match c with CallReadImage => true | _ => false end.

Definition is_alloc (c : Call) : bool :=
  match c with CallVSIMalloc _ _ | CallCPLMalloc _ => true | _ => false end.

Definition count (p : Call -> bool) (l : list Call) : nat :=
  length (List.filter p l).

(** The rows decoded one at a time, in the order of the calls. *)
Definition decoded_rows (l : list Call) : list Z :=
  omap (fun c => match c with CallReadRows r => Some r | _ => None end) l.

(** The log cut at every restart: the calls before the first restart,
    then the calls after each restart up to the next.  The scan keeps the
    passes already closed and the pass being built. *)
Definition pass_step (st : list (list Call) * list Call) (c : Call)
  : list (list Call) * list Call :=
  if is_restart c then (st.1 ++ [st.2], []) else (st.1, st.2 ++ [c]).

Definition pass_scan (l : list Call) : list (list Call) * list Call :=
  fold_left pass_step l ([], []).

Definition passes (l : list Call) : list (list Call) :=
  (pass_scan l).1 ++ [(pass_scan l).2].

(** A pass decodes the rows from row zero on, once each and in order. *)
Definition in_order (pass : list Call) : Prop :=
  decoded_rows pass = seqZ 0 (Z.of_nat (length (decoded_rows pass))).

(** The calls [ds'] has logged beyond those of [ds]. *)
Definition calls_since (ds ds' : PNGDataset) : list Call :=
  drop (length (calls ds)) (calls ds').

(** A sequence of row requests, each with the allocator's answer for it;
    the run stops at the first request that does not succeed. *)
Fixpoint requests (reqs : list (bool * Z)) (ds : PNGDataset)
  : option PNGDataset :=
  match reqs with
  | [] => Some ds
  | (bAllocOk, nLine) :: rest =>
      '(eErr, ds') ← LoadScanline bAllocOk nLine ds;
      if decide (eErr = CE_None) then requests rest ds' else None
  end.

(** ** Datasets of a file *)

(** The raster parameters of [ds] are those [Open] took from [f]. *)
Definition opened_on (f : PNGFile) (ds : PNGDataset) : Prop :=
  fpImage ds = f /\ nRasterXSize ds = png_width f
  /\ nRasterYSize ds = png_height f /\ nBands ds = png_channels f
  /\ nBitDepth ds = png_bit_depth f /\ bInterlaced ds = png_interlaced f.

(** The state of the cache between two calls, for either kind of file. *)
Definition cache_inv (f : PNGFile) (ds : PNGDataset) : Prop :=
  opened_on f ds
  /\ (forall b, pabyBuffer ds = Some b ->
        Z.of_nat (length b)
        = if png_interlaced f then row_bytes f * png_height f
          else row_bytes f)
  /\ if png_interlaced f then
       nBufferStartLine ds = 0
       /\ (nBufferLines ds = 0 \/ nBufferLines ds = png_height f)
       /\ (nLastLineRead ds = -1 -> png_row_number (hPNG ds) = 0)
     else
       png_row_number (hPNG ds) = nLastLineRead ds + 1
       /\ -1 <= nLastLineRead ds < png_height f
       /\ (nBufferLines ds = 0
           \/ (nBufferLines ds = 1
               /\ nBufferStartLine ds = nLastLineRead ds
               /\ 0 <= nLastLineRead ds
               /\ is_Some (pabyBuffer ds))).

(** What a call that misses the buffer appends to the log on a
    non-interlaced file: the allocation of the row buffer if there is
    none, a restart if the cursor is at or past the line, and one
    [png_read_rows] for each line from the cursor's successor on. *)
Definition progressive_calls (f : PNGFile) (nLine : Z) (ds : PNGDataset)
  : list Call :=
  (if pabyBuffer ds is None then [CallCPLMalloc (row_bytes f)] else [])
  ++ (if decide (nLine <= nLastLineRead ds)
      then CallRestart :: (CallReadRows <$> seqZ 0 (nLine + 1))
      else CallReadRows
             <$> seqZ (nLastLineRead ds + 1) (nLine - nLastLineRead ds)).

(** What a call that misses the buffer appends to the log on an
    interlaced file: a restart unless the cursor is at its initial value,
    the allocation of the whole-image buffer, and [png_read_image] if the
    allocation succeeded. *)
Definition interlaced_calls (f : PNGFile) (bAllocOk : bool) (ds : PNGDataset)
  : list Call :=
  (if decide (nLastLineRead ds <> -1) then [CallRestart] else [])
  ++ CallVSIMalloc (row_bytes f * png_height f) bAllocOk
     :: (if bAllocOk then [CallReadImage] else []).

(** Whether a request for [nLine] restarts the decoder: the line is not
    buffered and the cursor is at or past it. *)
Definition restarts_for (nLine : Z) (ds : PNGDataset) : bool :=
  bool_decide (~ buffered nLine ds /\ nLine <= nLastLineRead ds).

(** The highest line decoded since the last restart, as a request for
    [nLine] finds it once it has restarted if it must: -1 after a restart,
    the cursor otherwise. *)
Definition previous_line (nLine : Z) (ds : PNGDataset) : Z :=
  if restarts_for nLine ds then -1 else nLastLineRead ds.

(** ** Reachable states *)

(** The operations on an open dataset. *)
Inductive Op :=
  | OpLoadScanline (bAllocOk : bool) (nLine : Z)
  | OpFlushCache
  | OpReadBlock (nBand : Z) (bAllocOk : bool) (nBlockYOff : Z)
      (pImage : block)
  | OpWriteBlock (nBand : Z) (bAllocOk : bool) (nBlockYOff : Z)
      (pImage : block).

Definition perform (op : Op) (ds : PNGDataset) : option PNGDataset :=
  match op with
  | OpLoadScanline bAllocOk nLine => snd <$> LoadScanline bAllocOk nLine ds
  | OpFlushCache => Some (FlushCache ds)
  | OpReadBlock nBand bAllocOk nLine pImage =>
      snd <$> IReadBlock nBand bAllocOk nLine pImage ds
  | OpWriteBlock nBand bAllocOk nLine pImage =>
      snd <$> IWriteBlock nBand bAllocOk nLine pImage ds
  end.

(** What [LoadScanline] asserts of the line it is asked for. *)
Definition line_asserted (f : PNGFile) (op : Op) : Prop :=
  match op with
  | OpLoadScanline _ nLine | OpReadBlock _ _ nLine _
  | OpWriteBlock _ _ nLine _ => 0 <= nLine < png_height f
  | OpFlushCache => True
  end.

(** The states an open dataset of [f] goes through. *)
Inductive reachable (f : PNGFile) : PNGDataset -> Prop :=
  | reachable_Open : reachable f (Open f)
  | reachable_perform ds op ds' :
      reachable f ds -> line_asserted f op -> perform op ds = Some ds' ->
      reachable f ds'.

(** The log of a non-interlaced dataset: the closed passes are in order,
    and the pass being built has decoded the rows up to the cursor. *)
Definition log_inv (ds : PNGDataset) : Prop :=
  Forall in_order (pass_scan (calls ds)).1
  /\ decoded_rows (pass_scan (calls ds)).2 = seqZ 0 (nLastLineRead ds + 1).

(** What holds of every reachable state. *)
Definition state_inv (f : PNGFile) (ds : PNGDataset) : Prop :=
  cache_inv f ds /\ (png_interlaced f = false -> log_inv ds).

(** Writing the blocks [imgs] of line [nLine] to the bands [nBand],
    [nBand + 1], ... in turn; the run stops at the first write that does
    not succeed. *)
Fixpoint write_bands (nBand : Z) (imgs : list block) (nLine : Z)
    (ds : PNGDataset) : option PNGDataset :=
  match imgs with
  | [] => Some ds
  | pImage :: rest =>
      '(eErr, ds') ← IWriteBlock nBand true nLine pImage ds;
      if decide (eErr = CE_None) then write_bands (nBand + 1) rest nLine ds'
      else None
  end.

(** ** Well-formed files, decided *)

#[global] Instance wf_file_dec f : Decision (wf_file f).
Proof. unfold wf_file. apply _. Defined.

(** ** Sample files *)

(** Four rows of two pixels, two bands of one byte, not interlaced. *)
Definition scenario_progressive : PNGFile :=
  {| png_width := 2; png_height := 4; png_channels := 2; png_bit_depth := 8;
     png_interlaced := false;
     png_image := [[Byte.x00; Byte.x01; Byte.x02; Byte.x03];
                   [Byte.x10; Byte.x11; Byte.x12; Byte.x13];
                   [Byte.x20; Byte.x21; Byte.x22; Byte.x23];
                   [Byte.x30; Byte.x31; Byte.x32; Byte.x33]] |}.

(** A hundred rows of two pixels, one band of one byte, interlaced. *)
Definition scenario_interlaced : PNGFile :=
  {| png_width := 2; png_height := 100; png_channels := 1;
     png_bit_depth := 8; png_interlaced := true;
     png_image :=
       (fun i => [default Byte.x00 (Byte.of_nat i); Byte.xff])
         <$> seq 0 100 |}.

(** Three rows of two pixels, one band of one byte, interlaced. *)
Definition small_interlaced : PNGFile :=
  {| png_width := 2; png_height := 3; png_channels := 1; png_bit_depth := 8;
     png_interlaced := true;
     png_image := [[Byte.x01; Byte.x02]; [Byte.x11; Byte.x12];
                   [Byte.x21; Byte.x22]] |}.

(** One row of two pixels, two bands of two bytes, not interlaced. *)
Definition two_band_16bit : PNGFile :=
  {| png_width := 2; png_height := 1; png_channels := 2;
     png_bit_depth := 16; png_interlaced := false;
     png_image := [[Byte.x01; Byte.x02; Byte.x03; Byte.x04;
                    Byte.x05; Byte.x06; Byte.x07; Byte.x08]] |}.

(** Two rows of two pixels, one band of two bytes, not interlaced. *)
Definition one_band_16bit : PNGFile :=
  {| png_width := 2; png_height := 2; png_channels := 1;
     png_bit_depth := 16; png_interlaced := false;
     png_image := [[Byte.x01; Byte.x02; Byte.x03; Byte.x04];
                   [Byte.x11; Byte.x12; Byte.x13; Byte.x14]] |}.

(** ** The samples of the image *)

(** Byte [k] of the sample of band [nBand] at pixel [x] of line [nLine],
    as the rows of the file hold it: the samples of a pixel follow one
    another band by band, and pixels follow one another along the row. *)
Definition image_sample_byte (f : PNGFile) (nLine nBand x k : Z)
  : option GByte :=
  if decide (0 <= nLine) then
    row ← png_image f !! Z.to_nat nLine;
    peek row (x * (png_channels f * sample_size (png_bit_depth f))
              + sample_size (png_bit_depth f) * (nBand - 1) + k)
  else None.

(** The buffer of [ds] holds what the decoder delivered: every buffered
    line is there as the file has it. *)
Definition buffer_holds_image (f : PNGFile) (ds : PNGDataset) : Prop :=
  forall nLine, buffered nLine ds ->
    exists scan : block,
      pabyBuffer ds = Some scan
      /\ if png_interlaced f then scan = concat (png_image f)
         else png_image f !! Z.to_nat nLine = Some scan.

(** The states of a dataset that is only read, with every allocation
    succeeding. *)
Inductive reachable_reading (f : PNGFile) : PNGDataset -> Prop :=
  | reading_Open : reachable_reading f (Open f)
  | reading_LoadScanline ds nLine eErr ds' :
      reachable_reading f ds -> 0 <= nLine < png_height f ->
      LoadScanline true nLine ds = Some (eErr, ds') ->
      reachable_reading f ds'
  | reading_FlushCache ds :
      reachable_reading f ds -> reachable_reading f (FlushCache ds)
  | reading_IReadBlock ds nBand nLine pImage eErr img ds' :
      reachable_reading f ds -> 0 <= nLine < png_height f ->
      IReadBlock nBand true nLine pImage ds = Some (eErr, img, ds') ->
      reachable_reading f ds'.

(** ** Sequences of operations *)

(** The operations [ops] performed one after the other; the run has no
    defined result as soon as one of them has none. *)
Fixpoint perform_all (ops : list Op) (ds : PNGDataset) : option PNGDataset :=
  match ops with
  | [] => Some ds
  | op :: rest => ds' ← perform op ds; perform_all rest ds'
  end.

(** The operations that do not go through the buffer. *)
Definition is_request_or_flush (op : Op) : bool :=
  match op with
  | OpLoadScanline _ _ | OpFlushCache => true
  | OpReadBlock _ _ _ _ | OpWriteBlock _ _ _ _ => false
  end.

(** ** Sample states *)


(** The four-row file after a request for line 2. *)
Definition scenario_progressive_loaded : PNGDataset :=
  default (Open scenario_progressive)
    (snd <$> LoadScanline true 2 (Open scenario_progressive)).

(** * Band interpretation, copies and text chunks of the PNG driver *)


Inductive GDALDataType :=
  | GDT_Unknown | GDT_Byte | GDT_UInt16 | GDT_Int16 | GDT_UInt32 | GDT_Int32
  | GDT_Float32 | GDT_Float64
  | GDT_CInt16 | GDT_CInt32 | GDT_CFloat32 | GDT_CFloat64.

#[global] Instance GDALDataType_eq_dec : EqDecision GDALDataType.
Proof. solve_decision. Defined.

(** The colour types of [png.h], which the driver names and never
    spells out: they are parameters of the model. *)
Record png_color_types := {
  PNG_COLOR_TYPE_GRAY : Z;
  PNG_COLOR_TYPE_PALETTE : Z;
  PNG_COLOR_TYPE_RGB : Z;
  PNG_COLOR_TYPE_RGB_ALPHA : Z;
  PNG_COLOR_TYPE_GRAY_ALPHA : Z
}.

(** The five colour types are five different values. *)
Definition color_types_distinct (k : png_color_types) : Prop :=
  NoDup [PNG_COLOR_TYPE_GRAY k; PNG_COLOR_TYPE_GRAY_ALPHA k;
         PNG_COLOR_TYPE_PALETTE k; PNG_COLOR_TYPE_RGB k;
         PNG_COLOR_TYPE_RGB_ALPHA k].

(** The values libpng gives them. *)
Definition libpng_color_types : png_color_types :=
  {| PNG_COLOR_TYPE_GRAY := 0; PNG_COLOR_TYPE_PALETTE := 3;
     PNG_COLOR_TYPE_RGB := 2; PNG_COLOR_TYPE_RGB_ALPHA := 6;
     PNG_COLOR_TYPE_GRAY_ALPHA := 4 |}.


(** ** [PNGCreateCopy] *)

(** The source dataset as [PNGCreateCopy] sees it: its size, the data
    type of its first band, and what [RasterIO] delivers for a line of a
    band read with buffer type [GDT_Byte], one byte per pixel. *)
Record SrcDataset := {
  src_nBands : Z;
  src_nXSize : Z;
  src_nYSize : Z;
  src_eType : GDALDataType;
  src_bytes : Z -> Z -> list GByte
}.

(** [poBand->RasterIO( GF_Read, 0, iLine, nXSize, 1, pData, nXSize, 1,
    GDT_Byte, nPixelSpace, nLineSpace )] with [pData = buf + off]: pixel
    [i] of the line is stored at [pData + i * nPixelSpace].  [line] is
    what the band delivers. *)
Definition RasterIO_Read_Byte (line : list GByte) (buf : block)
    (off nXSize nPixelSpace : Z) : option block :=
  for_upto nXSize
    (fun i b => v ← peek line i; poke b (off + i * nPixelSpace) v)
    buf.

(** What [png_set_IHDR] is given, and the rows given to [png_write_rows],
    first row first. *)
Record png_written := {
  ihdr_width : Z;
  ihdr_height : Z;
  ihdr_bit_depth : Z;
  ihdr_color_type : Z;
  written_rows : list block
}.

(** [png_write_rows( hPNG, &row, 1 )] takes the bytes of one row of the
    image from [row]: as many as the header asks for. *)
Definition png_write_rows (nRowBytes : Z) (row : block) : option block :=
  if decide (0 <= nRowBytes <= Z.of_nat (length row))
  then Some (take (Z.to_nat nRowBytes) row) else None.

(** The body of the loop over the lines: every band of line [iLine] is
    read into the scanline buffer, and the buffer is written as a row. *)
Definition PNGCreateCopy_line (src : SrcDataset) (nBands nXSize : Z)
    (nRowBytes : Z) (iLine : Z) (pabyScanline : block)
  : option (block * block) :=
  buf ← for_upto nBands
          (fun iBand b =>
             RasterIO_Read_Byte (src_bytes src (iBand + 1) iLine) b iBand
               nXSize nBands)
          pabyScanline;
  row ← png_write_rows nRowBytes buf;
  Some (buf, row).

Fixpoint PNGCreateCopy_lines (src : SrcDataset) (nBands nXSize : Z)
    (nRowBytes : Z) (lines : list Z) (pabyScanline : block)
  : option (list block) :=
  match lines with
  | [] => Some []
  | iLine :: rest =>
      '(buf, row) ← PNGCreateCopy_line src nBands nXSize nRowBytes iLine
                      pabyScanline;
      rows ← PNGCreateCopy_lines src nBands nXSize nRowBytes rest buf;
      Some (row :: rows)
  end.

(** [PNGCreateCopy] up to the point where it reopens the file it wrote.
    The result is [Some None] where the function returns [NULL], and
    [Some (Some w)] with what it gave libpng to write otherwise;
    [bCreated] tells whether [VSIFOpen] could create the file.  The
    errors of [RasterIO] are not looked at by the function; the model
    has every read succeed. *)
Definition PNGCreateCopy (k : png_color_types) (src : SrcDataset)
    (bStrict bCreated : bool) : option (option png_written) :=
  let nBands := src_nBands src in
  let nXSize := src_nXSize src in
  let nYSize := src_nYSize src in
  if decide (nBands <> 1 /\ nBands <> 2 /\ nBands <> 3 /\ nBands <> 4)
  then Some None
  else if decide (src_eType src <> GDT_Byte /\ src_eType src <> GDT_UInt16
                  /\ bStrict = true)
  then Some None
  else
    let nColorType :=
      if nBands =? 1 then PNG_COLOR_TYPE_GRAY k
      else if nBands =? 2 then PNG_COLOR_TYPE_GRAY_ALPHA k
      else if nBands =? 3 then PNG_COLOR_TYPE_RGB k
      else PNG_COLOR_TYPE_RGB_ALPHA k in
    let nBitDepth :=
      if decide (src_eType src <> GDT_UInt16) then 8 else 16 in
    if negb bCreated then Some None
    else
      let pabyScanline := CPLMalloc (nBands * nXSize * 2) in
      rows ← PNGCreateCopy_lines src nBands nXSize
                (nXSize * nBands * (nBitDepth / 8)) (seqZ 0 nYSize)
                pabyScanline;
      Some (Some {| ihdr_width := nXSize; ihdr_height := nYSize;
                    ihdr_bit_depth := nBitDepth;
                    ihdr_color_type := nColorType;
                    written_rows := rows |}).

(** The number of channels libpng counts for a colour type. *)
Definition color_type_channels (k : png_color_types) (nColorType : Z) : Z :=
  if nColorType =? PNG_COLOR_TYPE_GRAY_ALPHA k then 2
  else if nColorType =? PNG_COLOR_TYPE_RGB k then 3
  else if nColorType =? PNG_COLOR_TYPE_RGB_ALPHA k then 4
  else 1.

(** The file a later [Open] finds, when libpng has written what it was
    given: [PNG_INTERLACE_NONE] was asked for. *)
Definition written_file (k : png_color_types) (w : png_written) : PNGFile :=
  {| png_width := ihdr_width w; png_height := ihdr_height w;
     png_channels := color_type_channels k (ihdr_color_type w);
     png_bit_depth := ihdr_bit_depth w;
     png_interlaced := false; png_image := written_rows w |}.

(** ** [CollectMetadata] *)

(** The characters a tag may not hold. *)
Definition replaced_in_tag (c : ascii) : Prop :=
  c = " "%char \/ c = "="%char \/ c = ":"%char.

#[global] Instance replaced_in_tag_dec c : Decision (replaced_in_tag c).
Proof. unfold replaced_in_tag. apply _. Defined.

(** The tag made of the key of a text chunk. *)
Definition metadata_tag (pszKey : list ascii) : list ascii :=
  (fun c : ascii => if bool_decide (replaced_in_tag c) then "_"%char else c)
    <$> pszKey.

(** [PNGDataset::CollectMetadata] on the text chunks [png_get_text]
    delivers, key and text: the calls it makes to [SetMetadataItem], in
    order. *)
Definition CollectMetadata (text_ptr : list (list ascii * list ascii))
  : list (list ascii * list ascii) :=
  (fun chunk => (metadata_tag chunk.1, chunk.2)) <$> text_ptr.

(** * The ENVI driver

    A shallow embedding of [ENVIDataset]: the header reader
    ([ReadHeader], [SplitList], [ProcessMapinfo]), [Open], [Create],
    [FlushCache] and the georeferencing accessors, with the state plane
    zone table.

    Conventions.
    - A C string is the list of its characters before the terminator.  A
      string list of [cpl_string.h] is the list of its strings; [NULL] is
      the empty list.
    - The C library and the CPL string functions the driver calls are
      collaborators, modelled by what they return.  A text file is read
      by [CPLReadLine] line by line; the model takes the lines.
    - Where the driver returns [NULL] the model returns [Some None];
      [None] is kept for what C leaves undefined (a signed overflow, a
      numeral [atoi] cannot represent) and for a loop that runs out of
      fuel, which the lemmas on fuel exclude.
    - [double] values, [atof] and [OGRSpatialReference] are parameters of
      the model, gathered in [Environment]. *)

Module ENVI.

(** ** Strings and the C library *)

Definition c_str (s : string) : list ascii := String.list_ascii_of_string s.

Definition LF : ascii := "010"%char.

(** [strstr( s, "c" ) != NULL] for a needle of one character. *)
Definition has_char (c : ascii) (s : list ascii) : bool :=
  bool_decide (c ∈ s).

(** [toupper] in the C locale. *)
Definition toupper (c : ascii) : ascii :=
  let n := N_of_ascii c in
  if ((97 <=? n) && (n <=? 122))%N then ascii_of_N (n - 32) else c.

(** The macros [EQUAL] and [EQUALN] of [cpl_port.h]: comparison without
    regard to case, of whole strings and of at most [n] characters. *)
Definition EQUAL (a b : list ascii) : bool :=
  bool_decide (toupper <$> a = toupper <$> b).

Definition EQUALN (a b : list ascii) (n : nat) : bool :=
  bool_decide (toupper <$> take n a = toupper <$> take n b).

Definition isspace (c : ascii) : bool :=
  bool_decide (c ∈ [" "; "009"; "010"; "011"; "012"; "013"]%char).

Definition digit_value (c : ascii) : option Z :=
  let n := Z.of_N (N_of_ascii c) in
  if decide (48 <= n <= 57) then Some (n - 48) else None.

Fixpoint atoi_digits (s : list ascii) (acc : Z) : Z :=
  match s with
  | [] => acc
  | c :: rest =>
      match digit_value c with
      | Some d => atoi_digits rest (acc * 10 + d)
      | None => acc
      end
  end.

Fixpoint skip_isspace (s : list ascii) : list ascii :=
  match s with
  | c :: rest => if isspace c then skip_isspace rest else s
  | [] => []
  end.

(** [atoi]: white space, an optional sign, then digits up to the first
    character that is none; undefined when the value is no [int]. *)
Definition atoi (s : list ascii) : option Z :=
  let v := match skip_isspace s with
           | "-"%char :: rest => - atoi_digits rest 0
           | "+"%char :: rest => atoi_digits rest 0
           | rest => atoi_digits rest 0
           end in
  if decide (- INT_MAX - 1 <= v <= INT_MAX) then Some v else None.

Definition digit_char (d : Z) : ascii := ascii_of_N (Z.to_N (48 + d)).

Fixpoint fmt_digits (fuel : nat) (n : Z) (acc : list ascii) : list ascii :=
  match fuel with
  | O => acc
  | S fuel =>
      let acc' := digit_char (n mod 10) :: acc in
      if decide (n < 10) then acc' else fmt_digits fuel (n / 10) acc'
  end.

(** What [printf] writes for ["%d"] and an [int], which has at most ten
    digits. *)
Definition fmt_d (n : Z) : list ascii :=
  if decide (n < 0) then "-"%char :: fmt_digits 10 (- n) []
  else fmt_digits 10 n [].

(** The lines [CPLReadLine] delivers for a text, one call after the
    other, when the lines of the text end in a line feed. *)
Fixpoint text_lines_from (text cur : list ascii) : list (list ascii) :=
  match text with
  | [] => match cur with [] => [] | _ => [cur] end
  | c :: rest =>
      if decide (c = LF) then cur :: text_lines_from rest []
      else text_lines_from rest (cur ++ [c])
  end.

Definition text_lines (text : list ascii) : list (list ascii) :=
  text_lines_from text [].

(** ** String lists *)

Definition CSLAddString (papszList : list (list ascii)) (s : list ascii)
  : list (list ascii) :=
  papszList ++ [s].

(** The separator of an entry of a name and value list when it is the
    entry of [pszName]: the entry starts with the name, whatever the
    case, and goes on with ['='] or [':']. *)
Definition entry_separator (pszName entry : list ascii) : option ascii :=
  if EQUALN entry pszName (length pszName) then
    match entry !! length pszName with
    | Some c =>
        if decide (c = "="%char \/ c = ":"%char) then Some c else None
    | None => None
    end
  else None.

Fixpoint CSLFetchNameValue (papszList : list (list ascii))
    (pszName : list ascii) : option (list ascii) :=
  match papszList with
  | [] => None
  | entry :: rest =>
      match entry_separator pszName entry with
      | Some _ => Some (drop (S (length pszName)) entry)
      | None => CSLFetchNameValue rest pszName
      end
  end.

(** [CSLSetNameValue]: the first entry of the name gets the new value
    and keeps its separator; a name that has no entry gets one at the
    end of the list. *)
Fixpoint CSLSetNameValue (papszList : list (list ascii))
    (pszName pszValue : list ascii) : list (list ascii) :=
  match papszList with
  | [] => [pszName ++ "="%char :: pszValue]
  | entry :: rest =>
      match entry_separator pszName entry with
      | Some cSep => (pszName ++ cSep :: pszValue) :: rest
      | None => entry :: CSLSetNameValue rest pszName pszValue
      end
  end.

(** ** GDAL *)

Inductive GDALAccess := GA_ReadOnly | GA_Update.

#[global] Instance GDALAccess_eq_dec : EqDecision GDALAccess.
Proof. solve_decision. Defined.

(** [GDALGetDataTypeSize], in bits. *)
Definition GDALGetDataTypeSize (eType : GDALDataType) : Z :=
  match eType with
  | GDT_Byte => 8
  | GDT_UInt16 | GDT_Int16 => 16
  | GDT_UInt32 | GDT_Int32 | GDT_Float32 | GDT_CInt16 => 32
  | GDT_Float64 | GDT_CInt32 | GDT_CFloat32 => 64
  | GDT_CFloat64 => 128
  | GDT_Unknown => 0
  end.

(** What the constructor of [RawRasterBand] is given, and the
    description of the band. *)
Record RawRasterBand := {
  nImgOffset : Z;
  nPixelOffset : Z;
  nLineOffset : Z;
  eDataType : GDALDataType;
  bNativeOrder : bool;
  description : list ascii
}.

Definition SetDescription (pszDescription : list ascii) (b : RawRasterBand)
  : RawRasterBand :=
  {| nImgOffset := nImgOffset b; nPixelOffset := nPixelOffset b;
     nLineOffset := nLineOffset b; eDataType := eDataType b;
     bNativeOrder := bNativeOrder b; description := pszDescription |}.

(** The product of two [int]s, undefined when it is no [int]. *)
Definition int_mul (a b : Z) : option Z :=
  if decide (- INT_MAX - 1 <= a * b <= INT_MAX) then Some (a * b) else None.

(** A value converted to [vsi_l_offset], an unsigned type of 64 bits. *)
Definition to_vsi_l_offset (n : Z) : Z := n mod 2 ^ 64.

(** ** The state plane zones *)

Definition anUsgsEsriZones : list Z :=
  [101; 3101; 102; 3126; 201; 3151; 202; 3176;
   203; 3201; 301; 3226; 302; 3251; 401; 3276;
   402; 3301; 403; 3326; 404; 3351; 405; 3376;
   406; 3401; 407; 3426; 501; 3451; 502; 3476;
   503; 3501; 600; 3526; 700; 3551; 901; 3601;
   902; 3626; 903; 3576; 1001; 3651; 1002; 3676;
   1101; 3701; 1102; 3726; 1103; 3751; 1201; 3776;
   1202; 3801; 1301; 3826; 1302; 3851; 1401; 3876;
   1402; 3901; 1501; 3926; 1502; 3951; 1601; 3976;
   1602; 4001; 1701; 4026; 1702; 4051; 1703; 6426;
   1801; 4076; 1802; 4101; 1900; 4126; 2001; 4151;
   2002; 4176; 2101; 4201; 2102; 4226; 2103; 4251;
   2111; 6351; 2112; 6376; 2113; 6401; 2201; 4276;
   2202; 4301; 2203; 4326; 2301; 4351; 2302; 4376;
   2401; 4401; 2402; 4426; 2403; 4451; 2500; 0;
   2501; 4476; 2502; 4501; 2503; 4526; 2600; 0;
   2601; 4551; 2602; 4576; 2701; 4601; 2702; 4626;
   2703; 4651; 2800; 4676; 2900; 4701; 3001; 4726;
   3002; 4751; 3003; 4776; 3101; 4801; 3102; 4826;
   3103; 4851; 3104; 4876; 3200; 4901; 3301; 4926;
   3302; 4951; 3401; 4976; 3402; 5001; 3501; 5026;
   3502; 5051; 3601; 5076; 3602; 5101; 3701; 5126;
   3702; 5151; 3800; 5176; 3900; 0; 3901; 5201;
   3902; 5226; 4001; 5251; 4002; 5276; 4100; 5301;
   4201; 5326; 4202; 5351; 4203; 5376; 4204; 5401;
   4205; 5426; 4301; 5451; 4302; 5476; 4303; 5501;
   4400; 5526; 4501; 5551; 4502; 5576; 4601; 5601;
   4602; 5626; 4701; 5651; 4702; 5676; 4801; 5701;
   4802; 5726; 4803; 5751; 4901; 5776; 4902; 5801;
   4903; 5826; 4904; 5851; 5001; 6101; 5002; 6126;
   5003; 6151; 5004; 6176; 5005; 6201; 5006; 6226;
   5007; 6251; 5008; 6276; 5009; 6301; 5010; 6326;
   5101; 5876; 5102; 5901; 5103; 5926; 5104; 5951;
   5105; 5976; 5201; 6001; 5200; 6026; 5200; 6076;
   5201; 6051; 5202; 6051; 5300; 0; 5400; 0].

(** [anUsgsEsriZones[i*2]] and [anUsgsEsriZones[i*2+1]]. *)
Definition zone_usgs (i : Z) : Z := anUsgsEsriZones !!! Z.to_nat (i * 2).
Definition zone_esri (i : Z) : Z := anUsgsEsriZones !!! Z.to_nat (i * 2 + 1).

Fixpoint ESRIToUSGSZone_loop (pairs : list Z) (nESRIZone : Z) : Z :=
  match pairs with
  | [] => 0
  | i :: rest =>
      if decide (zone_esri i = nESRIZone) then zone_usgs i
      else ESRIToUSGSZone_loop rest nESRIZone
  end.

Definition ESRIToUSGSZone (nESRIZone : Z) : Z :=
  let nPairs := Z.of_nat (length anUsgsEsriZones) / 2 in
  ESRIToUSGSZone_loop (seqZ 0 nPairs) nESRIZone.

(** ** The environment *)

(** What the driver takes from [double] arithmetic and from
    [OGRSpatialReference], and the byte order of the machine. *)
Class Environment := {
  double : Type;
  atof : list ascii -> double;
  double_neg : double -> double;
  double_0 : double;
  double_1 : double;
  CPL_LSB : bool;
  OGRSpatialReference : Type;
  OGRSpatialReference_new : OGRSpatialReference;
  SetUTM : Z -> bool -> OGRSpatialReference -> OGRSpatialReference;
  SetWellKnownGeogCS : list ascii -> OGRSpatialReference -> OGRSpatialReference;
  SetStatePlane : Z -> bool -> OGRSpatialReference -> OGRSpatialReference;
  SetLocalCS : list ascii -> OGRSpatialReference -> OGRSpatialReference;
  SetLinearUnits : list ascii -> double -> OGRSpatialReference
                   -> OGRSpatialReference;
  GetRoot_is_NULL : OGRSpatialReference -> bool;
  exportToWkt : OGRSpatialReference -> list ascii;
  SRS_UL_US_FOOT : list ascii;
  SRS_UL_US_FOOT_CONV : list ascii
}.

Section Driver.
Context `{Environment}.

(** ** The dataset *)

(** The fields of [ENVIDataset] and those it inherits from
    [GDALDataset]; the two files are left to the environment. *)
Record ENVIDataset := {
  nRasterXSize : Z;
  nRasterYSize : Z;
  nBands : Z;
  eAccess : GDALAccess;
  papoBands : list RawRasterBand;
  bFoundMapinfo : bool;
  adfGeoTransform : list double;
  pszProjection : list ascii;
  papszHeader : list (list ascii)
}.

(** [ENVIDataset::ENVIDataset]. *)
Definition ENVIDataset_new : ENVIDataset :=
  {| nRasterXSize := 0; nRasterYSize := 0; nBands := 0;
     eAccess := GA_ReadOnly; papoBands := [];
     bFoundMapinfo := false;
     adfGeoTransform :=
       [double_0; double_1; double_0; double_0; double_0; double_1];
     pszProjection := [];
     papszHeader := [] |}.

Definition set_adfGeoTransform (v : list double) (ds : ENVIDataset)
  : ENVIDataset :=
  {| nRasterXSize := nRasterXSize ds; nRasterYSize := nRasterYSize ds;
     nBands := nBands ds; eAccess := eAccess ds; papoBands := papoBands ds;
     bFoundMapinfo := bFoundMapinfo ds; adfGeoTransform := v;
     pszProjection := pszProjection ds; papszHeader := papszHeader ds |}.

Definition set_pszProjection (v : list ascii) (ds : ENVIDataset)
  : ENVIDataset :=
  {| nRasterXSize := nRasterXSize ds; nRasterYSize := nRasterYSize ds;
     nBands := nBands ds; eAccess := eAccess ds; papoBands := papoBands ds;
     bFoundMapinfo := bFoundMapinfo ds;
     adfGeoTransform := adfGeoTransform ds;
     pszProjection := v; papszHeader := papszHeader ds |}.

Definition set_bFoundMapinfo (v : bool) (ds : ENVIDataset) : ENVIDataset :=
  {| nRasterXSize := nRasterXSize ds; nRasterYSize := nRasterYSize ds;
     nBands := nBands ds; eAccess := eAccess ds; papoBands := papoBands ds;
     bFoundMapinfo := v; adfGeoTransform := adfGeoTransform ds;
     pszProjection := pszProjection ds; papszHeader := papszHeader ds |}.


(** [ENVIDataset::FlushCache]: what it prints at the end of the header
    file.  ([GDALDataset::FlushCache] acts on the block cache of the bands,
    which the model leaves out.)  [GetRasterBand( i )] returns [NULL] for
    a band that is not there. *)
Definition FlushCache (ds : ENVIDataset) : option (list ascii) :=
  names ← mapM (fun i =>
                  poBand ← (if decide (1 <= i)
                            then papoBands ds !! Z.to_nat (i - 1) else None);
                  Some (description poBand
                        ++ (if decide (i <> nBands ds)
                            then c_str "," ++ [LF] else [])))
             (seqZ 1 (nBands ds));
  Some (c_str "band names = {" ++ [LF] ++ concat names
        ++ c_str "}" ++ [LF]).

(** [ENVIDataset::GetProjectionRef] and [ENVIDataset::SetProjection]. *)
Definition GetProjectionRef (ds : ENVIDataset) : list ascii :=
  pszProjection ds.

Definition SetProjection (pszNewProjection : list ascii) (ds : ENVIDataset)
  : CPLErr * ENVIDataset :=
  (CE_None, set_pszProjection pszNewProjection ds).

(** [ENVIDataset::GetGeoTransform]: the six coefficients are copied to
    the caller in either case. *)
Definition GetGeoTransform (ds : ENVIDataset) : CPLErr * list double :=
  (if bFoundMapinfo ds then CE_None else CE_Failure, adfGeoTransform ds).

(** [ENVIDataset::SetGeoTransform]: six coefficients are read from the
    array of the caller. *)
Definition SetGeoTransform (padfTransform : list double) (ds : ENVIDataset)
  : option (CPLErr * ENVIDataset) :=
  if decide (6 <= length padfTransform)%nat
  then Some (CE_None, set_adfGeoTransform (take 6 padfTransform) ds)
  else None.

(** ** [SplitList] *)

(** [while( pszInput[iFStart] == ' ' ) iFStart++]. *)
Fixpoint skip_spaces (psz : list ascii) : list ascii :=
  match psz with
  | c :: rest => if decide (c = " "%char) then skip_spaces rest else psz
  | [] => []
  end.

(** The scan for the end of a field: the characters before the first
    [','], ['}'] or terminator, and the string from there on. *)
Fixpoint scan_field (psz : list ascii) : list ascii * list ascii :=
  match psz with
  | [] => ([], [])
  | c :: rest =>
      if decide (c = ","%char \/ c = "}"%char) then ([], psz)
      else let '(field, tail) := scan_field rest in (c :: field, tail)
  end.

(** [while( iFEnd > iFStart && pszInput[iFEnd] == ' ' ) iFEnd--]: the
    spaces at the end of a field are dropped, but never its first
    character. *)
Definition trim_end (field : list ascii) : list ascii :=
  match field with
  | [] => []
  | c :: rest => c :: reverse (skip_spaces (reverse rest))
  end.

(** The loop of [SplitList] with [psz = pszInput + iChar]. *)
Fixpoint SplitList_fields (fuel : nat) (psz : list ascii)
  : option (list (list ascii)) :=
  match fuel with
  | O => None
  | S fuel =>
      match psz with
      | [] => Some []
      | c :: _ =>
          if decide (c = "}"%char) then Some []
          else
            let '(field, tail) := scan_field (skip_spaces psz) in
            match tail with
            | [] => Some []
            | _ :: next =>
                papszRest ← SplitList_fields fuel next;
                Some (trim_end field :: papszRest)
            end
      end
  end.

(** [ENVIDataset::SplitList]. *)
Definition SplitList (pszCleanInput : list ascii)
  : option (list (list ascii)) :=
  match pszCleanInput with
  | c :: rest =>
      if decide (c = "{"%char)
      then SplitList_fields (S (length rest)) rest
      else Some []
  | [] => Some []
  end.

(** ** [ProcessMapinfo] *)

(** [ENVIDataset::ProcessMapinfo]: the value returned, and the dataset
    after the call. *)
Definition ProcessMapinfo (pszMapinfo : list ascii) (ds : ENVIDataset)
  : option (bool * ENVIDataset) :=
  papszFields ← SplitList pszMapinfo;
  let nCount := length papszFields in
  if decide (nCount < 7)%nat then Some (false, ds)
  else
    let field (i : nat) := default [] (papszFields !! i) in
    let ds1 :=
      set_adfGeoTransform
        [atof (field 3%nat); atof (field 5%nat); double_0;
         atof (field 4%nat); double_0; double_neg (atof (field 6%nat))] ds in
    oSRS1 ←
      (if EQUALN (field 0%nat) (c_str "UTM") 3 && bool_decide (9 <= nCount)%nat
       then
         nZone ← atoi (field 7%nat);
         Some (SetWellKnownGeogCS (c_str "WGS84")
                 (SetUTM nZone (negb (EQUAL (field 8%nat) (c_str "South")))
                    OGRSpatialReference_new))
       else if EQUALN (field 0%nat) (c_str "State Plane (NAD 27)") 19
               && bool_decide (8 <= nCount)%nat
       then
         nZone ← atoi (field 7%nat);
         Some (SetStatePlane (ESRIToUSGSZone nZone) false
                 OGRSpatialReference_new)
       else if EQUALN (field 0%nat) (c_str "State Plane (NAD 83)") 19
               && bool_decide (8 <= nCount)%nat
       then
         nZone ← atoi (field 7%nat);
         Some (SetStatePlane (ESRIToUSGSZone nZone) true
                 OGRSpatialReference_new)
       else Some OGRSpatialReference_new);
    let oSRS2 :=
      if GetRoot_is_NULL oSRS1 then SetLocalCS (field 0%nat) oSRS1
      else oSRS1 in
    let oSRS3 :=
      if EQUAL (field (nCount - 1)%nat) (c_str "units=Feet")
      then SetLinearUnits SRS_UL_US_FOOT (atof SRS_UL_US_FOOT_CONV) oSRS2
      else oSRS2 in
    let ds2 :=
      if negb (GetRoot_is_NULL oSRS3)
      then set_pszProjection (exportToWkt oSRS3) ds1 else ds1 in
    Some (true, ds2).

(** ** [ReadHeader] *)

(** The name and value of a working line, and the header with them: the
    name ends before the first ['='], loses the spaces at its end and has
    the others made underscores; the value starts after the ['='] and
    the spaces that follow it. *)
Fixpoint before_equal (psz : list ascii) : list ascii * option (list ascii) :=
  match psz with
  | [] => ([], None)
  | c :: rest =>
      if decide (c = "="%char) then ([], Some rest)
      else let '(name, value) := before_equal rest in (c :: name, value)
  end.

Definition ReadHeader_pair (papszHeader : list (list ascii))
    (pszWorkingLine : list ascii) : list (list ascii) :=
  match before_equal pszWorkingLine with
  | (_, None) => papszHeader
  | (name, Some value) =>
      CSLSetNameValue papszHeader
        ((fun c : ascii => if decide (c = " "%char) then "_"%char else c)
           <$> trim_end name)
        (skip_spaces value)
  end.

(** The loop that collects the lines of a value in braces: lines are
    appended until one has the closing brace or the file ends. *)
Fixpoint ReadHeader_collect (pszWorkingLine : list ascii)
    (lines : list (list ascii)) : list ascii * list (list ascii) :=
  match lines with
  | [] => (pszWorkingLine, [])
  | pszNewLine :: rest =>
      if has_char "}"%char pszNewLine
      then (pszWorkingLine ++ pszNewLine, rest)
      else ReadHeader_collect (pszWorkingLine ++ pszNewLine) rest
  end.

Fixpoint ReadHeader_lines (fuel : nat) (lines : list (list ascii))
    (papszHeader : list (list ascii)) : option (list (list ascii)) :=
  match fuel with
  | O => None
  | S fuel =>
      match lines with
      | [] => Some papszHeader
      | pszNewLine :: rest =>
          if negb (has_char "="%char pszNewLine)
          then ReadHeader_lines fuel rest papszHeader
          else
            let '(pszWorkingLine, rest') :=
              if has_char "{"%char pszNewLine
                 && negb (has_char "}"%char pszNewLine)
              then ReadHeader_collect pszNewLine rest
              else (pszNewLine, rest) in
            ReadHeader_lines fuel rest'
              (ReadHeader_pair papszHeader pszWorkingLine)
      end
  end.

(** [ENVIDataset::ReadHeader] on the lines of the header file: the
    value returned and the header.  Four bytes are read first; they are
    the start of the first line or the test fails. *)
Definition ReadHeader (lines : list (list ascii))
    (papszHeader : list (list ascii))
  : option (bool * list (list ascii)) :=
  match lines with
  | [] => Some (false, papszHeader)
  | first :: rest =>
      if decide (take 4 first = c_str "ENVI")
      then
        hdr ← ReadHeader_lines (S (length rest)) rest papszHeader;
        Some (true, hdr)
      else Some (false, papszHeader)
  end.

(** ** [Open] *)

(** [atoi] of the value of a key, [dflt] when the key is not there. *)
Definition fetch_int (papszHeader : list (list ascii)) (pszName : string)
    (dflt : Z) : option Z :=
  match CSLFetchNameValue papszHeader (c_str pszName) with
  | Some v => atoi v
  | None => Some dflt
  end.

(** The [switch] on the data type. *)
Definition Open_eType (nType : Z) : option GDALDataType :=
  match nType with
  | 1 => Some GDT_Byte
  | 2 => Some GDT_Int16
  | 3 => Some GDT_Int32
  | 4 => Some GDT_Float32
  | 5 => Some GDT_Float64
  | 6 => Some GDT_CFloat32
  | 9 => Some GDT_CFloat64
  | 12 => Some GDT_UInt16
  | 13 => Some GDT_UInt32
  | _ => None
  end.

(** The offsets of the three interleavings: line, pixel and band. *)
Definition Open_offsets (pszInterleave : list ascii)
    (nDataSize nSamples nLines nBands : Z) : option (option (Z * Z * Z)) :=
  if EQUAL pszInterleave (c_str "bsq") then
    nLineOffset ← int_mul nDataSize nSamples;
    nBandOffset ← int_mul nLineOffset nLines;
    Some (Some (nLineOffset, nDataSize, to_vsi_l_offset nBandOffset))
  else if EQUAL pszInterleave (c_str "bil") then
    nLineOffset ← (n ← int_mul nDataSize nSamples; int_mul n nBands);
    nBandOffset ← int_mul nDataSize nSamples;
    Some (Some (nLineOffset, nDataSize, to_vsi_l_offset nBandOffset))
  else if EQUAL pszInterleave (c_str "bip") then
    nLineOffset ← (n ← int_mul nDataSize nSamples; int_mul n nBands);
    nPixelOffset ← int_mul nDataSize nBands;
    Some (Some (nLineOffset, nPixelOffset, to_vsi_l_offset nDataSize))
  else Some None.

(** The loop that gives the bands their names: band [i + 1] gets name
    [i] as long as there are both. *)
Fixpoint zip_with_names (papszBandNames : list (list ascii))
    (bands : list RawRasterBand) : list RawRasterBand :=
  match papszBandNames, bands with
  | name :: names, b :: rest =>
      SetDescription name b :: zip_with_names names rest
  | _, _ => bands
  end.

(** [ENVIDataset::Open].  [bFp] tells whether the file was opened by the
    caller, [pszExtension] is the extension of its name, [header] the
    lines of the header file found beside it ([None] when there is
    none), and [bImage] whether the file can be opened again. *)
Definition Open (bFp : bool) (eAccess : GDALAccess)
    (pszExtension : list ascii) (header : option (list (list ascii)))
    (bImage : bool) : option (option ENVIDataset) :=
  if negb bFp then Some None
  else match header with
  | None => Some None
  | Some lines =>
  '(bRead, hdr) ← ReadHeader lines (papszHeader ENVIDataset_new);
  if negb bRead then Some None
  else if EQUAL pszExtension (c_str "hdr") then Some None
  else
  nLines ← fetch_int hdr "lines" 0;
  nSamples ← fetch_int hdr "samples" 0;
  nBands ← fetch_int hdr "bands" 0;
  match CSLFetchNameValue hdr (c_str "interleave") with
  | None => Some None
  | Some pszInterleave =>
  if decide (nLines = 0 \/ nSamples = 0 \/ nBands = 0) then Some None
  else
  nHeaderSize ← fetch_int hdr "header_offset" 0;
  eType ← match CSLFetchNameValue hdr (c_str "data_type") with
          | None => Some (Some GDT_Byte)
          | Some v => nType ← atoi v; Some (Open_eType nType)
          end;
  match eType with
  | None => Some None
  | Some eType =>
  bNativeOrder ← match CSLFetchNameValue hdr (c_str "byte_order") with
                 | None => Some true
                 | Some v =>
                     n ← atoi v;
                     Some (if CPL_LSB then bool_decide (n = 0)
                           else bool_decide (n <> 0))
                 end;
  if negb bImage then Some None
  else
  let nDataSize := GDALGetDataTypeSize eType / 8 in
  offsets ← Open_offsets pszInterleave nDataSize nSamples nLines nBands;
  match offsets with
  | None => Some None
  | Some (nLineOffset, nPixelOffset, nBandOffset) =>
  let bands :=
    (fun i =>
       {| nImgOffset := to_vsi_l_offset (nHeaderSize + nBandOffset * i);
          nPixelOffset := nPixelOffset; nLineOffset := nLineOffset;
          eDataType := eType; bNativeOrder := bNativeOrder;
          description := [] |}) <$> seqZ 0 nBands in
  bands' ← match CSLFetchNameValue hdr (c_str "band_names") with
           | None => Some bands
           | Some v =>
               papszBandNames ← SplitList v;
               Some (zip_with_names papszBandNames bands)
           end;
  let poDS :=
    {| nRasterXSize := nSamples; nRasterYSize := nLines; nBands := nBands;
       eAccess := eAccess; papoBands := bands';
       bFoundMapinfo := false;
       adfGeoTransform := adfGeoTransform ENVIDataset_new;
       pszProjection := pszProjection ENVIDataset_new;
       papszHeader := hdr |} in
  match CSLFetchNameValue hdr (c_str "map_info") with
  | None => Some (Some poDS)
  | Some v =>
      '(bFound, poDS') ← ProcessMapinfo v poDS;
      Some (Some (set_bFoundMapinfo bFound poDS'))
  end
  end end end end.

(** ** [Create] *)

(** The [switch] on the data type. *)
Definition Create_iENVIType (eType : GDALDataType) : option Z :=
  match eType with
  | GDT_Byte => Some 1
  | GDT_Int16 => Some 2
  | GDT_Int32 => Some 3
  | GDT_Float32 => Some 4
  | GDT_Float64 => Some 5
  | GDT_CFloat32 => Some 6
  | GDT_CFloat64 => Some 9
  | GDT_UInt16 => Some 12
  | GDT_UInt32 => Some 13
  | _ => None
  end.

(** [ENVIDataset::Create] up to the point where it opens what it
    wrote: the bytes of the image file and the text of the header file,
    or [None] where it returns [NULL].  [bImage] and [bHeader] tell
    whether the two files can be created. *)
Definition Create (nXSize nYSize nBands : Z) (eType : GDALDataType)
    (bImage bHeader : bool) : option (list GByte * list ascii) :=
  iENVIType ← Create_iENVIType eType;
  if negb bImage then None
  else if negb bHeader then None
  else
    let iBigEndian := if CPL_LSB then 0 else 1 in
    Some ([Byte.x00; Byte.x00],
          c_str "ENVI" ++ [LF]
          ++ c_str "samples = " ++ fmt_d nXSize ++ [LF]
          ++ c_str "lines   = " ++ fmt_d nYSize ++ [LF]
          ++ c_str "bands   = " ++ fmt_d nBands ++ [LF]
          ++ c_str "header offset = 0" ++ [LF]
          ++ c_str "file type = ENVI Standard" ++ [LF]
          ++ c_str "data type = " ++ fmt_d iENVIType ++ [LF]
          ++ c_str "interleave = bsq" ++ [LF]
          ++ c_str "byte order = " ++ fmt_d iBigEndian ++ [LF]).

End Driver.

End ENVI.

(** ** Value lists as they are written *)

Module ENVIText.

(** The characters that end a field of a value list. *)
Definition is_separator (c : ascii) : Prop := c = ","%char \/ c = "}"%char.

(** A field with nothing to strip: no separator in it, no space at
    either end. *)
Definition stripped (field : list ascii) : Prop :=
  Forall (fun c => ~ is_separator c) field
  /\ head field <> Some " "%char /\ last field <> Some " "%char.

(** A field between [a] and [b] spaces. *)
Definition padded (a : nat) (field : list ascii) (b : nat) : list ascii :=
  replicate a " "%char ++ field ++ replicate b " "%char.

(** A value list written out: an opening brace, then every field with
    its padding, a comma after each but the last, and a closing brace. *)
Fixpoint value_list_body (fields : list (nat * list ascii * nat))
  : list ascii :=
  match fields with
  | [] => ["}"%char]
  | (a, field, b) :: rest =>
      padded a field b
      ++ match rest with
         | [] => ["}"%char]
         | _ => ","%char :: value_list_body rest
         end
  end.

Definition value_list (fields : list (nat * list ascii * nat)) : list ascii :=
  "{"%char :: value_list_body fields.

(** The characters of what ["%d"] writes. *)
Definition numeral_char (c : ascii) : Prop :=
  is_Some (ENVI.digit_value c) \/ c = "-"%char.

(** ** Headers as they are written *)

(** A name that holds neither of the separators of a name and value
    list. *)
Definition proper_name (pszName : list ascii) : Prop :=
  ("="%char ∉ pszName) /\ (":"%char ∉ pszName).

(** The entry of a name and its value. *)
Definition entry (kv : list ascii * list ascii) : list ascii :=
  kv.1 ++ "="%char :: kv.2.

(** The value of the first pair whose name is [pszName], whatever the
    case. *)
Fixpoint assoc_fetch (kvs : list (list ascii * list ascii))
    (pszName : list ascii) : option (list ascii) :=
  match kvs with
  | [] => None
  | kv :: rest =>
      if ENVI.EQUAL kv.1 pszName then Some kv.2 else assoc_fetch rest pszName
  end.

(** The name [ReadHeader] makes of the name of a line: spaces are made
    underscores. *)
Definition underscored (pszName : list ascii) : list ascii :=
  (fun c : ascii => if decide (c = " "%char) then "_"%char else c)
    <$> pszName.


(** ** An environment to run the driver in *)

(** [double] values are kept as the text they were read from, and
    a spatial reference as the names of the calls made on it. *)
Definition text_environment : ENVI.Environment :=
  {| ENVI.double := list ascii;
     ENVI.atof := fun s => s;
     ENVI.double_neg := fun s => "-"%char :: s;
     ENVI.double_0 := ENVI.c_str "0.0";
     ENVI.double_1 := ENVI.c_str "1.0";
     ENVI.CPL_LSB := true;
     ENVI.OGRSpatialReference := list (list ascii);
     ENVI.OGRSpatialReference_new := [];
     ENVI.SetUTM := fun _ _ srs => srs ++ [ENVI.c_str "SetUTM"];
     ENVI.SetWellKnownGeogCS :=
       fun _ srs => srs ++ [ENVI.c_str "SetWellKnownGeogCS"];
     ENVI.SetStatePlane := fun _ _ srs => srs ++ [ENVI.c_str "SetStatePlane"];
     ENVI.SetLocalCS := fun _ srs => srs ++ [ENVI.c_str "SetLocalCS"];
     ENVI.SetLinearUnits :=
       fun _ _ srs => srs ++ [ENVI.c_str "SetLinearUnits"];
     ENVI.GetRoot_is_NULL := fun srs => bool_decide (srs = []);
     ENVI.exportToWkt := fun srs => concat srs;
     ENVI.SRS_UL_US_FOOT := ENVI.c_str "Foot_US";
     ENVI.SRS_UL_US_FOOT_CONV := ENVI.c_str "0.3048006096012192" |}.

(** A header with map information, and the dataset [Open] makes of
    it. *)
Definition utm_header : list (list ascii) :=
  [ENVI.c_str "ENVI";
   ENVI.c_str "samples = 2";
   ENVI.c_str "lines = 3";
   ENVI.c_str "bands = 1";
   ENVI.c_str "interleave = bsq";
   ENVI.c_str "map info = {UTM, 1, 1, 500000, 4000000, 30, 30, 13, North}"].

Definition utm_dataset : @ENVI.ENVIDataset text_environment :=
  default (@ENVI.ENVIDataset_new text_environment)
    (default None
       (@ENVI.Open text_environment true ENVI.GA_ReadOnly (ENVI.c_str "dat")
          (Some utm_header) true)).

End ENVIText.

(** ** Memory lemmas *)

Lemma poke_length m i v m' : poke m i v = Some m' -> length m' = length m.
Proof.
  unfold poke. case_decide; [|done]. intros [= <-]. apply length_insert.
Qed.

Lemma memcpy_length dst d src s n r :
  memcpy dst d src s n = Some r -> length r = length dst.
Proof.
  unfold memcpy. case_decide as H; [|done]. intros [= <-].
  rewrite !length_app, !length_take, !length_drop. lia.
Qed.

Lemma memcpy_whole (dst src : block) :
  length src = length dst ->
  memcpy dst 0 src 0 (Z.of_nat (length src)) = Some src.
Proof.
  intros Hlen. unfold memcpy. case_decide as H; [|lia].
  f_equal. change (Z.to_nat 0) with 0%nat. rewrite take_0, drop_0. simpl.
  rewrite Z.add_0_l, Nat2Z.id, firstn_all, Hlen, drop_all. apply app_nil_r.
Qed.

Lemma for_each_length body l :
  (forall i m m', body i m = Some m' -> length m' = length m) ->
  forall m m', for_each l body m = Some m' -> length m' = length m.
Proof.
  intros Hbody. induction l as [|i l IH]; simpl; intros m m' H.
  - by injection H as <-.
  - destruct (body i m) as [m1|] eqn:E; simpl in H; [|done].
    rewrite (IH _ _ H). eauto.
Qed.

(** ** The cache on a well-formed file *)

Section WellFormedFile.

Context (f : PNGFile) (Hwf : wf_file f).

Lemma pixel_offset_row_bytes :
  (if png_bit_depth f =? 16 then 2 * png_channels f else 1 * png_channels f)
  * png_width f = row_bytes f.
Proof.
  unfold row_bytes, sample_size. destruct (png_bit_depth f =? 16); lia.
Qed.

Lemma wf_file_row r :
  0 <= r < png_height f ->
  exists row, png_image f !! Z.to_nat r = Some row
              /\ Z.of_nat (length row) = row_bytes f.
Proof.
  intros Hr. pose proof Hwf as (_ & _ & _ & _ & Hlen & Hrows & _).
  destruct (lookup_lt_is_Some_2 (png_image f) (Z.to_nat r)) as [row Hrow];
    [lia|].
  exists row. split; [done|].
  by apply (Forall_lookup_1 _ _ _ _ Hrows Hrow).
Qed.

Lemma Open_inv : cache_inv f (Open f).
Proof.
  split; [by repeat split|]. split; [done|].
  pose proof Hwf as (? & ? & _).
  simpl. destruct (png_interlaced f); repeat split; (lia || auto).
Qed.

(** One row decoded into a one-row buffer. *)
Lemma read_next_row_spec ds (buf row : block) :
  fpImage ds = f ->
  0 <= png_row_number (hPNG ds) ->
  png_image f !! Z.to_nat (png_row_number (hPNG ds)) = Some row ->
  pabyBuffer ds = Some buf -> length row = length buf ->
  read_next_row ds
  = Some (set_nLastLineRead (nLastLineRead ds + 1)
            (set_pabyBuffer (Some row)
               (set_hPNG {| png_row_number := png_row_number (hPNG ds) + 1;
                            png_packing := png_packing (hPNG ds) |}
                  (record_call (CallReadRows (png_row_number (hPNG ds)))
                     ds)))).
Proof.
  intros Hf Hpos Hrow Hbuf Hlen. unfold read_next_row, png_read_rows.
  rewrite Hbuf, Hf. simpl. case_decide; [|lia]. rewrite Hrow. simpl.
  by rewrite (memcpy_whole buf row Hlen).
Qed.

(** The loop from a cursor below the requested line: it returns, having
    decoded each line from the cursor's successor to the requested one,
    once each and in order, and leaves the requested line in the buffer. *)
Lemma read_until_spec nLine (row : block) :
  0 <= nLine < png_height f ->
  png_image f !! Z.to_nat nLine = Some row ->
  forall n ds buf,
    fpImage ds = f ->
    pabyBuffer ds = Some buf -> Z.of_nat (length buf) = row_bytes f ->
    png_row_number (hPNG ds) = nLastLineRead ds + 1 ->
    -1 <= nLastLineRead ds ->
    nLine - nLastLineRead ds = Z.of_nat n ->
    exists ds',
      read_until n nLine ds = Some ds'
      /\ nRasterXSize ds' = nRasterXSize ds
      /\ nRasterYSize ds' = nRasterYSize ds
      /\ nBands ds' = nBands ds /\ fpImage ds' = fpImage ds
      /\ nBitDepth ds' = nBitDepth ds /\ bInterlaced ds' = bInterlaced ds
      /\ nBufferStartLine ds' = nBufferStartLine ds
      /\ nBufferLines ds' = nBufferLines ds
      /\ nLastLineRead ds' = nLine
      /\ png_row_number (hPNG ds') = nLine + 1
      /\ pabyBuffer ds' = Some (if n is O then buf else row)
      /\ calls ds'
         = calls ds
           ++ (CallReadRows <$> seqZ (nLastLineRead ds + 1) (Z.of_nat n)).
Proof.
  intros Hline Hrow n. induction n as [|n IH];
    intros ds buf Hf Hbuf Hlen Hsync Hlo Hdist.
  - exists ds. simpl. case_decide; [lia|].
    rewrite app_nil_r. repeat split; (done || lia).
  - simpl. case_decide; [|lia].
    destruct (wf_file_row (png_row_number (hPNG ds))) as (r & Hr & Hrl);
      [lia|].
    rewrite (read_next_row_spec ds buf r) by (done || lia).
    simpl.
    edestruct (IH (set_nLastLineRead (nLastLineRead ds + 1)
            (set_pabyBuffer (Some r)
               (set_hPNG {| png_row_number := png_row_number (hPNG ds) + 1;
                            png_packing := png_packing (hPNG ds) |}
                  (record_call (CallReadRows (png_row_number (hPNG ds)))
                     ds)))) r) as (ds' & Hrun & Hrest); simpl; try (done || lia).
    exists ds'. split; [done|].
    destruct Hrest as (H1 & H2 & H3 & H4 & H5 & H6 & H7 & H8 & H9 & H10 & H11 & H12).
    simpl in *. repeat split; try done.
    + rewrite H11. destruct n; [|done].
      f_equal. rewrite Hsync in Hr.
      replace (nLastLineRead ds + 1) with nLine in Hr by lia. congruence.
    + rewrite H12, <- app_assoc. f_equal. simpl.
      rewrite (seqZ_cons (nLastLineRead ds + 1) (Z.of_nat (S n))) by lia.
      rewrite Hsync. simpl. do 3 f_equal; lia.
Qed.

(** A call that misses the buffer, on a non-interlaced file. *)
Lemma LoadScanline_progressive ds bAllocOk nLine :
  png_interlaced f = false -> cache_inv f ds ->
  0 <= nLine < png_height f -> ~ buffered nLine ds ->
  exists ds' row,
    LoadScanline bAllocOk nLine ds = Some (CE_None, ds')
    /\ cache_inv f ds'
    /\ png_image f !! Z.to_nat nLine = Some row
    /\ pabyBuffer ds' = Some row
    /\ nBufferStartLine ds' = nLine /\ nBufferLines ds' = 1
    /\ nLastLineRead ds' = nLine
    /\ calls ds' = calls ds ++ progressive_calls f nLine ds.
Proof.
  intros Hprog (Hop & Hbuf & Hinv) Hline Hmiss.
  rewrite Hprog in Hbuf, Hinv.
  destruct Hop as (Hf & HX & HY & HB & HD & HI).
  destruct Hinv as (Hsync & Hlast & Hrange).
  destruct (wf_file_row nLine Hline) as (row & Hrow & Hrowlen).
  unfold LoadScanline, progressive_calls. case_decide; [done|].
  rewrite HI, Hprog, HD, HB, HX, pixel_offset_row_bytes.
  set (ds1 := match pabyBuffer ds with
              | None => _ | Some _ => ds end).
  assert (exists buf, pabyBuffer ds1 = Some buf
                      /\ Z.of_nat (length buf) = row_bytes f) as (buf & Hb1 & Hl1).
  { subst ds1. destruct (pabyBuffer ds) as [b|] eqn:Eb.
    - exists b. split; [done|]. by apply Hbuf.
    - eexists. split; [reflexivity|]. unfold CPLMalloc, fresh_block.
      rewrite length_replicate.
      pose proof Hwf as (? & ? & ? & _ & _ & _ & ?).
      assert (0 <= row_bytes f) by (unfold row_bytes, sample_size;
        destruct (png_bit_depth f =? 16); nia). lia. }
  assert (calls ds1 = calls ds ++
            (if pabyBuffer ds is None then [CallCPLMalloc (row_bytes f)] else [])
          /\ nLastLineRead ds1 = nLastLineRead ds /\ hPNG ds1 = hPNG ds
          /\ opened_on f ds1 /\ nBufferLines ds1 = nBufferLines ds
          /\ nBufferStartLine ds1 = nBufferStartLine ds)
    as (Hc1 & Hlast1 & Hh1 & Hop1 & _).
  { subst ds1. destruct (pabyBuffer ds); simpl;
      rewrite ?app_nil_r; by repeat split. }
  destruct Hop1 as (Hf1 & HX1 & HY1 & HB1 & HD1 & HI1).
  rewrite Hlast1. clearbody ds1.
  set (ds2 := if decide (nLine <= nLastLineRead ds) then Restart ds1 else ds1).
  edestruct (read_until_spec nLine row Hline Hrow
               (Z.to_nat (nLine - nLastLineRead ds2)) ds2 buf)
    as (ds3 & Hrun & H1 & H2 & H3 & H4 & H5 & H6 & H7 & H8 & H9 & H10 & H11 & H12);
    try done;
    try (subst ds2; case_decide; simpl; rewrite ?Hh1, ?Hlast1; (done || lia)).
  rewrite Hrun. simpl. eexists _, row. split; [reflexivity|].
  assert (Z.to_nat (nLine - nLastLineRead ds2) <> 0%nat) as Hn.
  { subst ds2. case_decide; simpl; [lia|]. unfold buffered in *. lia. }
  destruct (Z.to_nat (nLine - nLastLineRead ds2)) as [|n] eqn:En; [done|].
  split.
  { split; [|split].
    - unfold opened_on. simpl. rewrite H1, H2, H3, H4, H5, H6.
      subst ds2; case_decide; simpl; by repeat split.
    - simpl. intros b. rewrite H11, Hprog. by intros [= <-].
    - rewrite Hprog. simpl. rewrite H9, H10, H11.
      split; [done|]. split; [lia|]. right. repeat split; (done || lia). }
  simpl. repeat split; try done.
  rewrite H12, <- En. subst ds2. case_decide; simpl.
  - rewrite Hc1, <- !app_assoc. simpl.
    by replace (Z.of_nat (Z.to_nat (nLine - -1))) with (nLine + 1) by lia.
  - rewrite Hc1, Hlast1, <- !app_assoc.
    by rewrite Z2Nat.id by lia.
Qed.

(** The whole image decoded into a buffer of its size: the rows from the
    decoder's position on land at their row pointers. *)
Lemma png_read_image_rows_spec nPixelOffset nXSize :
  nPixelOffset * nXSize = row_bytes f ->
  forall n k h (buf : block),
    png_height f - k = Z.of_nat n -> 0 <= k ->
    png_row_number h = k ->
    Z.of_nat (length buf) = row_bytes f * png_height f ->
    take (Z.to_nat (k * row_bytes f)) buf
    = concat (take (Z.to_nat k) (png_image f)) ->
    png_read_image_rows f h buf
      ((fun i => i * nPixelOffset * nXSize) <$> seqZ k (Z.of_nat n))
    = Some (concat (png_image f),
            {| png_row_number := png_height f;
               png_packing := png_packing h |}).
Proof.
  intros Hrb n. induction n as [|n IH]; intros k h buf Hn Hk Hh Hlen Hpre.
  - simpl. destruct h as [rn pk]. simpl in *.
    pose proof Hwf as (_ & _ & _ & _ & Himg & _).
    assert (k = png_height f) as -> by lia. subst rn. do 2 f_equal.
    rewrite <- Himg, Nat2Z.id, firstn_all in Hpre. rewrite <- Hpre.
    rewrite take_ge; [done|]. lia.
  - rewrite seqZ_cons by lia. simpl.
    destruct (wf_file_row k) as (r & Hr & Hrl); [lia|].
    assert (0 <= row_bytes f) as Hrb0.
    { pose proof Hwf as (? & ? & ? & _). unfold row_bytes, sample_size.
      destruct (png_bit_depth f =? 16); nia. }
    unfold png_read_rows at 1. rewrite Hh. case_decide; [|lia].
    rewrite Hr. simpl. unfold memcpy. case_decide as Hc; [|nia].
    simpl.
    replace (Z.pred (Z.of_nat (S n))) with (Z.of_nat n) by lia.
    rewrite <- Z.mul_assoc, Hrb.
    apply (IH (Z.succ k) {| png_row_number := k + 1;
                            png_packing := png_packing h |}); simpl; try lia.
    + rewrite !length_app, !length_take, !length_drop. nia.
    + replace (Z.to_nat (Z.succ k * row_bytes f))
        with (Z.to_nat (k * row_bytes f) + length r)%nat by nia.
      rewrite Nat2Z.id, drop_0, firstn_all.
      rewrite app_assoc, take_app_length'.
      2:{ rewrite length_app, length_take. nia. }
      rewrite Hpre.
      replace (Z.to_nat (Z.succ k)) with (S (Z.to_nat k)) by lia.
      by rewrite (take_S_r _ _ _ Hr), concat_app, (concat_cons r []),
        concat_nil, app_nil_r.
Qed.

Lemma row_bytes_nonneg : 0 <= row_bytes f.
Proof.
  pose proof Hwf as (? & ? & ? & _). unfold row_bytes, sample_size.
  destruct (png_bit_depth f =? 16); nia.
Qed.

(** A call that misses the buffer, on an interlaced file. *)
Lemma LoadScanline_interlaced ds bAllocOk nLine :
  png_interlaced f = true -> cache_inv f ds ->
  ~ buffered nLine ds ->
  exists ds',
    LoadScanline bAllocOk nLine ds
    = Some (if bAllocOk then CE_None else CE_Failure, ds')
    /\ cache_inv f ds'
    /\ nBufferStartLine ds' = 0 /\ nBufferLines ds' = png_height f
    /\ pabyBuffer ds'
       = (if bAllocOk then Some (concat (png_image f)) else None)
    /\ nLastLineRead ds'
       = (if bAllocOk then png_height f - 1 else -1)
    /\ calls ds' = calls ds ++ interlaced_calls f bAllocOk ds.
Proof.
  intros Hint (Hop & Hbuf & Hinv) Hmiss.
  rewrite Hint in Hbuf, Hinv.
  destruct Hop as (Hf & HX & HY & HB & HD & HI).
  destruct Hinv as (Hstart & Hlines & Hfresh).
  pose proof row_bytes_nonneg as Hrb0.
  pose proof Hwf as (HW & HH & _ & _ & Himg & Hrows & _).
  unfold LoadScanline, interlaced_calls. case_decide; [done|].
  rewrite HI, Hint.
  set (ds1 := if decide (nLastLineRead ds <> -1) then Restart ds else ds).
  assert (opened_on f ds1 /\ nLastLineRead ds1 = -1
          /\ png_row_number (hPNG ds1) = 0
          /\ calls ds1 = calls ds
               ++ (if decide (nLastLineRead ds <> -1) then [CallRestart] else []))
    as ((Hf1 & HX1 & HY1 & HB1 & HD1 & HI1) & Hl1 & Hh1 & Hc1).
  { subst ds1. case_decide; simpl; rewrite ?app_nil_r.
    - by repeat split.
    - assert (nLastLineRead ds = -1) by lia. repeat split; auto. }
  clearbody ds1. cbn [nRasterXSize nRasterYSize set_nBufferLines
    set_nBufferStartLine set_pabyBuffer record_call pabyBuffer fpImage hPNG
    nBitDepth nBands].
  rewrite HD, HB, HX1, HY1, pixel_offset_row_bytes.
  destruct bAllocOk; cbn [VSIMalloc].
  - unfold png_read_image. rewrite decide_True by done.
    rewrite Hf1. 
    replace (seqZ 0 (png_height f))
      with (seqZ 0 (Z.of_nat (Z.to_nat (png_height f))))
      by (by rewrite Z2Nat.id by lia).
    rewrite (png_read_image_rows_spec _ (png_width f)
               pixel_offset_row_bytes (Z.to_nat (png_height f)) 0
               (hPNG ds1) (fresh_block (row_bytes f * png_height f)));
      try (done || lia).
    2:{ unfold fresh_block. rewrite length_replicate. nia. }
    eexists. split; [reflexivity|]. cbn.
    split; [|repeat split; rewrite ?Hc1, <- ?app_assoc; done].
    split; [by repeat split|]. split.
    + cbn. intros b [= <-]. rewrite Hint.
      rewrite length_concat.
      clear -Himg Hrows. revert Himg. generalize (png_height f) as hgt.
      induction Hrows as [|r l Hr _ IH]; intros hgt; simpl; [lia|].
      intros <-. specialize (IH _ eq_refl). lia.
    + rewrite Hint. cbn. repeat split; (lia || auto).
  - eexists. split; [reflexivity|]. cbn.
    split; [|repeat split; rewrite ?Hc1, <- ?app_assoc; done].
    split; [by repeat split|]. split; [done|].
    rewrite Hint. cbn. repeat split; auto.
Qed.

End WellFormedFile.

(** ** The call log *)

Lemma pass_scan_app l l' :
  pass_scan (l ++ l') = fold_left pass_step l' (pass_scan l).
Proof. apply fold_left_app. Qed.

Lemma decoded_rows_app l l' :
  decoded_rows (l ++ l') = decoded_rows l ++ decoded_rows l'.
Proof. apply omap_app. Qed.

Lemma decoded_rows_read_rows (rows : list Z) :
  decoded_rows (CallReadRows <$> rows) = rows.
Proof. induction rows as [|r rows IH]; simpl; [done|]. by f_equal. Qed.

Lemma pass_step_read_rows (rows : list Z) ps cur :
  fold_left pass_step (CallReadRows <$> rows) (ps, cur)
  = (ps, cur ++ (CallReadRows <$> rows)).
Proof.
  revert cur. induction rows as [|r rows IH]; intros cur; simpl.
  - by rewrite app_nil_r.
  - unfold pass_step at 2. simpl. rewrite IH. by rewrite <- app_assoc.
Qed.

Lemma count_app p l l' : count p (l ++ l') = (count p l + count p l')%nat.
Proof. unfold count. by rewrite List.filter_app, length_app. Qed.

Lemma in_order_seqZ pass n :
  0 <= n -> decoded_rows pass = seqZ 0 n -> in_order pass.
Proof.
  intros Hn H. unfold in_order. rewrite H at 1. rewrite H, length_seqZ.
  f_equal. lia.
Qed.

(** The log after a call that missed the buffer of a non-interlaced
    dataset. *)
Lemma log_inv_progressive f nLine ds ds' :
  log_inv ds -> -1 <= nLastLineRead ds -> 0 <= nLine ->
  calls ds' = calls ds ++ progressive_calls f nLine ds ->
  nLastLineRead ds' = nLine ->
  log_inv ds'.
Proof.
  intros [Hclosed Hcur] Hlast Hline Hcalls Hlast'. unfold log_inv.
  rewrite Hcalls, Hlast', !pass_scan_app.
  destruct (pass_scan (calls ds)) as [ps cur]. simpl in *.
  unfold progressive_calls. rewrite !fold_left_app.
  assert (fold_left pass_step
            (if pabyBuffer ds is None then [CallCPLMalloc (row_bytes f)]
             else []) (ps, cur)
          = (ps, cur ++ (if pabyBuffer ds is None
                         then [CallCPLMalloc (row_bytes f)] else []))) as ->.
  { destruct (pabyBuffer ds); simpl; by rewrite ?app_nil_r. }
  assert (decoded_rows
            (cur ++ (if pabyBuffer ds is None
                     then [CallCPLMalloc (row_bytes f)] else []))
          = seqZ 0 (nLastLineRead ds + 1)) as Hcur1.
  { rewrite decoded_rows_app, Hcur. destruct (pabyBuffer ds); simpl;
      by rewrite app_nil_r. }
  case_decide.
  - cbn [fold_left].
    change (pass_step (ps, ?c) CallRestart) with (ps ++ [c], @nil Call).
    rewrite pass_step_read_rows. cbn [fst snd app].
    split.
    + apply Forall_app. split; [done|]. constructor; [|done].
      eapply in_order_seqZ; [|done]. lia.
    + apply decoded_rows_read_rows.
  - rewrite pass_step_read_rows. simpl. split; [done|].
    rewrite decoded_rows_app, Hcur1, decoded_rows_read_rows.
    replace (nLine + 1)
      with ((nLastLineRead ds + 1) + (nLine - nLastLineRead ds)) by lia.
    symmetry. apply (seqZ_app 0); lia.
Qed.

(** ** Every reachable state satisfies the invariant *)

Lemma LoadScanline_buffered bAllocOk nLine ds :
  buffered nLine ds -> LoadScanline bAllocOk nLine ds = Some (CE_None, ds).
Proof. intros H. unfold LoadScanline. by rewrite decide_True. Qed.

Lemma LoadScanline_inv f ds bAllocOk nLine eErr ds' :
  wf_file f -> state_inv f ds -> 0 <= nLine < png_height f ->
  LoadScanline bAllocOk nLine ds = Some (eErr, ds') ->
  state_inv f ds'.
Proof.
  intros Hwf [Hc Hl] Hline Hrun.
  destruct (decide (buffered nLine ds)) as [Hb|Hb].
  { rewrite LoadScanline_buffered in Hrun by done. by injection Hrun as _ <-. }
  destruct (png_interlaced f) eqn:Hi.
  - destruct (LoadScanline_interlaced f Hwf ds bAllocOk nLine Hi Hc Hb)
      as (ds1 & Hrun1 & Hc1 & _).
    rewrite Hrun in Hrun1. injection Hrun1 as _ <-.
    split; [done|]. intros ?; congruence.
  - destruct (LoadScanline_progressive f Hwf ds bAllocOk nLine Hi Hc Hline Hb)
      as (ds1 & row & Hrun1 & Hc1 & _ & _ & _ & _ & Hlast & Hcalls).
    rewrite Hrun in Hrun1. injection Hrun1 as _ <-. split; [done|].
    intros _. destruct Hc as (_ & _ & Hc). rewrite Hi in Hc.
    eapply (log_inv_progressive f nLine ds);
      [exact (Hl eq_refl)|lia|lia|done|done].
Qed.

Lemma FlushCache_inv f ds : state_inv f ds -> state_inv f (FlushCache ds).
Proof.
  intros Hds. pose proof Hds as [(Hop & Hbuf & Hinv) Hl]. unfold FlushCache.
  destruct (pabyBuffer ds) as [b|] eqn:Hb; [|done].
  split; [split; [done|split; [done|]]|].
  - destruct (png_interlaced f); simpl.
    + destruct Hinv as (_ & _ & ?). auto.
    + destruct Hinv as (? & ? & _). auto.
  - intros Hi. destruct (Hl Hi) as [Hclosed Hcur]. unfold log_inv. simpl.
    rewrite pass_scan_app. destruct (pass_scan (calls ds)) as [ps cur].
    simpl in *. split; [done|].
    by rewrite decoded_rows_app, Hcur, app_nil_r.
Qed.

Lemma write_bulk_length scan off nPixelSize nXSize pImage scan' :
  write_bulk scan off nPixelSize nXSize pImage = Some scan' ->
  length scan' = length scan.
Proof. apply memcpy_length. Qed.

Lemma write_strided_length scan off nPixelSize nPixelOffset nXSize pImage
    scan' :
  write_strided scan off nPixelSize nPixelOffset nXSize pImage = Some scan' ->
  length scan' = length scan.
Proof.
  unfold write_strided, write_strided1, write_strided2, for_upto.
  destruct (nPixelSize =? 1); apply for_each_length; intros i m m' H.
  - destruct (peek pImage i); simpl in H; [|done]. by eapply poke_length.
  - destruct (peek pImage i); simpl in H; [|done].
    destruct (poke m _ _) as [m1|] eqn:E1; simpl in H; [|done].
    destruct (peek pImage (i + 1)); simpl in H; [|done].
    rewrite (poke_length _ _ _ _ H). by eapply poke_length.
Qed.

(** Replacing the contents of the buffer by as many bytes keeps the
    invariant. *)
Lemma set_pabyBuffer_inv f ds (scan scan' : block) :
  state_inv f ds -> pabyBuffer ds = Some scan -> length scan' = length scan ->
  state_inv f (set_pabyBuffer (Some scan') ds).
Proof.
  intros [(Hop & Hbuf & Hinv) Hl] Hscan Hlen.
  split; [split; [done|split]|done].
  - simpl. intros b [= <-]. rewrite Hlen. by apply Hbuf.
  - destruct (png_interlaced f); simpl; [done|].
    destruct Hinv as (? & ? & [?|(? & ? & ? & _)]);
      (split; [done|split; [done|]]); [by left|right].
    by repeat split.
Qed.

Lemma IReadBlock_LoadScanline nBand bAllocOk nLine pImage ds eErr img ds' :
  IReadBlock nBand bAllocOk nLine pImage ds = Some (eErr, img, ds') ->
  LoadScanline bAllocOk nLine ds = Some (eErr, ds').
Proof.
  unfold IReadBlock.
  destruct (LoadScanline bAllocOk nLine ds) as [[e ds1]|]; simpl; [|done].
  case_decide.
  - by intros [= <- _ <-].
  - destruct (pabyBuffer ds1); simpl; [|done].
    destruct (if _ =? _ then _ else _); simpl; [|done].
    intros [= <- _ <-]. by destruct e.
Qed.

Lemma perform_inv f op ds ds' :
  wf_file f -> state_inv f ds -> line_asserted f op ->
  perform op ds = Some ds' -> state_inv f ds'.
Proof.
  intros Hwf Hinv Hline. destruct op as [a n| |b a n img|b a n img]; simpl.
  - destruct (LoadScanline a n ds) as [[e ds1]|] eqn:E; simpl; [|done].
    intros [= <-]. by eapply LoadScanline_inv.
  - intros [= <-]. by apply FlushCache_inv.
  - destruct (IReadBlock b a n img ds) as [[[e o] ds1]|] eqn:E; simpl; [|done].
    intros [= <-]. apply IReadBlock_LoadScanline in E.
    by eapply LoadScanline_inv.
  - unfold IWriteBlock.
    destruct (LoadScanline a n ds) as [[e ds1]|] eqn:E; simpl; [|done].
    pose proof (LoadScanline_inv _ _ _ _ _ _ Hwf Hinv Hline E) as Hinv1.
    case_decide; simpl; [by intros [= <-]|].
    destruct (pabyBuffer ds1) as [scan|] eqn:Hscan; simpl; [|done].
    destruct (if _ =? _ then _ else _) as [scan'|] eqn:Hw; simpl; [|done].
    intros [= <-]. eapply set_pabyBuffer_inv; [done..|].
    destruct (_ =? _) in Hw.
    + by eapply write_bulk_length.
    + by eapply write_strided_length.
Qed.

Lemma reachable_inv f ds : wf_file f -> reachable f ds -> state_inv f ds.
Proof.
  intros Hwf. induction 1 as [|ds op ds' _ IH Hline Hrun].
  - split; [by apply Open_inv|]. intros _. split; [constructor|].
    reflexivity.
  - by eapply perform_inv.
Qed.

(** ** The sample files are well formed *)

Lemma wf_scenario_progressive : wf_file scenario_progressive.
Proof. apply (bool_decide_unpack _). by vm_compute. Qed.

Lemma wf_scenario_interlaced : wf_file scenario_interlaced.
Proof. apply (bool_decide_unpack _). by vm_compute. Qed.

Lemma wf_small_interlaced : wf_file small_interlaced.
Proof. apply (bool_decide_unpack _). by vm_compute. Qed.

Lemma wf_two_band_16bit : wf_file two_band_16bit.
Proof. apply (bool_decide_unpack _). by vm_compute. Qed.

Lemma wf_one_band_16bit : wf_file one_band_16bit.
Proof. apply (bool_decide_unpack _). by vm_compute. Qed.

(** ** Counting calls *)

Lemma calls_since_app ds ds' l :
  calls ds' = calls ds ++ l -> calls_since ds ds' = l.
Proof. intros H. unfold calls_since. by rewrite H, drop_app_length. Qed.

Lemma calls_since_same ds : calls_since ds ds = [].
Proof. unfold calls_since. by rewrite drop_all. Qed.

Lemma count_read_rows_map (rows : list Z) :
  count is_read_rows (CallReadRows <$> rows) = length rows
  /\ count is_decode (CallReadRows <$> rows) = length rows
  /\ count is_restart (CallReadRows <$> rows) = 0%nat
  /\ count is_read_image (CallReadRows <$> rows) = 0%nat
  /\ count is_alloc (CallReadRows <$> rows) = 0%nat.
Proof.
  unfold count. induction rows as [|r rows (?&?&?&?&?)]; simpl; [done|].
  repeat split; auto.
Qed.

Lemma progressive_calls_summary f nLine ds :
  -1 <= nLastLineRead ds -> 0 <= nLine -> ~ buffered nLine ds ->
  decoded_rows (progressive_calls f nLine ds)
  = seqZ (previous_line nLine ds + 1) (nLine - previous_line nLine ds)
  /\ count is_restart (progressive_calls f nLine ds)
     = (if restarts_for nLine ds then 1 else 0)%nat
  /\ count is_read_rows (progressive_calls f nLine ds)
     = Z.to_nat (nLine - previous_line nLine ds)
  /\ count is_read_image (progressive_calls f nLine ds) = 0%nat.
Proof.
  intros Hlast Hline Hmiss.
  unfold progressive_calls, previous_line, restarts_for.
  rewrite decoded_rows_app, !count_app.
  assert (decoded_rows
            (if pabyBuffer ds is None then [CallCPLMalloc (row_bytes f)]
             else []) = []) as -> by (by destruct (pabyBuffer ds)).
  assert (forall p, p (CallCPLMalloc (row_bytes f)) = false ->
            count p (if pabyBuffer ds is None
                     then [CallCPLMalloc (row_bytes f)] else []) = 0%nat)
    as Hm.
  { intros p Hp. unfold count. destruct (pabyBuffer ds); simpl; [done|].
    by rewrite Hp. }
  rewrite !Hm by done. simpl.
  destruct (decide (nLine <= nLastLineRead ds)) as [Hle|Hgt].
  - rewrite bool_decide_eq_true_2 by done.
    change (CallRestart :: ?l) with ([CallRestart] ++ l).
    rewrite decoded_rows_app, !count_app, decoded_rows_read_rows.
    destruct (count_read_rows_map (seqZ 0 (nLine + 1)))
      as (-> & _ & -> & -> & _).
    rewrite length_seqZ. simpl.
    replace (nLine - -1) with (nLine + 1) by lia. by repeat split.
  - rewrite bool_decide_eq_false_2 by tauto.
    rewrite decoded_rows_read_rows.
    destruct (count_read_rows_map
                (seqZ (nLastLineRead ds + 1) (nLine - nLastLineRead ds)))
      as (-> & _ & -> & -> & _).
    rewrite length_seqZ. by repeat split.
Qed.


(** A request on an interlaced file whose allocation fails: the call
    returns [CE_Failure] with the whole image declared buffered and no
    buffer. *)
Lemma failed_allocation_sets_range f ds nLine :
  wf_file f -> png_interlaced f = true -> cache_inv f ds ->
  ~ buffered nLine ds ->
  exists ds',
    LoadScanline false nLine ds = Some (CE_Failure, ds')
    /\ nBufferStartLine ds' = 0 /\ nBufferLines ds' = png_height f
    /\ pabyBuffer ds' = None
    /\ forall r, 0 <= r < png_height f -> buffered r ds'.
Proof.
  intros Hwf Hi Hc Hmiss.
  destruct (LoadScanline_interlaced f Hwf ds false nLine Hi Hc Hmiss)
    as (ds' & Hrun & _ & Hs & Hn & Hb & _).
  exists ds'. repeat split; try done; unfold buffered in *; lia.
Qed.

(** ** The transfer loops *)

Lemma peek_Some_lt (m : block) i v :
  peek m i = Some v -> 0 <= i < Z.of_nat (length m).
Proof.
  unfold peek. case_decide; [|done]. intros Hv%lookup_lt_Some. lia.
Qed.

Lemma peek_lt_Some (m : block) i :
  0 <= i < Z.of_nat (length m) -> is_Some (peek m i).
Proof.
  intros H. unfold peek. rewrite decide_True by lia.
  apply lookup_lt_is_Some_2. lia.
Qed.

Lemma peek_poke_eq (m : block) i v m' :
  poke m i v = Some m' -> peek m' i = Some v.
Proof.
  unfold poke, peek. case_decide; [|done]. intros [= <-].
  rewrite decide_True by lia. apply list_lookup_insert_eq. lia.
Qed.

Lemma peek_poke_ne (m : block) i v m' j :
  poke m i v = Some m' -> j <> i -> peek m' j = peek m j.
Proof.
  unfold poke, peek. case_decide; [|done]. intros [= <-] Hne.
  case_decide; [|done]. apply list_lookup_insert_ne. lia.
Qed.

Lemma poke_is_Some (m : block) i v :
  0 <= i < Z.of_nat (length m) -> is_Some (poke m i v).
Proof. intros H. unfold poke. rewrite decide_True by done. by eexists. Qed.

(** Two blocks with the same bytes at every index are equal. *)
Lemma block_eq (a b : block) : (forall i, peek a i = peek b i) -> a = b.
Proof.
  intros H. apply list_eq. intros i. specialize (H (Z.of_nat i)).
  unfold peek in H. rewrite !decide_True in H by lia.
  by rewrite Nat2Z.id in H.
Qed.

Lemma for_each_app l1 l2 body m :
  for_each (l1 ++ l2) body m = (m' ← for_each l1 body m; for_each l2 body m').
Proof.
  revert m. induction l1 as [|i l1 IH]; intros m; simpl; [done|].
  destruct (body i m); simpl; [apply IH|done].
Qed.

Lemma for_upto_succ n body m :
  0 <= n ->
  for_upto (n + 1) body m = (m' ← for_upto n body m; body n m').
Proof.
  intros Hn. unfold for_upto. rewrite seqZ_app by lia.
  rewrite for_each_app. destruct (for_each (seqZ 0 n) body m); simpl; [|done].
  change (seqZ (0 + n) 1) with [Z.of_nat 0 + (0 + n)].
  replace (Z.of_nat 0 + (0 + n)) with n by lia. simpl.
  by destruct (body n l).
Qed.

(** The bytes of a block after [memcpy]. *)
Lemma peek_memcpy (dst : block) d (src : block) s n r p :
  memcpy dst d src s n = Some r ->
  peek r p = if decide (d <= p < d + n) then peek src (s + (p - d))
             else peek dst p.
Proof.
  unfold memcpy. case_decide as H; [|done]. intros [= <-].
  destruct H as (Hd & Hs & Hn & Hdn & Hsn).
  unfold peek. destruct (decide (0 <= p)) as [Hp|Hp].
  2:{ rewrite !decide_False by lia. done. }
  destruct (decide (p < d)) as [Hlt|Hge].
  - rewrite decide_False by lia. rewrite lookup_app_l.
    2:{ rewrite length_take. lia. }
    apply lookup_take_lt. lia.
  - rewrite lookup_app_r by (rewrite length_take; lia).
    rewrite length_take, Nat.min_l by lia.
    destruct (decide (p < d + n)) as [Hin|Hout].
    + rewrite decide_True by lia. rewrite decide_True by lia.
      rewrite lookup_app_l by (rewrite length_take, length_drop; lia).
      rewrite lookup_take_lt by lia. rewrite lookup_drop. f_equal. lia.
    + rewrite decide_False by lia.
      rewrite lookup_app_r by (rewrite length_take, length_drop; lia).
      rewrite length_take, length_drop, Nat.min_l by lia.
      rewrite lookup_drop. f_equal. lia.
Qed.

(** The per-pixel gather of one-byte samples: pixel [i] of the output is
    the byte at [off + i * nPixelOffset] of the row, and the output is
    untouched beyond the last pixel. *)
Lemma read_strided1_spec (scan : block) off nPixelOffset (k : nat)
    (pImage : block) :
  (forall i, 0 <= i < Z.of_nat k ->
             0 <= off + i * nPixelOffset < Z.of_nat (length scan)) ->
  Z.of_nat k <= Z.of_nat (length pImage) ->
  exists img,
    read_strided1 scan off nPixelOffset (Z.of_nat k) pImage = Some img
    /\ length img = length pImage
    /\ (forall i, 0 <= i < Z.of_nat k ->
                  peek img i = peek scan (off + i * nPixelOffset))
    /\ (forall p, ~ 0 <= p < Z.of_nat k -> peek img p = peek pImage p).
Proof.
  unfold read_strided1. induction k as [|k IH]; intros Hscan Hlen.
  - exists pImage. repeat split; (done || lia).
  - destruct IH as (img & Hrun & Hl & Hin & Hout); [intros; apply Hscan; lia|lia|].
    rewrite Nat2Z.inj_succ, <- Z.add_1_r, for_upto_succ, Hrun by lia. simpl.
    destruct (peek_lt_Some scan (off + Z.of_nat k * nPixelOffset)) as [v Hv];
      [apply Hscan; lia|].
    rewrite Hv. simpl.
    destruct (poke_is_Some img (Z.of_nat k) v) as [img' Hp]; [lia|].
    exists img'. split; [done|]. split; [|split].
    + by rewrite (poke_length _ _ _ _ Hp).
    + intros i Hi. destruct (decide (i = Z.of_nat k)) as [->|Hne].
      * by rewrite (peek_poke_eq _ _ _ _ Hp).
      * rewrite (peek_poke_ne _ _ _ _ _ Hp) by done. apply Hin. lia.
    + intros p Hp'. rewrite (peek_poke_ne _ _ _ _ _ Hp) by lia.
      apply Hout. lia.
Qed.

(** The per-pixel scatter of one-byte samples: the byte at
    [off + i * nPixelOffset] of the row is pixel [i] of the input, and
    the row is untouched elsewhere. *)
Lemma write_strided1_spec (scan : block) off nPixelOffset (k : nat)
    (pImage : block) :
  1 <= nPixelOffset ->
  (forall i, 0 <= i < Z.of_nat k ->
             0 <= off + i * nPixelOffset < Z.of_nat (length scan)) ->
  Z.of_nat k <= Z.of_nat (length pImage) ->
  exists scan',
    write_strided1 scan off nPixelOffset (Z.of_nat k) pImage = Some scan'
    /\ length scan' = length scan
    /\ (forall i, 0 <= i < Z.of_nat k ->
                  peek scan' (off + i * nPixelOffset) = peek pImage i)
    /\ (forall p, (forall i, 0 <= i < Z.of_nat k ->
                             p <> off + i * nPixelOffset) ->
                  peek scan' p = peek scan p).
Proof.
  intros Hs. unfold write_strided1. induction k as [|k IH]; intros Hscan Hlen.
  - exists scan. repeat split; (done || lia).
  - destruct IH as (sc & Hrun & Hl & Hin & Hout); [intros; apply Hscan; lia|lia|].
    rewrite Nat2Z.inj_succ, <- Z.add_1_r, for_upto_succ, Hrun by lia. simpl.
    destruct (peek_lt_Some pImage (Z.of_nat k)) as [v Hv]; [lia|].
    rewrite Hv. simpl.
    destruct (poke_is_Some sc (off + Z.of_nat k * nPixelOffset) v)
      as [sc' Hp]; [rewrite Hl; apply Hscan; lia|].
    exists sc'. split; [done|]. split; [|split].
    + by rewrite (poke_length _ _ _ _ Hp).
    + intros i Hi. destruct (decide (i = Z.of_nat k)) as [->|Hne].
      * by rewrite (peek_poke_eq _ _ _ _ Hp).
      * rewrite (peek_poke_ne _ _ _ _ _ Hp) by nia. apply Hin. lia.
    + intros p Hp'. rewrite (peek_poke_ne _ _ _ _ _ Hp) by (apply Hp'; lia).
      apply Hout. intros i Hi. apply Hp'. lia.
Qed.

(** For one-byte samples, whichever branch the band count selects, a
    write puts pixel [i] of the input at [off + i * nBands] of the row
    and touches nothing else. *)
Lemma write_one_byte_spec (scan : block) off nBands nXSize (pImage : block) :
  1 <= nBands -> 0 <= nXSize -> 0 <= off ->
  off + (nXSize - 1) * nBands < Z.of_nat (length scan) ->
  Z.of_nat (length pImage) = nXSize ->
  exists scan',
    (if 1 =? nBands then write_bulk scan off 1 nXSize pImage
     else write_strided scan off 1 nBands nXSize pImage) = Some scan'
    /\ length scan' = length scan
    /\ (forall i, 0 <= i < nXSize ->
                  peek scan' (off + i * nBands) = peek pImage i)
    /\ (forall p, (forall i, 0 <= i < nXSize -> p <> off + i * nBands) ->
                  peek scan' p = peek scan p).
Proof.
  intros HB HX Hoff Hfit Hlen.
  destruct (1 =? nBands) eqn:E.
  - apply Z.eqb_eq in E. subst nBands. unfold write_bulk.
    destruct (memcpy scan off pImage 0 (1 * nXSize)) as [scan'|] eqn:Hm.
    2:{ unfold memcpy in Hm. rewrite decide_True in Hm by lia. done. }
    exists scan'. split; [done|]. split; [by eapply memcpy_length|]. split.
    + intros i Hi. rewrite (peek_memcpy _ _ _ _ _ _ _ Hm).
      rewrite decide_True by lia. f_equal. lia.
    + intros p Hp. rewrite (peek_memcpy _ _ _ _ _ _ _ Hm).
      rewrite decide_False; [done|]. intros Hin.
      apply (Hp (p - off)); lia.
  - unfold write_strided. simpl.
    destruct (write_strided1_spec scan off nBands (Z.to_nat nXSize) pImage)
      as (scan' & Hrun & Hl & Hin & Hout); try lia.
    { intros i Hi. nia. }
    rewrite Z2Nat.id in * by lia. by exists scan'.
Qed.

(** The same for a read: pixel [i] of the output is the byte at
    [off + i * nBands] of the row. *)
Lemma read_one_byte_spec (scan : block) off nBands nXSize (pImage : block) :
  1 <= nBands -> 0 <= nXSize -> 0 <= off ->
  off + (nXSize - 1) * nBands < Z.of_nat (length scan) ->
  Z.of_nat (length pImage) = nXSize ->
  exists img,
    (if 1 =? nBands then read_bulk scan off 1 nXSize pImage
     else read_strided scan off 1 nBands nXSize pImage) = Some img
    /\ length img = length pImage
    /\ (forall i, 0 <= i < nXSize ->
                  peek img i = peek scan (off + i * nBands)).
Proof.
  intros HB HX Hoff Hfit Hlen.
  destruct (1 =? nBands) eqn:E.
  - apply Z.eqb_eq in E. subst nBands. unfold read_bulk.
    destruct (memcpy pImage 0 scan off (1 * nXSize)) as [img|] eqn:Hm.
    2:{ unfold memcpy in Hm. rewrite decide_True in Hm by lia. done. }
    exists img. split; [done|]. split; [by eapply memcpy_length|].
    intros i Hi. rewrite (peek_memcpy _ _ _ _ _ _ _ Hm).
    rewrite decide_True by lia. f_equal. lia.
  - unfold read_strided. simpl.
    destruct (read_strided1_spec scan off nBands (Z.to_nat nXSize) pImage)
      as (img & Hrun & Hl & Hin & Hout); try lia.
    { intros i Hi. nia. }
    rewrite Z2Nat.id in * by lia. by exists img.
Qed.

(** With one band of one-byte samples the per-pixel branch, were it run,
    would deliver what the [memcpy] branch delivers. *)
Lemma one_byte_strided_is_bulk (scan : block) off nXSize (pImage : block) :
  0 <= nXSize -> 0 <= off -> off + nXSize <= Z.of_nat (length scan) ->
  nXSize <= Z.of_nat (length pImage) ->
  read_strided scan off 1 1 nXSize pImage
  = read_bulk scan off 1 nXSize pImage.
Proof.
  intros HX Hoff Hfit Hlen. unfold read_strided, read_bulk. simpl.
  destruct (read_strided1_spec scan off 1 (Z.to_nat nXSize) pImage)
    as (img & Hrun & Hl & Hin & Hout); try lia.
  rewrite Z2Nat.id in * by lia. rewrite Hrun.
  destruct (memcpy pImage 0 scan off (1 * nXSize)) as [img'|] eqn:Hm.
  2:{ unfold memcpy in Hm. rewrite decide_True in Hm by lia. done. }
  f_equal. apply block_eq. intros p.
  rewrite (peek_memcpy _ _ _ _ _ _ _ Hm).
  case_decide.
  - rewrite Hin by lia. f_equal. lia.
  - apply Hout. lia.
Qed.

(** A block read from a buffered line does not call [LoadScanline]'s slow
    path: it depends on the raster parameters, the buffer and its first
    line only. *)
Lemma IReadBlock_buffered nBand bAllocOk nLine pImage ds :
  buffered nLine ds ->
  IReadBlock nBand bAllocOk nLine pImage ds
  = (scan ← pabyBuffer ds;
     img ← (let nPixelSize := if nBitDepth ds =? 16 then 2 else 1 in
            let nPixelOffset := nBands ds * nPixelSize in
            let off :=
              (nLine - nBufferStartLine ds) * nPixelOffset * nRasterXSize ds
              + nPixelSize * (nBand - 1) in
            if nPixelSize =? nPixelOffset
            then read_bulk scan off nPixelSize (nRasterXSize ds) pImage
            else read_strided scan off nPixelSize nPixelOffset
                   (nRasterXSize ds) pImage);
     Some (CE_None, img, ds)).
Proof.
  intros Hb. unfold IReadBlock. by rewrite LoadScanline_buffered.
Qed.

(** ** Writing the bands of a line and reading them back *)

Lemma IWriteBlock_buffered nBand bAllocOk nLine pImage ds :
  buffered nLine ds ->
  IWriteBlock nBand bAllocOk nLine pImage ds
  = (scan ← pabyBuffer ds;
     scan' ← (let nPixelSize := if nBitDepth ds =? 16 then 2 else 1 in
              let nPixelOffset := nBands ds * nPixelSize in
              let off :=
                (nLine - nBufferStartLine ds) * nPixelOffset * nRasterXSize ds
                + nPixelSize * (nBand - 1) in
              if nPixelSize =? nPixelOffset
              then write_bulk scan off nPixelSize (nRasterXSize ds) pImage
              else write_strided scan off nPixelSize nPixelOffset
                     (nRasterXSize ds) pImage);
     Some (CE_None, set_pabyBuffer (Some scan') ds)).
Proof.
  intros Hb. unfold IWriteBlock. by rewrite LoadScanline_buffered.
Qed.

Lemma set_pabyBuffer_same ds scan :
  pabyBuffer ds = Some scan -> set_pabyBuffer (Some scan) ds = ds.
Proof. destruct ds. simpl. by intros ->. Qed.

Lemma peek_None (m : block) i :
  ~ 0 <= i < Z.of_nat (length m) -> peek m i = None.
Proof.
  intros H. unfold peek. case_decide; [|done]. apply lookup_ge_None. lia.
Qed.

(** The bands written one after the other to a buffered line of one-byte
    samples: each lands at its own offsets of the row, and no write
    disturbs the samples of another band. *)
Lemma write_bands_one_byte nLine imgs :
  forall nBand ds (scan : block),
    nBitDepth ds <> 16 -> 0 <= nRasterXSize ds ->
    buffered nLine ds -> pabyBuffer ds = Some scan ->
    let base :=
      (nLine - nBufferStartLine ds) * nBands ds * nRasterXSize ds in
    0 <= base ->
    base + nBands ds * nRasterXSize ds <= Z.of_nat (length scan) ->
    1 <= nBand -> nBand - 1 + Z.of_nat (length imgs) <= nBands ds ->
    Forall (fun img : block => Z.of_nat (length img) = nRasterXSize ds) imgs ->
    exists scan',
      write_bands nBand imgs nLine ds = Some (set_pabyBuffer (Some scan') ds)
      /\ length scan' = length scan
      /\ (forall (j : nat) (img : block), imgs !! j = Some img ->
          forall i, 0 <= i < nRasterXSize ds ->
            peek scan' (base + (nBand - 1 + Z.of_nat j) + i * nBands ds)
            = peek img i)
      /\ (forall p,
            (forall (j : nat) i, (j < length imgs)%nat ->
               0 <= i < nRasterXSize ds ->
               p <> base + (nBand - 1 + Z.of_nat j) + i * nBands ds) ->
            peek scan' p = peek scan p).
Proof.
  induction imgs as [|img rest IH];
    intros nBand ds scan Hd HX Hb Hscan base Hbase Hfit Hband Hcount Himgs.
  - exists scan. simpl. rewrite set_pabyBuffer_same by done.
    repeat split; (done || lia).
  - simpl in Hcount. apply Forall_cons_1 in Himgs as [Himg Hrest].
    assert ((nBitDepth ds =? 16) = false) as Hd' by (by apply Z.eqb_neq).
    cbn [write_bands]. rewrite IWriteBlock_buffered by done.
    rewrite Hscan. cbn [mbind option_bind]. rewrite Hd'. cbv zeta.
    rewrite !Z.mul_1_r.
    destruct (write_one_byte_spec scan (base + 1 * (nBand - 1)) (nBands ds)
                (nRasterXSize ds) img) as (s1 & Hw & Hl1 & Hin1 & Hout1);
      try (done || nia).
    fold base. rewrite Hw. cbn [mbind option_bind].
    rewrite decide_True by done.
    destruct (IH (nBand + 1) (set_pabyBuffer (Some s1) ds) s1)
      as (s2 & Hrun & Hl2 & Hin2 & Hout2); simpl; try (done || lia).
    cbn [nBufferStartLine nBands nRasterXSize set_pabyBuffer] in Hin2, Hout2.
    fold base in Hin2, Hout2.
    exists s2. split; [done|]. split; [congruence|]. split.
    + intros [|j] im Him i Hi; simpl in Him.
      * injection Him as <-. rewrite Hout2.
        -- rewrite <- Hin1 by done. f_equal. lia.
        -- intros j' i' Hj' Hi' Heq.
           assert ((i - i') * nBands ds = 1 + Z.of_nat j') as Hmul by lia.
           destruct (decide (i <= i')); nia.
      * rewrite <- (Hin2 j im Him i Hi). f_equal. lia.
    + intros p Hp. rewrite Hout2.
      * apply Hout1. intros i Hi.
        specialize (Hp 0%nat i). simpl in Hp. lia.
      * intros j i Hj Hi. specialize (Hp (S j) i). simpl in Hp. lia.
Qed.

(** A successful request leaves the line buffered, in a buffer that is
    there. *)
Lemma LoadScanline_loads f ds nLine :
  wf_file f -> cache_inv f ds -> 0 <= nLine < png_height f ->
  (buffered nLine ds -> is_Some (pabyBuffer ds)) ->
  exists ds1 scan,
    LoadScanline true nLine ds = Some (CE_None, ds1)
    /\ cache_inv f ds1 /\ buffered nLine ds1 /\ pabyBuffer ds1 = Some scan.
Proof.
  intros Hwf Hc Hline Hthere.
  destruct (decide (buffered nLine ds)) as [Hb|Hb].
  { destruct (Hthere Hb) as [scan Hscan]. exists ds, scan.
    split; [by apply LoadScanline_buffered|done]. }
  destruct (png_interlaced f) eqn:Hi.
  - destruct (LoadScanline_interlaced f Hwf ds true nLine Hi Hc Hb)
      as (ds1 & Hrun & Hc1 & Hs & Hn & Hbuf & _).
    exists ds1, (concat (png_image f)). split; [done|]. split; [done|].
    split; [unfold buffered; lia|done].
  - destruct (LoadScanline_progressive f Hwf ds true nLine Hi Hc Hline Hb)
      as (ds1 & row & Hrun & Hc1 & _ & Hbuf & Hs & Hn & _).
    exists ds1, row. split; [done|]. split; [done|].
    split; [unfold buffered; lia|done].
Qed.

(** Where a buffered line lies in the buffer. *)
Lemma buffered_line_fits f ds nLine (scan : block) :
  wf_file f -> cache_inv f ds -> buffered nLine ds ->
  pabyBuffer ds = Some scan ->
  0 <= (nLine - nBufferStartLine ds) * row_bytes f
  /\ (nLine - nBufferStartLine ds) * row_bytes f + row_bytes f
     <= Z.of_nat (length scan).
Proof.
  intros Hwf (Hop & Hbuf & Hinv) Hb Hscan. unfold buffered in Hb.
  pose proof (row_bytes_nonneg f Hwf) as Hrb. specialize (Hbuf scan Hscan).
  destruct (png_interlaced f).
  - destruct Hinv as (Hs & Hn & _). rewrite Hs in *. nia.
  - destruct Hinv as (_ & _ & [Hn|(Hn & Hs & _)]); [lia|].
    assert (nLine - nBufferStartLine ds = 0) as -> by lia. lia.
Qed.

(** ** What a block read delivers *)

Lemma lookup_concat_row (rows : list block) (n j i : nat) (row : block) :
  Forall (fun r : block => length r = n) rows ->
  rows !! j = Some row -> (i < n)%nat ->
  concat rows !! (j * n + i)%nat = row !! i.
Proof.
  intros Hrows. revert j. induction Hrows as [|r rows Hr _ IH]; intros j Hj Hi;
    [done|].
  destruct j as [|j]; simpl in *.
  - injection Hj as ->. apply lookup_app_l. lia.
  - rewrite lookup_app_r by lia.
    replace (n + j * n + i - length r)%nat with (j * n + i)%nat by lia.
    by apply IH.
Qed.

(** Where the bytes of a buffered line are, in a buffer that holds the
    image. *)
Lemma peek_buffered_line f ds nLine (scan row : block) j :
  wf_file f -> cache_inv f ds -> buffer_holds_image f ds ->
  buffered nLine ds -> 0 <= nLine < png_height f ->
  pabyBuffer ds = Some scan ->
  png_image f !! Z.to_nat nLine = Some row ->
  0 <= j < row_bytes f ->
  peek scan ((nLine - nBufferStartLine ds) * row_bytes f + j) = peek row j.
Proof.
  intros Hwf (Hop & Hbuf & Hinv) Hclean Hb Hline Hscan Hrow Hj.
  destruct (Hclean nLine Hb) as (scan' & Hscan' & Hheld).
  rewrite Hscan in Hscan'. injection Hscan' as <-.
  pose proof Hwf as (_ & _ & _ & _ & _ & Hrows & _).
  unfold buffered in Hb. destruct (png_interlaced f).
  - destruct Hinv as (Hs & _). rewrite Hs, Z.sub_0_r. subst scan.
    unfold peek. rewrite !decide_True by nia.
    replace (Z.to_nat (nLine * row_bytes f + j))
      with (Z.to_nat nLine * Z.to_nat (row_bytes f) + Z.to_nat j)%nat by nia.
    apply (lookup_concat_row _ (Z.to_nat (row_bytes f))); [|done|lia].
    eapply List.Forall_impl; [|exact Hrows]. simpl. intros r Hr. lia.
  - destruct Hinv as (_ & _ & [Hn|(Hn & _)]); [lia|].
    assert (nLine - nBufferStartLine ds = 0) as -> by lia.
    rewrite Hheld in Hrow. injection Hrow as <-. f_equal; lia.
Qed.

(** A request that misses the buffer, its allocation succeeding, leaves
    the requested line buffered as the file has it. *)
Lemma LoadScanline_miss_holds_image f ds nLine :
  wf_file f -> cache_inv f ds -> 0 <= nLine < png_height f ->
  ~ buffered nLine ds ->
  exists ds',
    LoadScanline true nLine ds = Some (CE_None, ds')
    /\ cache_inv f ds' /\ buffered nLine ds' /\ buffer_holds_image f ds'.
Proof.
  intros Hwf Hc Hline Hmiss. destruct (png_interlaced f) eqn:Hi.
  - destruct (LoadScanline_interlaced f Hwf ds true nLine Hi Hc Hmiss)
      as (ds' & Hrun & Hc' & Hs & Hn & Hb & _).
    exists ds'. split; [done|]. split; [done|].
    split; [unfold buffered; lia|].
    intros n _. exists (concat (png_image f)). by rewrite Hi.
  - destruct (LoadScanline_progressive f Hwf ds true nLine Hi Hc Hline Hmiss)
      as (ds' & row & Hrun & Hc' & Hrow & Hb & Hs & Hn & _).
    exists ds'. split; [done|]. split; [done|].
    split; [unfold buffered; lia|].
    intros n Hbn. exists row. rewrite Hi. split; [done|].
    unfold buffered in Hbn. by replace n with nLine by lia.
Qed.

(** A block read from a buffered line that holds the image: where the
    two-byte per-pixel loops are not involved (one-byte samples, or a
    single band), the output holds the samples of the band. *)
Lemma IReadBlock_buffered_delivers f ds nBand nLine (pImage : block) :
  wf_file f -> cache_inv f ds -> buffer_holds_image f ds ->
  buffered nLine ds -> 0 <= nLine < png_height f ->
  1 <= nBand <= png_channels f ->
  png_bit_depth f <> 16 \/ png_channels f = 1 ->
  Z.of_nat (length pImage) = sample_size (png_bit_depth f) * png_width f ->
  exists img : block,
    (forall bAllocOk,
       IReadBlock nBand bAllocOk nLine pImage ds = Some (CE_None, img, ds))
    /\ length img = length pImage
    /\ forall x k,
         0 <= x < png_width f -> 0 <= k < sample_size (png_bit_depth f) ->
         peek img (x * sample_size (png_bit_depth f) + k)
         = image_sample_byte f nLine nBand x k.
Proof.
  intros Hwf Hc Hclean Hb Hline Hband Hshape Hlen.
  pose proof Hc as ((Hf & HX & HY & HB & HD & HI) & _).
  pose proof Hwf as (HW & _ & HCh & _).
  destruct (Hclean nLine Hb) as (scan & Hscan & _).
  destruct (wf_file_row f Hwf nLine Hline) as (row & Hrow & Hrowlen).
  destruct (buffered_line_fits f ds nLine scan Hwf Hc Hb Hscan)
    as [Hbase Hfit].
  pose proof (fun j => peek_buffered_line f ds nLine scan row j Hwf Hc Hclean
                         Hb Hline Hscan Hrow) as Hpeek.
  assert (forall x k,
            image_sample_byte f nLine nBand x k
            = peek row (x * (png_channels f * sample_size (png_bit_depth f))
                        + sample_size (png_bit_depth f) * (nBand - 1) + k))
    as Himg.
  { intros x k. unfold image_sample_byte. rewrite decide_True by lia.
    by rewrite Hrow. }
  assert (1 <= sample_size (png_bit_depth f) <= 2) as Hps.
  { unfold sample_size. destruct (_ =? _); lia. }
  unfold row_bytes in *.
  set (ps := sample_size (png_bit_depth f)) in *.
  destruct (decide (png_channels f = 1)) as [H1|Hn1].
  - (* a single band: the memcpy branch *)
    assert (nBand = 1) as -> by lia. rewrite H1 in *.
    set (off := (nLine - nBufferStartLine ds) * (1 * ps) * png_width f
                + ps * (1 - 1)).
    destruct (memcpy pImage 0 scan off (ps * png_width f)) as [img|] eqn:Hm.
    2:{ unfold memcpy in Hm. subst off.
        rewrite decide_True in Hm by nia. done. }
    exists img. split; [|split; [by eapply memcpy_length|]].
    + intros bAllocOk. rewrite IReadBlock_buffered by done.
      rewrite Hscan, HD, HB, HX. cbn [mbind option_bind].
      fold (sample_size (png_bit_depth f)). fold ps. cbv zeta.
      rewrite (proj2 (Z.eqb_eq ps (1 * ps))) by lia.
      unfold read_bulk. fold off. by rewrite Hm.
    + intros x k Hx Hk. rewrite Himg, (peek_memcpy _ _ _ _ _ _ _ Hm).
      rewrite decide_True by nia.
      replace (off + (x * ps + k - 0))
        with ((nLine - nBufferStartLine ds) * (1 * ps * png_width f)
              + (x * ps + k)) by (subst off; lia).
      rewrite Hpeek by nia. f_equal. lia.
  - (* one-byte samples *)
    assert (png_bit_depth f <> 16) as Hd by tauto.
    assert (ps = 1) as Hps1.
    { subst ps. unfold sample_size. by rewrite (proj2 (Z.eqb_neq _ _) Hd). }
    rewrite Hps1 in *.
    destruct (read_one_byte_spec scan
                ((nLine - nBufferStartLine ds) * png_channels f * png_width f
                 + 1 * (nBand - 1))
                (png_channels f) (png_width f) pImage)
      as (img & Hread & Hl & Hout); try (done || nia).
    exists img. split; [|split; [done|]].
    + intros bAllocOk. rewrite IReadBlock_buffered by done.
      rewrite Hscan, HD, HB, HX, (proj2 (Z.eqb_neq _ _) Hd).
      cbn [mbind option_bind]. cbv zeta. rewrite !Z.mul_1_r.
      by rewrite Hread.
    + intros x k Hx Hk. assert (k = 0) as -> by lia.
      rewrite Himg, Z.mul_1_r, Z.add_0_r, Hout by done.
      replace ((nLine - nBufferStartLine ds) * png_channels f * png_width f
               + 1 * (nBand - 1) + x * png_channels f)
        with ((nLine - nBufferStartLine ds)
              * (png_channels f * 1 * png_width f)
              + (x * png_channels f + (nBand - 1))) by lia.
      rewrite Hpeek by nia. f_equal. lia.
Qed.

(** A block read that loads its line goes on as a read of the loaded
    line. *)
Lemma IReadBlock_after_load f ds ds' nBand bAllocOk nLine pImage :
  cache_inv f ds -> cache_inv f ds' ->
  LoadScanline bAllocOk nLine ds = Some (CE_None, ds') ->
  buffered nLine ds' ->
  IReadBlock nBand bAllocOk nLine pImage ds
  = IReadBlock nBand bAllocOk nLine pImage ds'.
Proof.
  intros ((_ & HX & _ & HB & HD & _) & _) ((_ & HX' & _ & HB' & HD' & _) & _)
    Hload Hb.
  unfold IReadBlock.
  rewrite Hload, (LoadScanline_buffered bAllocOk nLine ds' Hb).
  by rewrite HX, HB, HD, HX', HB', HD'.
Qed.

Lemma reachable_reading_reachable f ds :
  reachable_reading f ds -> reachable f ds.
Proof.
  induction 1 as [|ds nLine eErr ds' _ IH Hline Hrun|ds _ IH
                  |ds nBand nLine pImage eErr img ds' _ IH Hline Hrun].
  - constructor.
  - apply (reachable_perform f ds (OpLoadScanline true nLine)); [done..|].
    simpl. by rewrite Hrun.
  - by apply (reachable_perform f ds OpFlushCache).
  - apply (reachable_perform f ds (OpReadBlock nBand true nLine pImage));
      [done..|].
    simpl. by rewrite Hrun.
Qed.

Lemma LoadScanline_holds_image f ds nLine eErr ds' :
  wf_file f -> cache_inv f ds -> buffer_holds_image f ds ->
  0 <= nLine < png_height f ->
  LoadScanline true nLine ds = Some (eErr, ds') ->
  buffer_holds_image f ds'.
Proof.
  intros Hwf Hc Hclean Hline Hrun.
  destruct (decide (buffered nLine ds)) as [Hb|Hb].
  - rewrite LoadScanline_buffered in Hrun by done. by injection Hrun as _ <-.
  - destruct (LoadScanline_miss_holds_image f ds nLine Hwf Hc Hline Hb)
      as (ds1 & Hrun1 & _ & _ & Hclean1).
    rewrite Hrun in Hrun1. by injection Hrun1 as _ <-.
Qed.

(** A dataset that is only read keeps the image in its buffer. *)
Lemma reachable_reading_holds_image f ds :
  wf_file f -> reachable_reading f ds -> buffer_holds_image f ds.
Proof.
  intros Hwf. induction 1 as [|ds nLine eErr ds' Hr IH Hline Hrun|ds Hr IH
                              |ds nBand nLine pImage eErr img ds' Hr IH Hline
                                 Hrun].
  - intros n Hb. unfold buffered in Hb. simpl in Hb. lia.
  - apply reachable_reading_reachable, (reachable_inv f ds Hwf) in Hr as [Hc _].
    by eapply LoadScanline_holds_image.
  - unfold FlushCache. destruct (pabyBuffer ds) eqn:Hb; [|done].
    intros n Hbn. unfold buffered in Hbn. simpl in Hbn. lia.
  - apply reachable_reading_reachable, (reachable_inv f ds Hwf) in Hr as [Hc _].
    apply IReadBlock_LoadScanline in Hrun.
    by eapply LoadScanline_holds_image.
Qed.

(** A block read of a line that is not buffered, its allocation
    succeeding: the line is decoded and the samples of the band are
    delivered as the file has them. *)
Lemma IReadBlock_miss_delivers f ds nBand nLine (pImage : block) :
  wf_file f -> cache_inv f ds ->
  0 <= nLine < png_height f -> 1 <= nBand <= png_channels f ->
  png_bit_depth f <> 16 \/ png_channels f = 1 ->
  Z.of_nat (length pImage) = sample_size (png_bit_depth f) * png_width f ->
  ~ buffered nLine ds ->
  exists (img : block) ds',
    IReadBlock nBand true nLine pImage ds = Some (CE_None, img, ds')
    /\ length img = length pImage
    /\ forall x k,
         0 <= x < png_width f -> 0 <= k < sample_size (png_bit_depth f) ->
         peek img (x * sample_size (png_bit_depth f) + k)
         = image_sample_byte f nLine nBand x k.
Proof.
  intros Hwf Hc Hline Hband Hshape Hlen Hmiss.
  destruct (LoadScanline_miss_holds_image f ds nLine Hwf Hc Hline Hmiss)
    as (ds' & Hload & Hc' & Hb' & Hclean').
  destruct (IReadBlock_buffered_delivers f ds' nBand nLine pImage Hwf Hc'
              Hclean' Hb' Hline Hband Hshape Hlen) as (img & Hread & Hl & Hs).
  exists img, ds'. split; [|done].
  rewrite (IReadBlock_after_load f ds ds') by done. apply Hread.
Qed.

(** ** Flushing the cache *)



(** ** Two-byte samples of several bands *)

(** The per-pixel gather of the two-byte branch.  Pixel [i] writes bytes
    [i] and [i + 1] of the output, so that pixel [i + 1] overwrites the
    second byte of pixel [i]: the first [k] bytes of the output are the
    first bytes of the [k] samples, byte [k] is the second byte of the
    last sample, and the output is untouched beyond. *)
Lemma read_strided2_spec (scan : block) off nPixelOffset (k : nat)
    (pImage : block) :
  (forall i, 0 <= i < Z.of_nat k ->
             0 <= off + i * nPixelOffset
             /\ off + i * nPixelOffset + 1 < Z.of_nat (length scan)) ->
  (k = 0%nat \/ Z.of_nat k + 1 <= Z.of_nat (length pImage)) ->
  exists img,
    read_strided2 scan off nPixelOffset (Z.of_nat k) pImage = Some img
    /\ length img = length pImage
    /\ (forall i, 0 <= i < Z.of_nat k ->
                  peek img i = peek scan (off + i * nPixelOffset))
    /\ (0 < Z.of_nat k ->
        peek img (Z.of_nat k)
        = peek scan (off + (Z.of_nat k - 1) * nPixelOffset + 1))
    /\ (forall p, ~ 0 <= p <= Z.of_nat k -> peek img p = peek pImage p).
Proof.
  unfold read_strided2. induction k as [|k IH]; intros Hscan Hlen.
  - exists pImage. repeat split; (done || lia).
  - destruct IH as (img & Hrun & Hl & Hin & _ & Hout);
      [intros; apply Hscan; lia|lia|].
    rewrite Nat2Z.inj_succ, <- Z.add_1_r, for_upto_succ, Hrun by lia. simpl.
    destruct (Hscan (Z.of_nat k)) as [Hlo Hhi]; [lia|].
    destruct (peek_lt_Some scan (off + Z.of_nat k * nPixelOffset)) as [v0 Hv0];
      [lia|].
    destruct (peek_lt_Some scan (off + Z.of_nat k * nPixelOffset + 1))
      as [v1 Hv1]; [lia|].
    rewrite Hv0. simpl.
    destruct (poke_is_Some img (Z.of_nat k) v0) as [img1 Hp1]; [lia|].
    rewrite Hp1. simpl. rewrite Hv1. simpl.
    pose proof (poke_length _ _ _ _ Hp1) as Hl1.
    destruct (poke_is_Some img1 (Z.of_nat k + 1) v1) as [img2 Hp2]; [lia|].
    exists img2. split; [done|]. split; [|split; [|split]].
    + rewrite (poke_length _ _ _ _ Hp2). lia.
    + intros i Hi. rewrite (peek_poke_ne _ _ _ _ _ Hp2) by lia.
      destruct (decide (i = Z.of_nat k)) as [->|Hne].
      * by rewrite (peek_poke_eq _ _ _ _ Hp1).
      * rewrite (peek_poke_ne _ _ _ _ _ Hp1) by done. apply Hin. lia.
    + intros _. rewrite (peek_poke_eq _ _ _ _ Hp2), <- Hv1. f_equal. lia.
    + intros p Hp'. rewrite (peek_poke_ne _ _ _ _ _ Hp2) by lia.
      rewrite (peek_poke_ne _ _ _ _ _ Hp1) by lia. apply Hout. lia.
Qed.

(** A block read of two-byte samples of one band among several, from a
    buffered line that holds the image. *)
Lemma IReadBlock_buffered_two_byte f ds nBand nLine (pImage : block) :
  wf_file f -> cache_inv f ds -> buffer_holds_image f ds ->
  buffered nLine ds -> 0 <= nLine < png_height f ->
  1 <= nBand <= png_channels f ->
  png_bit_depth f = 16 -> 2 <= png_channels f ->
  Z.of_nat (length pImage) = 2 * png_width f ->
  exists img : block,
    (forall bAllocOk,
       IReadBlock nBand bAllocOk nLine pImage ds = Some (CE_None, img, ds))
    /\ length img = length pImage
    /\ (forall x, 0 <= x < png_width f ->
                  peek img x = image_sample_byte f nLine nBand x 0)
    /\ peek img (png_width f)
       = image_sample_byte f nLine nBand (png_width f - 1) 1
    /\ (forall p, png_width f < p -> peek img p = peek pImage p).
Proof.
  intros Hwf Hc Hclean Hb Hline Hband Hd Hch Hlen.
  pose proof Hc as ((Hf & HX & HY & HB & HD & HI) & _).
  pose proof Hwf as (HW & _ & HCh & _).
  destruct (Hclean nLine Hb) as (scan & Hscan & _).
  destruct (wf_file_row f Hwf nLine Hline) as (row & Hrow & Hrowlen).
  destruct (buffered_line_fits f ds nLine scan Hwf Hc Hb Hscan)
    as [Hbase Hfit].
  pose proof (fun j => peek_buffered_line f ds nLine scan row j Hwf Hc Hclean
                         Hb Hline Hscan Hrow) as Hpeek.
  assert (forall x k,
            image_sample_byte f nLine nBand x k
            = peek row (x * (png_channels f * sample_size (png_bit_depth f))
                        + sample_size (png_bit_depth f) * (nBand - 1) + k))
    as Himg.
  { intros x k. unfold image_sample_byte. rewrite decide_True by lia.
    by rewrite Hrow. }
  assert (sample_size (png_bit_depth f) = 2) as Hps.
  { unfold sample_size. by rewrite Hd. }
  unfold row_bytes in *. rewrite Hps in *.
  set (off := (nLine - nBufferStartLine ds) * (png_channels f * 2)
              * png_width f + 2 * (nBand - 1)).
  destruct (read_strided2_spec scan off (png_channels f * 2)
              (Z.to_nat (png_width f)) pImage)
    as (img & Hread & Hl & Hin & Hlast & Hout).
  { intros i Hi. subst off. nia. }
  { right. lia. }
  rewrite Z2Nat.id in * by lia.
  exists img. split; [|split; [done|split; [|split]]].
  - intros bAllocOk. rewrite IReadBlock_buffered by done.
    rewrite Hscan, HD, HB, HX, Hd. cbn [mbind option_bind]. cbv zeta.
    change (16 =? 16) with true. cbv iota.
    rewrite (proj2 (Z.eqb_neq 2 (png_channels f * 2))) by lia.
    unfold read_strided. change (2 =? 1) with false. cbv iota.
    fold off. by rewrite Hread.
  - intros x Hx. rewrite Himg, Hin by done.
    replace (off + x * (png_channels f * 2))
      with ((nLine - nBufferStartLine ds)
            * (png_channels f * 2 * png_width f)
            + (x * (png_channels f * 2) + 2 * (nBand - 1) + 0))
      by (subst off; lia).
    rewrite Hpeek by nia. done.
  - rewrite Himg, Hlast by lia.
    replace (off + (png_width f - 1) * (png_channels f * 2) + 1)
      with ((nLine - nBufferStartLine ds)
            * (png_channels f * 2 * png_width f)
            + ((png_width f - 1) * (png_channels f * 2)
               + 2 * (nBand - 1) + 1))
      by (subst off; lia).
    rewrite Hpeek by nia. done.
  - intros p Hp. apply Hout. lia.
Qed.

(** The per-pixel scatter of the two-byte branch: the sample of pixel
    [i] receives bytes [i] and [i + 1] of the input, and the row is
    untouched elsewhere. *)
Lemma write_strided2_spec (scan : block) off nPixelOffset (k : nat)
    (pImage : block) :
  2 <= nPixelOffset ->
  (forall i, 0 <= i < Z.of_nat k ->
             0 <= off + i * nPixelOffset
             /\ off + i * nPixelOffset + 1 < Z.of_nat (length scan)) ->
  (k = 0%nat \/ Z.of_nat k + 1 <= Z.of_nat (length pImage)) ->
  exists scan',
    write_strided2 scan off nPixelOffset (Z.of_nat k) pImage = Some scan'
    /\ length scan' = length scan
    /\ (forall i, 0 <= i < Z.of_nat k ->
                  peek scan' (off + i * nPixelOffset) = peek pImage i
                  /\ peek scan' (off + i * nPixelOffset + 1)
                     = peek pImage (i + 1))
    /\ (forall p, (forall i, 0 <= i < Z.of_nat k ->
                             p <> off + i * nPixelOffset
                             /\ p <> off + i * nPixelOffset + 1) ->
                  peek scan' p = peek scan p).
Proof.
  intros Hs. unfold write_strided2. induction k as [|k IH]; intros Hscan Hlen.
  - exists scan. repeat split; (done || lia).
  - destruct IH as (sc & Hrun & Hl & Hin & Hout);
      [intros; apply Hscan; lia|lia|].
    rewrite Nat2Z.inj_succ, <- Z.add_1_r, for_upto_succ, Hrun by lia. simpl.
    destruct (Hscan (Z.of_nat k)) as [Hlo Hhi]; [lia|].
    destruct (peek_lt_Some pImage (Z.of_nat k)) as [v0 Hv0]; [lia|].
    destruct (peek_lt_Some pImage (Z.of_nat k + 1)) as [v1 Hv1]; [lia|].
    rewrite Hv0. simpl.
    destruct (poke_is_Some sc (off + Z.of_nat k * nPixelOffset) v0)
      as [sc1 Hp1]; [lia|].
    rewrite Hp1. simpl. rewrite Hv1. simpl.
    pose proof (poke_length _ _ _ _ Hp1) as Hl1.
    destruct (poke_is_Some sc1 (off + Z.of_nat k * nPixelOffset + 1) v1)
      as [sc2 Hp2]; [lia|].
    exists sc2. split; [done|]. split; [|split].
    + rewrite (poke_length _ _ _ _ Hp2). lia.
    + intros i Hi. destruct (decide (i = Z.of_nat k)) as [->|Hne].
      * split.
        -- rewrite (peek_poke_ne _ _ _ _ _ Hp2) by lia.
           by rewrite (peek_poke_eq _ _ _ _ Hp1).
        -- by rewrite (peek_poke_eq _ _ _ _ Hp2).
      * destruct (Hin i) as [H0 H1]; [lia|].
        rewrite !(peek_poke_ne _ _ _ _ _ Hp2) by nia.
        rewrite !(peek_poke_ne _ _ _ _ _ Hp1) by nia. done.
    + intros p Hp'. destruct (Hp' (Z.of_nat k)) as [? ?]; [lia|].
      rewrite (peek_poke_ne _ _ _ _ _ Hp2) by done.
      rewrite (peek_poke_ne _ _ _ _ _ Hp1) by done.
      apply Hout. intros i Hi. apply Hp'. lia.
Qed.
(** ** Copies *)

(** The bands of one line gathered in the scanline buffer: pixel [i] of
    band [b + 1] is at [i * nBands + b], and the buffer is untouched
    beyond the [nBands * nXSize] bytes of the line. *)
Lemma copy_bands_spec (src : SrcDataset) nBands nXSize iLine (k : nat)
    (buf : block) :
  Z.of_nat k <= nBands -> 0 <= nXSize ->
  nBands * nXSize <= Z.of_nat (length buf) ->
  (forall b, 1 <= b <= nBands ->
             Z.of_nat (length (src_bytes src b iLine)) = nXSize) ->
  exists buf',
    for_upto (Z.of_nat k)
      (fun iBand b =>
         RasterIO_Read_Byte (src_bytes src (iBand + 1) iLine) b iBand
           nXSize nBands) buf = Some buf'
    /\ length buf' = length buf
    /\ (forall b i, 0 <= b < Z.of_nat k -> 0 <= i < nXSize ->
                    peek buf' (i * nBands + b)
                    = peek (src_bytes src (b + 1) iLine) i)
    /\ (forall p, (forall b i, 0 <= b < Z.of_nat k -> 0 <= i < nXSize ->
                               p <> i * nBands + b) ->
                  peek buf' p = peek buf p).
Proof.
  intros Hk HX Hfit Hlines. induction k as [|k IH].
  - exists buf. repeat split; (done || lia).
  - destruct IH as (b1 & Hrun & Hl & Hin & Hout); [lia|].
    rewrite Nat2Z.inj_succ, <- Z.add_1_r, for_upto_succ, Hrun by lia. simpl.
    destruct (write_strided1_spec b1 (Z.of_nat k) nBands (Z.to_nat nXSize)
                (src_bytes src (Z.of_nat k + 1) iLine))
      as (b2 & Hw & Hl2 & Hin2 & Hout2).
    { lia. }
    { intros i Hi. nia. }
    { rewrite Hlines by lia. lia. }
    rewrite Z2Nat.id in Hw, Hin2, Hout2 by lia.
    exists b2. split; [exact Hw|]. split; [lia|]. split.
    + intros b i Hb Hi. destruct (decide (b = Z.of_nat k)) as [->|Hne].
      * rewrite <- Hin2 by done. f_equal. lia.
      * rewrite Hout2; [apply Hin; lia|].
        intros j Hj Heq.
        assert (i - j = 0 \/ 1 <= i - j \/ i - j <= -1) as [?|[?|?]] by lia;
          nia.
    + intros p Hp. rewrite Hout2.
      * apply Hout. intros b i Hb Hi. apply Hp; lia.
      * intros i Hi. specialize (Hp (Z.of_nat k) i). lia.
Qed.

(** The rows given to libpng, with what the scanline buffer held before
    the first line beyond the bytes of a line. *)
Lemma PNGCreateCopy_lines_spec (src : SrcDataset) nBands nXSize nRowBytes
    (lines : list Z) (buf : block) :
  1 <= nBands -> 0 <= nXSize ->
  nBands * nXSize <= nRowBytes <= Z.of_nat (length buf) ->
  (forall b iLine, 1 <= b <= nBands -> iLine ∈ lines ->
                   Z.of_nat (length (src_bytes src b iLine)) = nXSize) ->
  exists rows,
    PNGCreateCopy_lines src nBands nXSize nRowBytes lines buf = Some rows
    /\ length rows = length lines
    /\ forall (j : nat) iLine (row : block),
         lines !! j = Some iLine -> rows !! j = Some row ->
         Z.of_nat (length row) = nRowBytes
         /\ (forall b i, 0 <= b < nBands -> 0 <= i < nXSize ->
                         peek row (i * nBands + b)
                         = peek (src_bytes src (b + 1) iLine) i)
         /\ (forall p, nBands * nXSize <= p < nRowBytes ->
                       peek row p = peek buf p).
Proof.
  intros HB HX Hfit. revert buf Hfit.
  induction lines as [|iLine rest IH]; intros buf Hfit Hlines.
  { exists []. repeat split; try done. }
  destruct (copy_bands_spec src nBands nXSize iLine (Z.to_nat nBands) buf)
    as (b1 & Hrun & Hl & Hin & Hout); try lia.
  { intros b Hb. apply Hlines; [done|]. apply list_elem_of_here. }
  rewrite Z2Nat.id in Hrun, Hin, Hout by lia.
  destruct (IH b1) as (rows & Hrows & Hlen & Hspec); [lia| |].
  { intros b l Hb Hl'. apply Hlines; [done|]. by apply list_elem_of_further. }
  exists (take (Z.to_nat nRowBytes) b1 :: rows).
  split; [|split; [simpl; lia|]].
  - cbn [PNGCreateCopy_lines]. unfold PNGCreateCopy_line.
    rewrite Hrun. cbn [mbind option_bind]. unfold png_write_rows.
    rewrite decide_True by lia. cbn [mbind option_bind].
    by rewrite Hrows.
  - assert (forall p, 0 <= p < nRowBytes ->
              peek (take (Z.to_nat nRowBytes) b1) p = peek b1 p) as Htake.
    { intros p Hp. unfold peek. rewrite !decide_True by lia.
      apply lookup_take_lt. lia. }
    assert (forall p, nBands * nXSize <= p -> peek b1 p = peek buf p)
      as Hkeep.
    { intros p Hp. apply Hout. intros b i Hb Hi. nia. }
    intros [|j] l row Hj Hrow; simpl in Hj, Hrow.
    + injection Hj as <-. injection Hrow as <-. split; [|split].
      * rewrite length_take. lia.
      * intros b i Hb Hi. rewrite Htake by nia. by apply Hin.
      * intros p Hp. rewrite Htake by lia. apply Hkeep. lia.
    + destruct (Hspec j l row Hj Hrow) as (H1 & H2 & H3).
      split; [done|]. split; [done|].
      intros p Hp. rewrite H3 by done. apply Hkeep. lia.
Qed.

(** A copy that is accepted goes on to the loop over the lines. *)
Lemma PNGCreateCopy_accepted (k : png_color_types) (src : SrcDataset)
    (bStrict : bool) :
  1 <= src_nBands src <= 4 ->
  src_eType src = GDT_Byte \/ src_eType src = GDT_UInt16 \/ bStrict = false ->
  PNGCreateCopy k src bStrict true
  = (let nBitDepth :=
       if decide (src_eType src <> GDT_UInt16) then 8 else 16 in
     rows ← PNGCreateCopy_lines src (src_nBands src) (src_nXSize src)
               (src_nXSize src * src_nBands src * (nBitDepth / 8))
               (seqZ 0 (src_nYSize src))
               (CPLMalloc (src_nBands src * src_nXSize src * 2));
     Some (Some {| ihdr_width := src_nXSize src;
                   ihdr_height := src_nYSize src;
                   ihdr_bit_depth := nBitDepth;
                   ihdr_color_type :=
                     if src_nBands src =? 1 then PNG_COLOR_TYPE_GRAY k
                     else if src_nBands src =? 2
                     then PNG_COLOR_TYPE_GRAY_ALPHA k
                     else if src_nBands src =? 3 then PNG_COLOR_TYPE_RGB k
                     else PNG_COLOR_TYPE_RGB_ALPHA k;
                   written_rows := rows |})).
Proof.
  intros HB Htype. unfold PNGCreateCopy.
  rewrite decide_False by lia.
  rewrite decide_False
    by (intros (? & ? & ?); by destruct Htype as [?|[?|?]]; congruence).
  reflexivity.
Qed.

(** The channels libpng counts for the colour type chosen for a number
    of bands are as many as the bands. *)
Lemma color_type_channels_bands (k : png_color_types) nBands :
  color_types_distinct k -> 1 <= nBands <= 4 ->
  color_type_channels k
    (if nBands =? 1 then PNG_COLOR_TYPE_GRAY k
     else if nBands =? 2 then PNG_COLOR_TYPE_GRAY_ALPHA k
     else if nBands =? 3 then PNG_COLOR_TYPE_RGB k
     else PNG_COLOR_TYPE_RGB_ALPHA k) = nBands.
Proof.
  unfold color_types_distinct, color_type_channels.
  rewrite !NoDup_cons, !elem_of_cons, NoDup_nil, elem_of_nil.
  intros Hk HB.
  assert (nBands = 1 \/ nBands = 2 \/ nBands = 3 \/ nBands = 4)
    as [-> | [-> | [-> | ->]]] by lia; simpl;
    repeat match goal with
           | |- context [?a =? ?b] => destruct (Z.eqb_spec a b)
           end; lia.
Qed.

(** ** Text chunks *)

(** The characters [CollectMetadata] does not tell apart. *)
Lemma metadata_tag_char_eq (a b : ascii) :
  (if bool_decide (replaced_in_tag a) then "_"%char else a)
  = (if bool_decide (replaced_in_tag b) then "_"%char else b)
  <-> a = b \/ ((replaced_in_tag a \/ a = "_"%char)
                /\ (replaced_in_tag b \/ b = "_"%char)).
Proof.
  assert (~ replaced_in_tag "_"%char) as Hu
    by (unfold replaced_in_tag; intros [?|[?|?]]; done).
  repeat case_bool_decide; split; intros Heq; try tauto;
    try (subst; tauto);
    destruct Heq as [->|[[?|?] [?|?]]]; (tauto || congruence).
Qed.

(* ------------------------------------------------------------------ *)
(** ** The properties of the specification *)

(** C1, as amended.  A request for a buffered line returns success at
    once and leaves the dataset, its call log included, as it was: no
    decoding, no allocation.  A request for a line that is not buffered
    returns, and either it succeeds after at least one decoding call, or
    the file is interlaced, the allocation of the whole-image buffer
    failed, and the request fails without any decoding call. *)
Theorem LoadScanline_served_from_buffer_iff f ds bAllocOk nLine :
  wf_file f -> reachable f ds ->
  (buffered nLine ds ->
     LoadScanline bAllocOk nLine ds = Some (CE_None, ds))
  /\ (0 <= nLine < png_height f -> ~ buffered nLine ds ->
      exists eErr ds',
        LoadScanline bAllocOk nLine ds = Some (eErr, ds')
        /\ ((eErr = CE_None
             /\ (1 <= count is_decode (calls_since ds ds'))%nat)
            \/ (png_interlaced f = true /\ bAllocOk = false
                /\ eErr = CE_Failure
                /\ count is_decode (calls_since ds ds') = 0%nat))).
Proof.
  intros Hwf Hreach. split; [apply LoadScanline_buffered|].
  intros Hline Hmiss.
  destruct (reachable_inv f ds Hwf Hreach) as [Hc _].
  destruct (png_interlaced f) eqn:Hi.
  - destruct (LoadScanline_interlaced f Hwf ds bAllocOk nLine Hi Hc Hmiss)
      as (ds' & Hrun & _ & _ & _ & _ & _ & Hcalls).
    eexists _, ds'. split; [exact Hrun|].
    rewrite (calls_since_app _ _ _ Hcalls). unfold interlaced_calls.
    rewrite count_app. destruct bAllocOk; [left|right].
    + split; [done|]. unfold count at 2. simpl. lia.
    + repeat split. case_decide; reflexivity.
  - destruct (LoadScanline_progressive f Hwf ds bAllocOk nLine Hi Hc Hline
                Hmiss) as (ds' & row & Hrun & _ & _ & _ & _ & _ & _ & Hcalls).
    eexists _, ds'. split; [exact Hrun|]. left. split; [done|].
    rewrite (calls_since_app _ _ _ Hcalls). unfold progressive_calls.
    pose proof Hc as (_ & _ & Hinv). rewrite Hi in Hinv.
    destruct Hinv as (_ & Hlast & _).
    rewrite count_app. case_decide.
    + change (CallRestart :: ?l) with ([CallRestart] ++ l).
      rewrite count_app.
      destruct (count_read_rows_map (seqZ 0 (nLine + 1))) as (_ & -> & _).
      rewrite length_seqZ. lia.
    + destruct (count_read_rows_map
                  (seqZ (nLastLineRead ds + 1) (nLine - nLastLineRead ds)))
        as (_ & -> & _).
      rewrite length_seqZ. lia.
Qed.

Lemma LoadScanline_served_from_buffer_iff_witness :
  let ds := Open scenario_progressive in
  (buffered 2 ds -> LoadScanline true 2 ds = Some (CE_None, ds))
  /\ (0 <= 2 < 4 -> ~ buffered 2 ds ->
      exists eErr ds',
        LoadScanline true 2 ds = Some (eErr, ds')
        /\ ((eErr = CE_None
             /\ (1 <= count is_decode (calls_since ds ds'))%nat)
            \/ (false = true /\ true = false
                /\ eErr = CE_Failure
                /\ count is_decode (calls_since ds ds') = 0%nat))).
Proof.
  apply (LoadScanline_served_from_buffer_iff scenario_progressive).
  - apply (bool_decide_unpack _). by vm_compute.
  - apply reachable_Open.
Defined.

(** C1 as stated fails when the allocation of the whole-image buffer
    fails: line 2 of the freshly opened three-row interlaced file is not
    buffered, and the request for it returns without a decoding call. *)
Lemma LoadScanline_miss_without_decode :
  ~ (~ buffered 2 (Open small_interlaced) ->
     exists eErr ds',
       LoadScanline false 2 (Open small_interlaced) = Some (eErr, ds')
       /\ (1 <= count is_decode (calls_since (Open small_interlaced) ds'))%nat).
Proof.
  intros H. destruct H as (eErr & ds' & Hrun & Hcount).
  - unfold buffered. simpl. lia.
  - vm_compute in Hrun. injection Hrun as _ <-. vm_compute in Hcount. lia.
Qed.

(** C2.  The code at the failing input: on the file with two bands of
    two-byte samples and two pixels a row, the four bytes of band 1 and
    of band 2 are written to line 0, both writes succeed and the line
    stays buffered; yet the scatter puts the second and third byte of
    each band, not the third and fourth, at the second pixel, and reading
    band 1 back into a zeroed buffer returns the first three bytes
    written and leaves the fourth as it was.  (With one-byte samples, and
    with a single band, the bytes written do come back:
    [one_byte_round_trip], [single_band_round_trip].) *)
Theorem two_byte_round_trip_loses_bytes :
  let band1 := [Byte.xa1; Byte.xa2; Byte.xa3; Byte.xa4] in
  let band2 := [Byte.xb1; Byte.xb2; Byte.xb3; Byte.xb4] in
  let zeros := [Byte.x00; Byte.x00; Byte.x00; Byte.x00] in
  exists ds1 ds2 out1 out2,
    IWriteBlock 1 true 0 band1 (Open two_band_16bit) = Some (CE_None, ds1)
    /\ IWriteBlock 2 true 0 band2 ds1 = Some (CE_None, ds2)
    /\ buffered 0 ds2
    /\ pabyBuffer ds2
       = Some [Byte.xa1; Byte.xa2; Byte.xb1; Byte.xb2;
               Byte.xa2; Byte.xa3; Byte.xb2; Byte.xb3]
    /\ IReadBlock 1 true 0 zeros ds2 = Some (CE_None, out1, ds2)
    /\ IReadBlock 2 true 0 zeros ds2 = Some (CE_None, out2, ds2)
    /\ out1 = [Byte.xa1; Byte.xa2; Byte.xa3; Byte.x00]
    /\ out2 = [Byte.xb1; Byte.xb2; Byte.xb3; Byte.x00]
    /\ out1 <> band1 /\ out2 <> band2.
Proof.
  do 4 eexists.
  split; [vm_compute; reflexivity|].
  split; [vm_compute; reflexivity|].
  split; [unfold buffered; simpl; lia|].
  split; [reflexivity|].
  split; [vm_compute; reflexivity|].
  split; [vm_compute; reflexivity|].
  by repeat split.
Qed.

(** C3.  On a file that is not interlaced: the log of every reachable
    state, cut at the restarts, decodes in each pass the rows from row
    zero on, once each and in order, so that no row is decoded twice
    without a restart in between; a request for a line decodes, one call
    each, exactly the lines after the highest line decoded since the last
    restart, up to the requested one, restarting first if and only if the
    line is not buffered and the cursor is at or past it; and on a
    four-row file the requests for lines 0, 1, 2, 3 make four decoding
    calls and no restart, and a further request for line 1 makes one
    restart and two decoding calls, for rows 0 and 1. *)
Theorem progressive_decode_is_monotonic f :
  wf_file f -> png_interlaced f = false ->
  (forall ds, reachable f ds -> Forall in_order (passes (calls ds)))
  /\ (forall ds bAllocOk nLine,
        reachable f ds -> 0 <= nLine < png_height f ->
        exists ds',
          LoadScanline bAllocOk nLine ds = Some (CE_None, ds')
          /\ count is_restart (calls_since ds ds')
             = (if restarts_for nLine ds then 1 else 0)%nat
          /\ decoded_rows (calls_since ds ds')
             = seqZ (previous_line nLine ds + 1)
                 (nLine - previous_line nLine ds)
          /\ count is_read_rows (calls_since ds ds')
             = Z.to_nat (nLine - previous_line nLine ds)
          /\ count is_read_image (calls_since ds ds') = 0%nat)
  /\ (png_height f = 4 ->
      forall a0 a1 a2 a3 a4,
      exists ds4 ds5,
        requests [(a0, 0); (a1, 1); (a2, 2); (a3, 3)] (Open f) = Some ds4
        /\ calls ds4 = [CallCPLMalloc (row_bytes f); CallReadRows 0;
                        CallReadRows 1; CallReadRows 2; CallReadRows 3]
        /\ LoadScanline a4 1 ds4 = Some (CE_None, ds5)
        /\ calls_since ds4 ds5
           = [CallRestart; CallReadRows 0; CallReadRows 1]).
Proof.
  intros Hwf Hi. split; [|split].
  - intros ds Hreach.
    destruct (reachable_inv f ds Hwf Hreach) as [Hc Hl].
    destruct (Hl Hi) as [Hclosed Hcur]. unfold passes.
    apply Forall_app. split; [done|]. constructor; [|done].
    eapply in_order_seqZ; [|done].
    destruct Hc as (_ & _ & Hc). rewrite Hi in Hc. lia.
  - intros ds bAllocOk nLine Hreach Hline.
    destruct (reachable_inv f ds Hwf Hreach) as [Hc _].
    pose proof Hc as (_ & _ & Hinv). rewrite Hi in Hinv.
    destruct Hinv as (_ & Hlast & Hrange).
    destruct (decide (buffered nLine ds)) as [Hb|Hb].
    + exists ds. split; [by apply LoadScanline_buffered|].
      rewrite calls_since_same. unfold previous_line, restarts_for.
      rewrite bool_decide_eq_false_2 by tauto.
      assert (nLine = nLastLineRead ds) as ->.
      { unfold buffered in Hb. destruct Hrange as [?|(? & ? & _)]; lia. }
      rewrite Z.sub_diag. by repeat split.
    + destruct (LoadScanline_progressive f Hwf ds bAllocOk nLine Hi Hc Hline
                  Hb) as (ds' & row & Hrun & _ & _ & _ & _ & _ & _ & Hcalls).
      exists ds'. split; [done|].
      rewrite (calls_since_app _ _ _ Hcalls).
      destruct (progressive_calls_summary f nLine ds) as (? & ? & ? & ?);
        try (done || lia).
  - intros H4 a0 a1 a2 a3 a4.
    pose proof (Open_inv f Hwf) as Hc0.
    destruct (LoadScanline_progressive f Hwf (Open f) a0 0 Hi Hc0)
      as (ds1 & r1 & Hrun1 & Hc1 & _ & Hb1 & Hs1 & Hn1 & Hl1 & Hcalls1);
      [lia|unfold buffered; simpl; lia|].
    destruct (LoadScanline_progressive f Hwf ds1 a1 1 Hi Hc1)
      as (ds2 & r2 & Hrun2 & Hc2 & _ & Hb2 & Hs2 & Hn2 & Hl2 & Hcalls2);
      [lia|unfold buffered; lia|].
    destruct (LoadScanline_progressive f Hwf ds2 a2 2 Hi Hc2)
      as (ds3 & r3 & Hrun3 & Hc3 & _ & Hb3 & Hs3 & Hn3 & Hl3 & Hcalls3);
      [lia|unfold buffered; lia|].
    destruct (LoadScanline_progressive f Hwf ds3 a3 3 Hi Hc3)
      as (ds4 & r4 & Hrun4 & Hc4 & _ & Hb4 & Hs4 & Hn4 & Hl4 & Hcalls4);
      [lia|unfold buffered; lia|].
    destruct (LoadScanline_progressive f Hwf ds4 a4 1 Hi Hc4)
      as (ds5 & r5 & Hrun5 & Hc5 & _ & Hb5 & Hs5 & Hn5 & Hl5 & Hcalls5);
      [lia|unfold buffered; lia|].
    exists ds4, ds5. simpl. rewrite Hrun1. simpl. rewrite Hrun2. simpl.
    rewrite Hrun3. simpl. rewrite Hrun4. simpl.
    split; [done|]. split; [|split; [done|]].
    + rewrite Hcalls4, Hcalls3, Hcalls2, Hcalls1. unfold progressive_calls.
      rewrite Hb1, Hb2, Hb3, Hl1, Hl2, Hl3. simpl. reflexivity.
    + rewrite (calls_since_app _ _ _ Hcalls5). unfold progressive_calls.
      rewrite Hb4, Hl4. reflexivity.
Qed.

Lemma progressive_decode_is_monotonic_witness :
  let f := scenario_progressive in
  (forall ds, reachable f ds -> Forall in_order (passes (calls ds)))
  /\ (forall ds bAllocOk nLine,
        reachable f ds -> 0 <= nLine < png_height f ->
        exists ds',
          LoadScanline bAllocOk nLine ds = Some (CE_None, ds')
          /\ count is_restart (calls_since ds ds')
             = (if restarts_for nLine ds then 1 else 0)%nat
          /\ decoded_rows (calls_since ds ds')
             = seqZ (previous_line nLine ds + 1)
                 (nLine - previous_line nLine ds)
          /\ count is_read_rows (calls_since ds ds')
             = Z.to_nat (nLine - previous_line nLine ds)
          /\ count is_read_image (calls_since ds ds') = 0%nat)
  /\ (png_height f = 4 ->
      forall a0 a1 a2 a3 a4,
      exists ds4 ds5,
        requests [(a0, 0); (a1, 1); (a2, 2); (a3, 3)] (Open f) = Some ds4
        /\ calls ds4 = [CallCPLMalloc (row_bytes f); CallReadRows 0;
                        CallReadRows 1; CallReadRows 2; CallReadRows 3]
        /\ LoadScanline a4 1 ds4 = Some (CE_None, ds5)
        /\ calls_since ds4 ds5
           = [CallRestart; CallReadRows 0; CallReadRows 1]).
Proof.
  apply (progressive_decode_is_monotonic scenario_progressive).
  - apply (bool_decide_unpack _). by vm_compute.
  - reflexivity.
Defined.

(** C4.  On a file that is not interlaced, from any reachable state, a
    request for line [k] followed by a request for a line [j] below it:
    both succeed, the second makes exactly one restart (and the first
    makes none when the cursor was below [k], as on a freshly opened
    dataset), and the buffer then holds row [j] of the image, exactly as
    after a request for [j] made first on the freshly opened dataset, so
    that every band reads the same bytes from either. *)
Theorem restart_delivers_the_same_row f ds0 j k a1 a2 a3 :
  wf_file f -> png_interlaced f = false -> reachable f ds0 ->
  0 <= j -> j < k -> k < png_height f ->
  exists ds1 ds2 dsj row,
    LoadScanline a1 k ds0 = Some (CE_None, ds1)
    /\ LoadScanline a2 j ds1 = Some (CE_None, ds2)
    /\ count is_restart (calls_since ds1 ds2) = 1%nat
    /\ (nLastLineRead ds0 < k ->
        count is_restart (calls_since ds0 ds1) = 0%nat)
    /\ LoadScanline a3 j (Open f) = Some (CE_None, dsj)
    /\ count is_restart (calls dsj) = 0%nat
    /\ png_image f !! Z.to_nat j = Some row
    /\ pabyBuffer ds2 = Some row /\ pabyBuffer dsj = Some row
    /\ nBufferStartLine ds2 = j /\ nBufferStartLine dsj = j
    /\ nBufferLines ds2 = 1 /\ nBufferLines dsj = 1
    /\ forall nBand a pImage,
         fst <$> IReadBlock nBand a j pImage ds2
         = fst <$> IReadBlock nBand a j pImage dsj.
Proof.
  intros Hwf Hi Hreach Hj Hjk Hk.
  destruct (reachable_inv f ds0 Hwf Hreach) as [Hc0 _].
  pose proof Hc0 as (_ & _ & Hinv0). rewrite Hi in Hinv0.
  destruct Hinv0 as (_ & Hlast0 & Hrange0).
  (* the request for k *)
  assert (exists ds1,
            LoadScanline a1 k ds0 = Some (CE_None, ds1) /\ cache_inv f ds1
            /\ nBufferStartLine ds1 = k /\ nBufferLines ds1 = 1
            /\ nLastLineRead ds1 = k /\ is_Some (pabyBuffer ds1)
            /\ (nLastLineRead ds0 < k ->
                count is_restart (calls_since ds0 ds1) = 0%nat))
    as (ds1 & Hrun1 & Hc1 & Hs1 & Hn1 & Hl1 & Hb1 & Hr1).
  { destruct (decide (buffered k ds0)) as [Hb|Hb].
    - exists ds0. split; [by apply LoadScanline_buffered|].
      unfold buffered in Hb.
      destruct Hrange0 as [?|(? & ? & ? & ?)]; [lia|].
      rewrite calls_since_same.
      split; [done|]. repeat split; (done || lia).
    - destruct (LoadScanline_progressive f Hwf ds0 a1 k Hi Hc0) as
        (ds1 & r & Hrun & Hc & _ & Hb1 & ? & ? & ? & Hcalls);
        [lia|done|].
      exists ds1. rewrite (calls_since_app _ _ _ Hcalls).
      split; [done|]. split; [done|].
      repeat split; try (done || by eexists).
      intros Hlt.
      destruct (progressive_calls_summary f k ds0) as (_ & -> & _);
        try (done || lia).
      unfold restarts_for. by rewrite bool_decide_eq_false_2 by lia. }
  (* the request for j *)
  destruct (LoadScanline_progressive f Hwf ds1 a2 j Hi Hc1)
    as (ds2 & row & Hrun2 & Hc2 & Hrow & Hb2 & Hs2 & Hn2 & Hl2 & Hcalls2);
    [lia|unfold buffered; lia|].
  (* the request for j on the freshly opened dataset *)
  destruct (LoadScanline_progressive f Hwf (Open f) a3 j Hi (Open_inv f Hwf))
    as (dsj & row' & Hrunj & Hcj & Hrow' & Hbj & Hsj & Hnj & Hlj & Hcallsj);
    [lia|unfold buffered; simpl; lia|].
  rewrite Hrow in Hrow'. injection Hrow' as <-.
  exists ds1, ds2, dsj, row. repeat split; try done.
  - rewrite (calls_since_app _ _ _ Hcalls2).
    destruct (progressive_calls_summary f j ds1) as (_ & -> & _);
      try (lia || (unfold buffered; lia)).
    unfold restarts_for. rewrite bool_decide_eq_true_2; [done|].
    unfold buffered. lia.
  - rewrite Hcallsj. simpl.
    destruct (progressive_calls_summary f j (Open f)) as (_ & -> & _);
      try (simpl; lia || (unfold buffered; simpl; lia)).
    unfold restarts_for. rewrite bool_decide_eq_false_2; [done|].
    simpl. lia.
  - intros nBand a pImage.
    rewrite !IReadBlock_buffered by (unfold buffered; lia).
    destruct Hc2 as ((_ & -> & _ & -> & -> & _) & _).
    destruct Hcj as ((_ & -> & _ & -> & -> & _) & _).
    rewrite Hb2, Hbj, Hs2, Hsj. simpl.
    by destruct (if _ =? _ then _ else _).
Qed.

Lemma restart_delivers_the_same_row_witness :
  let f := scenario_progressive in
  exists ds1 ds2 dsj row,
    LoadScanline true 3 (Open f) = Some (CE_None, ds1)
    /\ LoadScanline true 1 ds1 = Some (CE_None, ds2)
    /\ count is_restart (calls_since ds1 ds2) = 1%nat
    /\ (nLastLineRead (Open f) < 3 ->
        count is_restart (calls_since (Open f) ds1) = 0%nat)
    /\ LoadScanline true 1 (Open f) = Some (CE_None, dsj)
    /\ count is_restart (calls dsj) = 0%nat
    /\ png_image f !! Z.to_nat 1 = Some row
    /\ pabyBuffer ds2 = Some row /\ pabyBuffer dsj = Some row
    /\ nBufferStartLine ds2 = 1 /\ nBufferStartLine dsj = 1
    /\ nBufferLines ds2 = 1 /\ nBufferLines dsj = 1
    /\ forall nBand a pImage,
         fst <$> IReadBlock nBand a 1 pImage ds2
         = fst <$> IReadBlock nBand a 1 pImage dsj.
Proof.
  apply (restart_delivers_the_same_row scenario_progressive).
  - apply (bool_decide_unpack _). by vm_compute.
  - reflexivity.
  - apply reachable_Open.
  - lia.
  - lia.
  - simpl. lia.
Defined.




(** C6, as amended.  On an interlaced file of a hundred rows, when the
    allocation of the whole-image buffer succeeds, the request for line
    50 makes exactly one call of [png_read_image] and no restart; the
    request for line 10 that follows finds the line buffered and returns
    success leaving the dataset, its call log included, as it was: no
    restart and no second decoding. *)
Theorem interlaced_second_request_is_buffered f :
  wf_file f -> png_interlaced f = true -> png_height f = 100 ->
  exists ds1,
    LoadScanline true 50 (Open f) = Some (CE_None, ds1)
    /\ count is_read_image (calls ds1) = 1%nat
    /\ count is_restart (calls ds1) = 0%nat
    /\ nLastLineRead ds1 = 99
    /\ buffered 10 ds1
    /\ forall bAllocOk, LoadScanline bAllocOk 10 ds1 = Some (CE_None, ds1).
Proof.
  intros Hwf Hi H100.
  destruct (LoadScanline_interlaced f Hwf (Open f) true 50 Hi
              (Open_inv f Hwf))
    as (ds1 & Hrun & _ & Hs & Hn & _ & Hl & Hcalls);
    [unfold buffered; simpl; lia|].
  exists ds1. simpl in Hcalls. rewrite Hcalls.
  assert (buffered 10 ds1) by (unfold buffered; lia).
  repeat split; try (done || lia).
  intros bAllocOk. by apply LoadScanline_buffered.
Qed.

Lemma interlaced_second_request_is_buffered_witness :
  exists ds1,
    LoadScanline true 50 (Open scenario_interlaced) = Some (CE_None, ds1)
    /\ count is_read_image (calls ds1) = 1%nat
    /\ count is_restart (calls ds1) = 0%nat
    /\ nLastLineRead ds1 = 99
    /\ buffered 10 ds1
    /\ forall bAllocOk, LoadScanline bAllocOk 10 ds1 = Some (CE_None, ds1).
Proof.
  apply (interlaced_second_request_is_buffered scenario_interlaced).
  - apply (bool_decide_unpack _). by vm_compute.
  - reflexivity.
  - reflexivity.
Defined.

(** C6 as stated fails on the hundred-row interlaced file: after the
    request for line 50, the request for line 10 makes no restart and no
    call of [png_read_image], although the cursor is at 99. *)
Lemma interlaced_second_request_no_restart :
  ~ (exists ds1 ds2,
       LoadScanline true 50 (Open scenario_interlaced) = Some (CE_None, ds1)
       /\ LoadScanline true 10 ds1 = Some (CE_None, ds2)
       /\ count is_restart (calls_since ds1 ds2) = 1%nat
       /\ count is_read_image (calls_since ds1 ds2) = 1%nat).
Proof.
  intros (ds1 & ds2 & Hrun1 & Hrun2 & Hrestart & _).
  vm_compute in Hrun1. injection Hrun1 as <-.
  vm_compute in Hrun2. injection Hrun2 as <-.
  vm_compute in Hrestart. lia.
Qed.

(** C7.  The code at the failing input: on the freshly opened hundred-row
    interlaced file nothing is buffered; the request for line 50 whose
    allocation fails returns [CE_Failure], but it has already set the
    number of buffered lines to 100, with no buffer.  The next request,
    for line 10, is then taken for buffered and returns success, and the
    block read that follows goes through the null buffer. *)
Theorem failed_allocation_leaves_range_set :
  exists ds',
    LoadScanline false 50 (Open scenario_interlaced) = Some (CE_Failure, ds')
    /\ nBufferStartLine (Open scenario_interlaced) = 0
    /\ nBufferLines (Open scenario_interlaced) = 0
    /\ nBufferStartLine ds' = 0
    /\ nBufferLines ds' = 100
    /\ pabyBuffer ds' = None
    /\ buffered 10 ds'
    /\ (forall bAllocOk,
          LoadScanline bAllocOk 10 ds' = Some (CE_None, ds'))
    /\ (forall nBand bAllocOk pImage,
          IReadBlock nBand bAllocOk 10 pImage ds' = None).
Proof.
  eexists. split; [vm_compute; reflexivity|].
  repeat split; try (done || (simpl; lia)).
Qed.


(** C9.  [Restart] touches the decoder side only: the read structure is
    recreated on the rewound file and the cursor is back at its initial
    value -1, while the buffer, the first buffered line and the number of
    buffered lines are what they were, so the same lines count as buffered
    after the restart as before it. *)
Theorem Restart_keeps_buffered_range ds :
  pabyBuffer (Restart ds) = pabyBuffer ds
  /\ nBufferStartLine (Restart ds) = nBufferStartLine ds
  /\ nBufferLines (Restart ds) = nBufferLines ds
  /\ (forall nLine, buffered nLine (Restart ds) <-> buffered nLine ds)
  /\ nLastLineRead (Restart ds) = -1
  /\ hPNG (Restart ds) = png_read_info (nBitDepth ds)
  /\ (forall f, opened_on f (Restart ds) <-> opened_on f ds)
  /\ calls (Restart ds) = calls ds ++ [CallRestart].
Proof.
  unfold buffered, opened_on. simpl. repeat split; tauto.
Qed.

(** C10.  On a file that is not interlaced, in every state an open dataset
    reaches, the number of buffered lines is 0 or 1, and when it is 1 the
    buffered line is the cursor; and a call of [LoadScanline] for a line
    that is not buffered returns success with that line as the one
    buffered line and as the cursor. *)
Theorem progressive_buffer_is_cursor f ds :
  wf_file f -> png_interlaced f = false -> reachable f ds ->
  (nBufferLines ds = 0 \/ nBufferLines ds = 1)
  /\ (nBufferLines ds = 1 -> nBufferStartLine ds = nLastLineRead ds)
  /\ (forall bAllocOk nLine,
        0 <= nLine < png_height f -> ~ buffered nLine ds ->
        exists ds',
          LoadScanline bAllocOk nLine ds = Some (CE_None, ds')
          /\ nBufferStartLine ds' = nLine
          /\ nBufferLines ds' = 1
          /\ nLastLineRead ds' = nLine).
Proof.
  intros Hwf Hi Hreach.
  destruct (reachable_inv f ds Hwf Hreach) as [Hc _].
  pose proof Hc as (_ & _ & Hinv). rewrite Hi in Hinv.
  destruct Hinv as (_ & _ & Hrange). split; [|split].
  - destruct Hrange as [?|(? & _)]; auto.
  - destruct Hrange as [?|(? & ? & _)]; [lia|done].
  - intros bAllocOk nLine Hline Hmiss.
    destruct (LoadScanline_progressive f Hwf ds bAllocOk nLine Hi Hc Hline
                Hmiss) as (ds' & row & Hrun & _ & _ & _ & ? & ? & ? & _).
    by exists ds'.
Qed.

Lemma progressive_buffer_is_cursor_witness :
  let ds := Open scenario_progressive in
  (nBufferLines ds = 0 \/ nBufferLines ds = 1)
  /\ (nBufferLines ds = 1 -> nBufferStartLine ds = nLastLineRead ds)
  /\ (forall bAllocOk nLine,
        0 <= nLine < 4 -> ~ buffered nLine ds ->
        exists ds',
          LoadScanline bAllocOk nLine ds = Some (CE_None, ds')
          /\ nBufferStartLine ds' = nLine
          /\ nBufferLines ds' = 1
          /\ nLastLineRead ds' = nLine).
Proof.
  apply (progressive_buffer_is_cursor scenario_progressive).
  - apply (bool_decide_unpack _). by vm_compute.
  - reflexivity.
  - apply reachable_Open.
Defined.

(* ------------------------------------------------------------------ *)
(** ** Further properties of the PNG driver *)

(** X1.  In any state an open dataset reaches, whatever was written to
    its buffer before, a block read of a line that is not buffered, its
    allocation succeeding, decodes the line and delivers the samples of
    the band as the file has them; this for one-byte samples with any
    number of bands, and for a single band of either sample size. *)
Theorem IReadBlock_miss_delivers_file_samples f ds nBand nLine
    (pImage : block) :
  wf_file f -> reachable f ds ->
  0 <= nLine < png_height f -> 1 <= nBand <= png_channels f ->
  png_bit_depth f <> 16 \/ png_channels f = 1 ->
  Z.of_nat (length pImage) = sample_size (png_bit_depth f) * png_width f ->
  ~ buffered nLine ds ->
  exists (img : block) ds',
    IReadBlock nBand true nLine pImage ds = Some (CE_None, img, ds')
    /\ length img = length pImage
    /\ forall x k,
         0 <= x < png_width f -> 0 <= k < sample_size (png_bit_depth f) ->
         peek img (x * sample_size (png_bit_depth f) + k)
         = image_sample_byte f nLine nBand x k.
Proof.
  intros Hwf Hreach Hline Hband Hshape Hlen Hmiss.
  destruct (reachable_inv f ds Hwf Hreach) as [Hc _].
  by apply (IReadBlock_miss_delivers f).
Qed.

Lemma IReadBlock_miss_delivers_file_samples_witness :
  let f := scenario_progressive in
  exists (img : block) ds',
    IReadBlock 2 true 3 [Byte.x00; Byte.x00] (Open f)
    = Some (CE_None, img, ds')
    /\ length img = 2%nat
    /\ forall x k,
         0 <= x < 2 -> 0 <= k < 1 ->
         peek img (x * 1 + k) = image_sample_byte f 3 2 x k.
Proof.
  apply (IReadBlock_miss_delivers_file_samples scenario_progressive).
  - apply (bool_decide_unpack _). by vm_compute.
  - apply reachable_Open.
  - simpl. lia.
  - simpl. lia.
  - left. simpl. lia.
  - reflexivity.
  - unfold buffered. simpl. lia.
Defined.

(** X2.  In a dataset that is only read (requests for lines, block
    reads, cache flushes, every allocation succeeding), every block read
    succeeds and delivers the samples of the band as the file has them,
    whether the line was buffered or not; this for one-byte samples with
    any number of bands, and for a single band of either sample size. *)
Theorem reading_delivers_file_samples f ds nBand nLine (pImage : block) :
  wf_file f -> reachable_reading f ds ->
  0 <= nLine < png_height f -> 1 <= nBand <= png_channels f ->
  png_bit_depth f <> 16 \/ png_channels f = 1 ->
  Z.of_nat (length pImage) = sample_size (png_bit_depth f) * png_width f ->
  exists (img : block) ds',
    IReadBlock nBand true nLine pImage ds = Some (CE_None, img, ds')
    /\ reachable_reading f ds'
    /\ length img = length pImage
    /\ forall x k,
         0 <= x < png_width f -> 0 <= k < sample_size (png_bit_depth f) ->
         peek img (x * sample_size (png_bit_depth f) + k)
         = image_sample_byte f nLine nBand x k.
Proof.
  intros Hwf Hreading Hline Hband Hshape Hlen.
  pose proof (reachable_reading_holds_image f ds Hwf Hreading) as Hclean.
  pose proof (reachable_reading_reachable f ds Hreading) as Hreach.
  destruct (reachable_inv f ds Hwf Hreach) as [Hc _].
  destruct (decide (buffered nLine ds)) as [Hb|Hb].
  - destruct (IReadBlock_buffered_delivers f ds nBand nLine pImage Hwf Hc
                Hclean Hb Hline Hband Hshape Hlen) as (img & Hread & Hl & Hs).
    exists img, ds. by rewrite Hread.
  - destruct (IReadBlock_miss_delivers f ds nBand nLine pImage)
      as (img & ds' & Hread & Hl & Hs); try done.
    exists img, ds'. split; [done|]. split; [|done].
    by eapply reading_IReadBlock.
Qed.

Lemma reading_delivers_file_samples_witness :
  let f := one_band_16bit in
  exists (img : block) ds',
    IReadBlock 1 true 1 [Byte.x00; Byte.x00; Byte.x00; Byte.x00] (Open f)
    = Some (CE_None, img, ds')
    /\ reachable_reading f ds'
    /\ length img = 4%nat
    /\ forall x k,
         0 <= x < 2 -> 0 <= k < 2 ->
         peek img (x * 2 + k) = image_sample_byte f 1 1 x k.
Proof.
  apply (reading_delivers_file_samples one_band_16bit).
  - apply (bool_decide_unpack _). by vm_compute.
  - apply reading_Open.
  - simpl. lia.
  - simpl. lia.
  - right. reflexivity.
  - reflexivity.
Defined.



(** X4.  On a file that is not interlaced, [FlushCache] on a dataset that
    holds a buffer drops the buffer and the buffered line but leaves the
    cursor where it was.  The next request allocates a new row buffer and
    decodes on from the cursor when its line is beyond the cursor; when
    its line is at or before the cursor (as the line just flushed is) it
    restarts and decodes again from row zero. *)
Theorem FlushCache_progressive_keeps_cursor f ds bAllocOk nLine :
  wf_file f -> png_interlaced f = false -> reachable f ds ->
  is_Some (pabyBuffer ds) -> 0 <= nLine < png_height f ->
  pabyBuffer (FlushCache ds) = None
  /\ (forall n, ~ buffered n (FlushCache ds))
  /\ nLastLineRead (FlushCache ds) = nLastLineRead ds
  /\ exists ds' (row : block),
       LoadScanline bAllocOk nLine (FlushCache ds) = Some (CE_None, ds')
       /\ png_image f !! Z.to_nat nLine = Some row
       /\ pabyBuffer ds' = Some row
       /\ calls_since (FlushCache ds) ds'
          = CallCPLMalloc (row_bytes f)
            :: (if decide (nLine <= nLastLineRead ds)
                then CallRestart :: (CallReadRows <$> seqZ 0 (nLine + 1))
                else CallReadRows
                       <$> seqZ (nLastLineRead ds + 1)
                             (nLine - nLastLineRead ds)).
Proof.
  intros Hwf Hi Hreach [b Hb] Hline.
  assert (reachable f (FlushCache ds)) as Hreach'
    by (by apply (reachable_perform f ds OpFlushCache)).
  destruct (reachable_inv f _ Hwf Hreach') as [Hc' _].
  assert (pabyBuffer (FlushCache ds) = None
          /\ nBufferStartLine (FlushCache ds) = 0
          /\ nBufferLines (FlushCache ds) = 0
          /\ nLastLineRead (FlushCache ds) = nLastLineRead ds)
    as (Hb' & Hs' & Hn' & Hl').
  { unfold FlushCache. by rewrite Hb. }
  assert (forall n, ~ buffered n (FlushCache ds)) as Hmiss.
  { intros n. unfold buffered. lia. }
  split; [done|]. split; [done|]. split; [done|].
  destruct (LoadScanline_progressive f Hwf (FlushCache ds) bAllocOk nLine Hi
              Hc' Hline (Hmiss nLine))
    as (ds' & row & Hrun & _ & Hrow & Hbuf & _ & _ & _ & Hcalls).
  exists ds', row. split; [done|]. split; [done|]. split; [done|].
  rewrite (calls_since_app _ _ _ Hcalls). unfold progressive_calls.
  by rewrite Hb', Hl'.
Qed.

Lemma FlushCache_progressive_keeps_cursor_witness :
  let f := scenario_progressive in
  let ds := scenario_progressive_loaded in
  pabyBuffer (FlushCache ds) = None
  /\ (forall n, ~ buffered n (FlushCache ds))
  /\ nLastLineRead (FlushCache ds) = nLastLineRead ds
  /\ exists ds' (row : block),
       LoadScanline true 2 (FlushCache ds) = Some (CE_None, ds')
       /\ png_image f !! Z.to_nat 2 = Some row
       /\ pabyBuffer ds' = Some row
       /\ calls_since (FlushCache ds) ds'
          = CallCPLMalloc (row_bytes f)
            :: (if decide (2 <= nLastLineRead ds)
                then CallRestart :: (CallReadRows <$> seqZ 0 (2 + 1))
                else CallReadRows
                       <$> seqZ (nLastLineRead ds + 1)
                             (2 - nLastLineRead ds)).
Proof.
  apply (FlushCache_progressive_keeps_cursor scenario_progressive).
  - apply (bool_decide_unpack _). by vm_compute.
  - reflexivity.
  - apply (reachable_perform _ (Open scenario_progressive)
             (OpLoadScanline true 2)).
    + apply reachable_Open.
    + simpl. lia.
    + vm_compute. reflexivity.
  - vm_compute. by eexists.
  - simpl. lia.
Defined.

(** X5.  On an interlaced file, a request that misses the buffer and
    whose allocation fails returns [CE_Failure] and leaves a state that
    nothing repairs: [FlushCache] changes nothing, every later request
    for a line of the image returns success at once, so any sequence of
    requests and flushes leaves the dataset as it is, with no buffer;
    and every block read or write of a line of the image goes through
    the null buffer. *)
Theorem failed_allocation_is_permanent f ds nLine :
  wf_file f -> png_interlaced f = true -> reachable f ds ->
  ~ buffered nLine ds ->
  exists ds',
    LoadScanline false nLine ds = Some (CE_Failure, ds')
    /\ pabyBuffer ds' = None
    /\ FlushCache ds' = ds'
    /\ (forall ops,
          Forall (fun op => is_request_or_flush op = true
                            /\ line_asserted f op) ops ->
          perform_all ops ds' = Some ds')
    /\ (forall nBand bAllocOk r pImage,
          0 <= r < png_height f ->
          IReadBlock nBand bAllocOk r pImage ds' = None
          /\ IWriteBlock nBand bAllocOk r pImage ds' = None).
Proof.
  intros Hwf Hi Hreach Hmiss.
  destruct (reachable_inv f ds Hwf Hreach) as [Hc _].
  destruct (failed_allocation_sets_range f ds nLine Hwf Hi Hc Hmiss)
    as (ds' & Hrun & Hs & Hn & Hb & Hall).
  exists ds'. split; [done|]. split; [done|].
  assert (FlushCache ds' = ds') as Hflush
    by (unfold FlushCache; by rewrite Hb).
  split; [done|]. split.
  - induction 1 as [|op ops [Hop Hline] _ IH]; [done|].
    destruct op as [a r| | |]; simpl in *; try done.
    + by rewrite (LoadScanline_buffered a r ds' (Hall r Hline)).
    + by rewrite Hflush.
  - intros nBand a r pImage Hr. split.
    + rewrite IReadBlock_buffered by auto. by rewrite Hb.
    + rewrite IWriteBlock_buffered by auto. by rewrite Hb.
Qed.

Lemma failed_allocation_is_permanent_witness :
  let f := small_interlaced in
  exists ds',
    LoadScanline false 2 (Open f) = Some (CE_Failure, ds')
    /\ pabyBuffer ds' = None
    /\ FlushCache ds' = ds'
    /\ (forall ops,
          Forall (fun op => is_request_or_flush op = true
                            /\ line_asserted f op) ops ->
          perform_all ops ds' = Some ds')
    /\ (forall nBand bAllocOk r pImage,
          0 <= r < png_height f ->
          IReadBlock nBand bAllocOk r pImage ds' = None
          /\ IWriteBlock nBand bAllocOk r pImage ds' = None).
Proof.
  apply (failed_allocation_is_permanent small_interlaced).
  - apply (bool_decide_unpack _). by vm_compute.
  - reflexivity.
  - apply reachable_Open.
  - unfold buffered. simpl. lia.
Defined.

(** X6.  In a dataset that is only read, a block read of two-byte samples
    of one band among several succeeds, but does not deliver the samples:
    pixel [i] writes bytes [i] and [i + 1] of the output, so the output
    holds the first byte of each sample of the band, then the second byte
    of the last sample, and is left as the caller passed it beyond. *)
Theorem two_byte_band_read_delivers_first_bytes f ds nBand nLine
    (pImage : block) :
  wf_file f -> reachable_reading f ds ->
  0 <= nLine < png_height f -> 1 <= nBand <= png_channels f ->
  png_bit_depth f = 16 -> 2 <= png_channels f ->
  Z.of_nat (length pImage) = 2 * png_width f ->
  exists (img : block) ds',
    IReadBlock nBand true nLine pImage ds = Some (CE_None, img, ds')
    /\ length img = length pImage
    /\ (forall x, 0 <= x < png_width f ->
                  peek img x = image_sample_byte f nLine nBand x 0)
    /\ peek img (png_width f)
       = image_sample_byte f nLine nBand (png_width f - 1) 1
    /\ (forall p, png_width f < p -> peek img p = peek pImage p).
Proof.
  intros Hwf Hreading Hline Hband Hd Hch Hlen.
  pose proof (reachable_reading_holds_image f ds Hwf Hreading) as Hclean.
  pose proof (reachable_reading_reachable f ds Hreading) as Hreach.
  destruct (reachable_inv f ds Hwf Hreach) as [Hc _].
  destruct (decide (buffered nLine ds)) as [Hb|Hb].
  - destruct (IReadBlock_buffered_two_byte f ds nBand nLine pImage Hwf Hc
                Hclean Hb Hline Hband Hd Hch Hlen) as (img & Hread & Hrest).
    exists img, ds. by rewrite Hread.
  - destruct (LoadScanline_miss_holds_image f ds nLine Hwf Hc Hline Hb)
      as (ds' & Hload & Hc' & Hb' & Hclean').
    destruct (IReadBlock_buffered_two_byte f ds' nBand nLine pImage Hwf Hc'
                Hclean' Hb' Hline Hband Hd Hch Hlen) as (img & Hread & Hrest).
    exists img, ds'. split; [|done].
    rewrite (IReadBlock_after_load f ds ds') by done. apply Hread.
Qed.

Lemma two_byte_band_read_delivers_first_bytes_witness :
  let f := two_band_16bit in
  let pImage := [Byte.x00; Byte.x00; Byte.x00; Byte.x00] in
  exists (img : block) ds',
    IReadBlock 2 true 0 pImage (Open f) = Some (CE_None, img, ds')
    /\ length img = length pImage
    /\ (forall x, 0 <= x < png_width f ->
                  peek img x = image_sample_byte f 0 2 x 0)
    /\ peek img (png_width f) = image_sample_byte f 0 2 (png_width f - 1) 1
    /\ (forall p, png_width f < p -> peek img p = peek pImage p).
Proof.
  apply (two_byte_band_read_delivers_first_bytes two_band_16bit).
  - apply (bool_decide_unpack _). by vm_compute.
  - apply reading_Open.
  - simpl. lia.
  - simpl. lia.
  - reflexivity.
  - simpl. lia.
  - reflexivity.
Defined.

(** X7.  A block write of two-byte samples of one band among several,
    followed by a block read of the same band and line, does not return
    the bytes written: pixel [i] stores and fetches bytes [i] and [i + 1]
    of the caller's buffer, so only the first [width + 1] bytes written
    come back, and the rest of the output is left as the caller passed
    it. *)
Theorem two_byte_write_then_read f ds nBand nLine (img : block) :
  wf_file f -> png_bit_depth f = 16 -> 2 <= png_channels f ->
  cache_inv f ds -> 0 <= nLine < png_height f ->
  1 <= nBand <= png_channels f ->
  (buffered nLine ds -> is_Some (pabyBuffer ds)) ->
  Z.of_nat (length img) = 2 * png_width f ->
  exists ds',
    IWriteBlock nBand true nLine img ds = Some (CE_None, ds')
    /\ buffered nLine ds'
    /\ forall bAllocOk (pImage : block),
         length pImage = length img ->
         exists out : block,
           IReadBlock nBand bAllocOk nLine pImage ds'
           = Some (CE_None, out, ds')
           /\ length out = length img
           /\ (forall p, 0 <= p <= png_width f -> peek out p = peek img p)
           /\ (forall p, png_width f < p -> peek out p = peek pImage p).
Proof.
  intros Hwf Hd Hch Hc Hline Hband Hthere Hlen.
  destruct (LoadScanline_loads f ds nLine Hwf Hc Hline Hthere)
    as (ds1 & scan & Hload & Hc1 & Hb1 & Hscan1).
  pose proof Hc as ((_ & HX0 & _) & _).
  pose proof Hc1 as ((Hf & HX & HY & HB & HD & HI) & _).
  pose proof Hwf as (HW & _).
  destruct (buffered_line_fits f ds1 nLine scan Hwf Hc1 Hb1 Hscan1)
    as [Hbase Hfit].
  unfold row_bytes, sample_size in Hbase, Hfit. rewrite Hd in Hbase, Hfit.
  change (16 =? 16) with true in *. cbv iota in Hbase, Hfit.
  set (po := png_channels f * 2) in *.
  set (off := (nLine - nBufferStartLine ds1) * po * png_width f
              + 2 * (nBand - 1)).
  assert (forall i, 0 <= i < png_width f ->
            0 <= off + i * po
            /\ off + i * po + 1 < Z.of_nat (length scan)) as Hidx.
  { intros i Hi. subst off po. nia. }
  destruct (write_strided2_spec scan off po (Z.to_nat (png_width f)) img)
    as (scan' & Hw & Hl & Hin & _).
  { subst po. lia. }
  { intros i Hi. apply Hidx. lia. }
  { right. lia. }
  rewrite Z2Nat.id in Hw, Hin by lia.
  exists (set_pabyBuffer (Some scan') ds1). split; [|split; [done|]].
  - unfold IWriteBlock. rewrite Hload. cbn [mbind option_bind].
    rewrite decide_False by (by intros []).
    rewrite Hscan1, HD, HB, Hd, HX0. cbn [mbind option_bind].
    change (16 =? 16) with true. cbv iota zeta. fold po.
    rewrite (proj2 (Z.eqb_neq 2 po)) by (subst po; lia).
    unfold write_strided. change (2 =? 1) with false. cbv iota.
    fold off. by rewrite Hw.
  - intros bAllocOk pImage HlenP.
    destruct (read_strided2_spec scan' off po (Z.to_nat (png_width f)) pImage)
      as (out & Hr & Hlo & Hrin & Hrlast & Hrout).
    { intros i Hi. rewrite Hl. apply Hidx. lia. }
    { right. lia. }
    rewrite Z2Nat.id in Hr, Hrin, Hrlast, Hrout by lia.
    exists out. split; [|split; [lia|split]].
    + rewrite IReadBlock_buffered by done.
      cbn [pabyBuffer nBitDepth nBands nRasterXSize nBufferStartLine
           set_pabyBuffer mbind option_bind].
      rewrite HD, HB, Hd, HX. change (16 =? 16) with true. cbv iota zeta.
      fold po. rewrite (proj2 (Z.eqb_neq 2 po)) by (subst po; lia).
      unfold read_strided. change (2 =? 1) with false. cbv iota.
      fold off. by rewrite Hr.
    + intros p Hp. destruct (decide (p = png_width f)) as [->|Hne].
      * rewrite Hrlast by lia.
        destruct (Hin (png_width f - 1)) as [_ ->]; [lia|]. f_equal. lia.
      * rewrite Hrin by lia. by destruct (Hin p) as [-> _]; [lia|].
    + intros p Hp. apply Hrout. lia.
Qed.

Lemma two_byte_write_then_read_witness :
  let f := two_band_16bit in
  let img := [Byte.xa1; Byte.xa2; Byte.xa3; Byte.xa4] in
  exists ds',
    IWriteBlock 1 true 0 img (Open f) = Some (CE_None, ds')
    /\ buffered 0 ds'
    /\ forall bAllocOk (pImage : block),
         length pImage = length img ->
         exists out : block,
           IReadBlock 1 bAllocOk 0 pImage ds' = Some (CE_None, out, ds')
           /\ length out = length img
           /\ (forall p, 0 <= p <= png_width f -> peek out p = peek img p)
           /\ (forall p, png_width f < p -> peek out p = peek pImage p).
Proof.
  apply (two_byte_write_then_read two_band_16bit).
  - apply (bool_decide_unpack _). by vm_compute.
  - reflexivity.
  - simpl. lia.
  - apply Open_inv. apply (bool_decide_unpack _). by vm_compute.
  - simpl. lia.
  - simpl. lia.
  - unfold buffered. simpl. lia.
  - reflexivity.
Defined.

(** X8.  The round trip of block writes and reads where it holds: for
    one-byte samples and any number of bands, once every band of a line
    has been written, each band reads back the bytes written to it. *)
Theorem one_byte_round_trip f ds nLine (imgs : list block) :
  wf_file f -> png_bit_depth f <> 16 -> cache_inv f ds ->
  0 <= nLine < png_height f ->
  (buffered nLine ds -> is_Some (pabyBuffer ds)) ->
  Z.of_nat (length imgs) = png_channels f ->
  Forall (fun img : block => Z.of_nat (length img) = png_width f) imgs ->
  exists ds',
    write_bands 1 imgs nLine ds = Some ds'
    /\ buffered nLine ds'
    /\ forall (j : nat) (img : block) bAllocOk (pImage : block),
         imgs !! j = Some img ->
         Z.of_nat (length pImage) = png_width f ->
         IReadBlock (Z.of_nat j + 1) bAllocOk nLine pImage ds'
         = Some (CE_None, img, ds').
Proof.
  intros Hwf Hd Hc Hline Hthere Hcount Himgs.
  destruct (LoadScanline_loads f ds nLine Hwf Hc Hline Hthere)
    as (ds1 & scan & Hload & Hc1 & Hb1 & Hscan1).
  pose proof Hc as ((_ & HX0 & _) & _).
  pose proof Hc1 as ((Hf & HX & HY & HB & HD & HI) & _).
  pose proof Hwf as (HW & _ & HCh & _).
  destruct (buffered_line_fits f ds1 nLine scan Hwf Hc1 Hb1 Hscan1)
    as [Hbase Hfit].
  assert (row_bytes f = png_channels f * png_width f) as Hrb.
  { unfold row_bytes, sample_size.
    rewrite (proj2 (Z.eqb_neq _ _) Hd). lia. }
  (* the first write loads the line; from then on it is buffered *)
  assert (write_bands 1 imgs nLine ds = write_bands 1 imgs nLine ds1) as ->.
  { destruct imgs as [|img rest]; [simpl in Hcount; lia|].
    cbn [write_bands]. f_equal. unfold IWriteBlock.
    rewrite Hload, (LoadScanline_buffered true nLine ds1 Hb1).
    by rewrite HX0, HX. }
  destruct (write_bands_one_byte nLine imgs 1 ds1 scan)
    as (scan' & Hrun & Hl & Hin & _); rewrite ?HD, ?HX, ?HB; try (done || lia).
  exists (set_pabyBuffer (Some scan') ds1). split; [done|]. split; [done|].
  intros j img bAllocOk pImage Himg Hlen.
  rewrite IReadBlock_buffered by done.
  cbn [pabyBuffer nBitDepth nBands nRasterXSize nBufferStartLine
       set_pabyBuffer mbind option_bind].
  rewrite HD, HB, HX, (proj2 (Z.eqb_neq _ _) Hd). cbv zeta.
  rewrite !Z.mul_1_r.
  pose proof (lookup_lt_Some _ _ _ Himg) as Hj.
  destruct (read_one_byte_spec scan'
              ((nLine - nBufferStartLine ds1) * png_channels f * png_width f
               + 1 * (Z.of_nat j + 1 - 1))
              (png_channels f) (png_width f) pImage)
    as (out & Hread & Hlo & Hout); try (done || nia).
  rewrite Hread. cbn [mbind option_bind]. do 2 f_equal.
  f_equal. apply block_eq. intros p.
  pose proof (Forall_lookup_1 _ _ _ _ Himgs Himg) as Hil. simpl in Hil.
  destruct (decide (0 <= p < png_width f)) as [Hp|Hp].
  - rewrite Hout by done. rewrite HB, HX in Hin.
    rewrite <- (Hin j img Himg p Hp). f_equal. lia.
  - rewrite !peek_None by lia. done.
Qed.

Lemma one_byte_round_trip_witness :
  exists ds',
    write_bands 1 [[Byte.xa1; Byte.xa2]; [Byte.xb1; Byte.xb2]] 2
      (Open scenario_progressive) = Some ds'
    /\ buffered 2 ds'
    /\ forall (j : nat) (img : block) bAllocOk (pImage : block),
         [[Byte.xa1; Byte.xa2]; [Byte.xb1; Byte.xb2]] !! j = Some img ->
         Z.of_nat (length pImage) = 2 ->
         IReadBlock (Z.of_nat j + 1) bAllocOk 2 pImage ds'
         = Some (CE_None, img, ds').
Proof.
  apply (one_byte_round_trip scenario_progressive).
  - exact wf_scenario_progressive.
  - done.
  - apply Open_inv. exact wf_scenario_progressive.
  - simpl. lia.
  - unfold buffered. simpl. lia.
  - reflexivity.
  - by repeat constructor.
Defined.

(** X9.  The round trip of a block write and read with a single band, of
    one-byte or two-byte samples: both directions take the [memcpy]
    branch and the band reads back the bytes written to it. *)
Theorem single_band_round_trip f ds nLine (img : block) :
  wf_file f -> png_channels f = 1 -> cache_inv f ds ->
  0 <= nLine < png_height f ->
  (buffered nLine ds -> is_Some (pabyBuffer ds)) ->
  Z.of_nat (length img) = sample_size (png_bit_depth f) * png_width f ->
  exists ds',
    IWriteBlock 1 true nLine img ds = Some (CE_None, ds')
    /\ buffered nLine ds'
    /\ forall bAllocOk (pImage : block),
         length pImage = length img ->
         IReadBlock 1 bAllocOk nLine pImage ds' = Some (CE_None, img, ds').
Proof.
  intros Hwf H1 Hc Hline Hthere Hlen.
  destruct (LoadScanline_loads f ds nLine Hwf Hc Hline Hthere)
    as (ds1 & scan & Hload & Hc1 & Hb1 & Hscan1).
  pose proof Hc as ((_ & HX0 & _) & _).
  pose proof Hc1 as ((Hf & HX & HY & HB & HD & HI) & _).
  pose proof Hwf as (HW & _).
  destruct (buffered_line_fits f ds1 nLine scan Hwf Hc1 Hb1 Hscan1)
    as [Hbase Hfit].
  assert (row_bytes f = sample_size (png_bit_depth f) * png_width f) as Hrb.
  { unfold row_bytes. rewrite H1. lia. }
  assert (1 <= sample_size (png_bit_depth f)) as Hps.
  { unfold sample_size. destruct (_ =? _); lia. }
  set (ps := sample_size (png_bit_depth f)) in *.
  set (off := (nLine - nBufferStartLine ds1) * (1 * ps) * png_width f
              + ps * (1 - 1)).
  assert (off = (nLine - nBufferStartLine ds1) * row_bytes f) as Hoff
    by (subst off; rewrite Hrb; lia).
  destruct (memcpy scan off img 0 (ps * png_width f)) as [scan'|] eqn:Hw.
  2:{ unfold memcpy in Hw. rewrite decide_True in Hw by nia. done. }
  pose proof (memcpy_length _ _ _ _ _ _ Hw) as Hl.
  exists (set_pabyBuffer (Some scan') ds1). split; [|split; [done|]].
  - unfold IWriteBlock. rewrite Hload. cbn [mbind option_bind].
    rewrite decide_False by (by intros []).
    rewrite Hscan1, HD, HB, H1, HX0. cbn [mbind option_bind].
    fold (sample_size (png_bit_depth f)). fold ps. cbv zeta.
    rewrite (proj2 (Z.eqb_eq ps (1 * ps))) by lia.
    unfold write_bulk. fold off. by rewrite Hw.
  - intros bAllocOk pImage HlenP.
    rewrite IReadBlock_buffered by done.
    cbn [pabyBuffer nBitDepth nBands nRasterXSize nBufferStartLine
         set_pabyBuffer mbind option_bind].
    rewrite HD, HB, H1, HX. fold (sample_size (png_bit_depth f)). fold ps.
    cbv zeta. rewrite (proj2 (Z.eqb_eq ps (1 * ps))) by lia.
    unfold read_bulk. fold off.
    destruct (memcpy pImage 0 scan' off (ps * png_width f)) as [out|] eqn:Hr.
    2:{ unfold memcpy in Hr. rewrite decide_True in Hr by nia. done. }
    cbn [mbind option_bind]. do 3 f_equal. apply block_eq. intros p.
    rewrite (peek_memcpy _ _ _ _ _ _ _ Hr). case_decide.
    + rewrite (peek_memcpy _ _ _ _ _ _ _ Hw).
      rewrite decide_True by lia. f_equal. lia.
    + rewrite !peek_None by lia. done.
Qed.

Lemma single_band_round_trip_witness :
  let img := [Byte.xa1; Byte.xa2; Byte.xa3; Byte.xa4] in
  exists ds',
    IWriteBlock 1 true 1 img (Open one_band_16bit) = Some (CE_None, ds')
    /\ buffered 1 ds'
    /\ forall bAllocOk (pImage : block),
         length pImage = length img ->
         IReadBlock 1 bAllocOk 1 pImage ds' = Some (CE_None, img, ds').
Proof.
  apply (single_band_round_trip one_band_16bit).
  - exact wf_one_band_16bit.
  - reflexivity.
  - apply Open_inv. exact wf_one_band_16bit.
  - simpl. lia.
  - unfold buffered. simpl. lia.
  - reflexivity.
Defined.

(** X10.  What [PNGCreateCopy] gives libpng to write, for a source of
    one to four bands whose type it accepts: the header has the size of
    the source and a bit depth of 16 for a [GDT_UInt16] source and of 8
    otherwise, and there is one row per line.  Every row holds the bands
    pixel interleaved with one byte per sample, whatever the bit depth:
    for a sixteen-bit copy the row is twice as long as the samples read
    into it, and its second half is memory the function got from the
    allocator and never wrote. *)
Theorem PNGCreateCopy_rows (k : png_color_types) (src : SrcDataset)
    (bStrict : bool) :
  let nBands := src_nBands src in
  let nXSize := src_nXSize src in
  let nYSize := src_nYSize src in
  1 <= nBands <= 4 -> 0 <= nXSize -> 0 <= nYSize ->
  src_eType src = GDT_Byte \/ src_eType src = GDT_UInt16 \/ bStrict = false ->
  (forall b l, 1 <= b <= nBands -> 0 <= l < nYSize ->
               Z.of_nat (length (src_bytes src b l)) = nXSize) ->
  exists w,
    PNGCreateCopy k src bStrict true = Some (Some w)
    /\ ihdr_width w = nXSize /\ ihdr_height w = nYSize
    /\ ihdr_bit_depth w
       = (if decide (src_eType src = GDT_UInt16) then 16 else 8)
    /\ Z.of_nat (length (written_rows w)) = nYSize
    /\ forall l (row : block),
         0 <= l -> written_rows w !! Z.to_nat l = Some row ->
         Z.of_nat (length row) = nXSize * nBands * (ihdr_bit_depth w / 8)
         /\ (forall b i, 1 <= b <= nBands -> 0 <= i < nXSize ->
                         peek row (i * nBands + (b - 1))
                         = peek (src_bytes src b l) i)
         /\ (forall p, nBands * nXSize <= p < Z.of_nat (length row) ->
                       peek row p = peek (CPLMalloc (nBands * nXSize * 2)) p).
Proof.
  intros nBands nXSize nYSize HB HX HY Htype Hlines.
  set (nBitDepth := if decide (src_eType src <> GDT_UInt16) then 8 else 16).
  assert (nBitDepth / 8 = 1 \/ nBitDepth / 8 = 2) as Hd.
  { subst nBitDepth. case_decide; [by left|by right]. }
  destruct (PNGCreateCopy_lines_spec src nBands nXSize
              (nXSize * nBands * (nBitDepth / 8)) (seqZ 0 nYSize)
              (CPLMalloc (nBands * nXSize * 2)))
    as (rows & Hrows & Hlen & Hspec); [lia|lia| | |].
  { unfold CPLMalloc, fresh_block. rewrite length_replicate. nia. }
  { intros b l Hb Hl. apply Hlines; [done|].
    apply elem_of_seqZ in Hl. lia. }
  eexists. split; [|split; [|split; [|split; [|split]]]].
  - unfold PNGCreateCopy. fold nBands nXSize nYSize.
    rewrite decide_False by lia.
    rewrite decide_False by (intros (? & ? & ?); by destruct Htype as [?|[?|?]];
                             congruence).
    cbn [negb]. cbv iota. fold nBitDepth. rewrite Hrows.
    cbn [mbind option_bind]. reflexivity.
  - done.
  - done.
  - cbn [ihdr_bit_depth]. subst nBitDepth. by repeat case_decide.
  - cbn [written_rows]. rewrite Hlen, length_seqZ. lia.
  - cbn [written_rows ihdr_bit_depth]. intros l row Hl Hrow.
    assert (seqZ 0 nYSize !! Z.to_nat l = Some l) as Hidx.
    { apply lookup_lt_Some in Hrow. rewrite Hlen, length_seqZ in Hrow.
      rewrite lookup_seqZ. split; lia. }
    destruct (Hspec _ _ _ Hidx Hrow) as (H1 & H2 & H3).
    split; [done|]. split.
    + intros b i Hb Hi. rewrite H2 by lia. do 2 f_equal. lia.
    + intros p Hp. apply H3. lia.
Qed.

Lemma PNGCreateCopy_rows_witness :
  let src := {| src_nBands := 2; src_nXSize := 2; src_nYSize := 1;
                src_eType := GDT_UInt16;
                src_bytes := fun b _ =>
                  if b =? 1 then [Byte.x11; Byte.x12]
                  else [Byte.x21; Byte.x22] |} in
  exists w,
    PNGCreateCopy libpng_color_types src true true = Some (Some w)
    /\ ihdr_width w = 2 /\ ihdr_height w = 1
    /\ ihdr_bit_depth w = 16
    /\ Z.of_nat (length (written_rows w)) = 1
    /\ forall l (row : block),
         0 <= l -> written_rows w !! Z.to_nat l = Some row ->
         Z.of_nat (length row) = 2 * 2 * (ihdr_bit_depth w / 8)
         /\ (forall b i, 1 <= b <= 2 -> 0 <= i < 2 ->
                         peek row (i * 2 + (b - 1))
                         = peek (src_bytes src b l) i)
         /\ (forall p, 2 * 2 <= p < Z.of_nat (length row) ->
                       peek row p = peek (CPLMalloc (2 * 2 * 2)) p).
Proof.
  intros src.
  apply (PNGCreateCopy_rows libpng_color_types src true).
  - simpl. lia.
  - simpl. lia.
  - simpl. lia.
  - right. left. reflexivity.
  - intros b l Hb Hl. simpl. by destruct (b =? 1).
Defined.

(** X11.  A copy of a source with one byte per sample reads back: when
    the source is not [GDT_UInt16], the file [PNGCreateCopy] writes is a
    well-formed eight-bit file with as many channels as the source has
    bands, and in a dataset opened on it and only read, every block read
    delivers the line of the band as [RasterIO] delivered it from the
    source. *)
Theorem PNGCreateCopy_reads_back (k : png_color_types) (src : SrcDataset)
    (bStrict : bool) :
  let nBands := src_nBands src in
  let nXSize := src_nXSize src in
  let nYSize := src_nYSize src in
  color_types_distinct k ->
  1 <= nBands <= 4 -> 0 < nXSize -> 0 < nYSize ->
  nBands * nXSize * nYSize <= INT_MAX ->
  src_eType src = GDT_Byte
  \/ (src_eType src <> GDT_UInt16 /\ bStrict = false) ->
  (forall b l, 1 <= b <= nBands -> 0 <= l < nYSize ->
               Z.of_nat (length (src_bytes src b l)) = nXSize) ->
  exists w,
    PNGCreateCopy k src bStrict true = Some (Some w)
    /\ wf_file (written_file k w)
    /\ png_channels (written_file k w) = nBands
    /\ png_bit_depth (written_file k w) = 8
    /\ forall ds b l (pImage : block),
         reachable_reading (written_file k w) ds ->
         1 <= b <= nBands -> 0 <= l < nYSize ->
         Z.of_nat (length pImage) = nXSize ->
         exists ds',
           IReadBlock b true l pImage ds
           = Some (CE_None, src_bytes src b l, ds').
Proof.
  intros nBands nXSize nYSize Hk HB HX HY Hmax Htype Hlines.
  assert (src_eType src <> GDT_UInt16) as Hne
    by (destruct Htype as [->|[? _]]; done).
  destruct (PNGCreateCopy_lines_spec src nBands nXSize
              (nXSize * nBands * (8 / 8)) (seqZ 0 nYSize)
              (CPLMalloc (nBands * nXSize * 2)))
    as (rows & Hrows & Hlen & Hspec); [lia|lia| | |].
  { unfold CPLMalloc, fresh_block. rewrite length_replicate.
    change (8 / 8) with 1. nia. }
  { intros b l Hb Hl. apply Hlines; [done|].
    apply elem_of_seqZ in Hl. lia. }
  rewrite length_seqZ in Hlen.
  assert (forall l (row : block),
            0 <= l -> rows !! Z.to_nat l = Some row ->
            Z.of_nat (length row) = nBands * nXSize
            /\ forall b i, 1 <= b <= nBands -> 0 <= i < nXSize ->
                 peek row (i * nBands + (b - 1))
                 = peek (src_bytes src b l) i) as Hrow.
  { intros l row Hl Hr.
    assert (seqZ 0 nYSize !! Z.to_nat l = Some l) as Hidx.
    { apply lookup_lt_Some in Hr. rewrite lookup_seqZ. split; lia. }
    destruct (Hspec _ _ _ Hidx Hr) as (H1 & H2 & _).
    split; [change (8 / 8) with 1 in H1; lia|].
    intros b i Hb Hi. rewrite H2 by lia. do 2 f_equal. lia. }
  eexists. split.
  { rewrite PNGCreateCopy_accepted by (done || tauto).
    cbv zeta. rewrite decide_True by done. fold nBands nXSize nYSize.
    rewrite Hrows. cbn [mbind option_bind]. reflexivity. }
  set (w := {| ihdr_width := nXSize |}).
  assert (png_channels (written_file k w) = nBands) as Hch
    by (by apply color_type_channels_bands).
  assert (wf_file (written_file k w)) as Hwf.
  { unfold wf_file, row_bytes. rewrite Hch.
    cbn [written_file w png_width png_height png_bit_depth png_image
         ihdr_width ihdr_height ihdr_bit_depth written_rows].
    change (sample_size 8) with 1.
    split; [done|]. split; [done|]. split; [done|].
    split; [rewrite !elem_of_cons; lia|]. split; [lia|]. split; [|lia].
    apply Forall_lookup. intros j row Hj.
    destruct (Hrow (Z.of_nat j) row) as [Hl _]; [lia|by rewrite Nat2Z.id|].
    lia. }
  split; [done|]. split; [done|]. split; [done|].
  intros ds b l pImage Hreading Hb Hl HlenP.
  set (f := written_file k w) in *.
  pose proof (reachable_reading_holds_image f ds Hwf Hreading) as Hclean.
  pose proof (reachable_reading_reachable f ds Hreading) as Hreach.
  destruct (reachable_inv f ds Hwf Hreach) as [Hc _].
  assert (exists (img : block) ds',
            IReadBlock b true l pImage ds = Some (CE_None, img, ds')
            /\ length img = length pImage
            /\ forall x j, 0 <= x < png_width f ->
                 0 <= j < sample_size (png_bit_depth f) ->
                 peek img (x * sample_size (png_bit_depth f) + j)
                 = image_sample_byte f l b x j)
    as (img & ds' & Hread & Hli & Hs).
  { destruct (decide (buffered l ds)) as [Hbuf|Hbuf].
    - destruct (IReadBlock_buffered_delivers f ds b l pImage)
        as (img & Hread & Hli & Hs); try (done || lia).
      { left. done. }
      { change (sample_size (png_bit_depth f)) with 1.
        change (png_width f) with nXSize. lia. }
      exists img, ds. by rewrite Hread.
    - destruct (IReadBlock_miss_delivers f ds b l pImage)
        as (img & ds' & Hread & Hli & Hs); try (done || lia).
      { left. done. }
      { change (sample_size (png_bit_depth f)) with 1.
        change (png_width f) with nXSize. lia. }
      by exists img, ds'. }
  exists ds'. rewrite Hread. do 3 f_equal. apply block_eq. intros p.
  destruct (decide (0 <= p < nXSize)) as [Hp|Hp].
  - specialize (Hs p 0). change (sample_size (png_bit_depth f)) with 1 in Hs.
    rewrite Z.mul_1_r, Z.add_0_r in Hs. rewrite Hs by (done || lia).
    unfold image_sample_byte. rewrite decide_True by lia.
    destruct (lookup_lt_is_Some_2 rows (Z.to_nat l)) as [row Hr]; [lia|].
    change (png_image f) with rows. rewrite Hr. cbn [mbind option_bind].
    destruct (Hrow l row) as [_ Hpix]; [lia|done|].
    rewrite Hch. change (sample_size (png_bit_depth f)) with 1.
    rewrite <- (Hpix b p) by lia. f_equal. lia.
  - rewrite !peek_None; [done| |]; [rewrite Hlines by lia; lia|lia].
Qed.

Lemma PNGCreateCopy_reads_back_witness :
  let src := {| src_nBands := 2; src_nXSize := 2; src_nYSize := 1;
                src_eType := GDT_Byte;
                src_bytes := fun b _ =>
                  if b =? 1 then [Byte.x11; Byte.x12]
                  else [Byte.x21; Byte.x22] |} in
  exists w,
    PNGCreateCopy libpng_color_types src true true = Some (Some w)
    /\ wf_file (written_file libpng_color_types w)
    /\ png_channels (written_file libpng_color_types w) = 2
    /\ png_bit_depth (written_file libpng_color_types w) = 8
    /\ forall ds b l (pImage : block),
         reachable_reading (written_file libpng_color_types w) ds ->
         1 <= b <= 2 -> 0 <= l < 1 ->
         Z.of_nat (length pImage) = 2 ->
         exists ds',
           IReadBlock b true l pImage ds
           = Some (CE_None, src_bytes src b l, ds').
Proof.
  intros src.
  apply (PNGCreateCopy_reads_back libpng_color_types src true).
  - apply (bool_decide_unpack _). by vm_compute.
  - simpl. lia.
  - simpl. lia.
  - simpl. lia.
  - by vm_compute.
  - left. reflexivity.
  - intros b l Hb Hl. simpl. by destruct (b =? 1).
Defined.



(** X13.  [CollectMetadata] turns every text chunk into one metadata
    item, in order and with its text unchanged.  The tag of an item is
    the key of its chunk with every space, equals sign and colon
    replaced by an underscore: no tag contains one of the three, and two
    keys get the same tag exactly when they have the same length and
    differ only where both have one of the three characters or an
    underscore. *)
Theorem CollectMetadata_tags (text_ptr : list (list ascii * list ascii)) :
  (CollectMetadata text_ptr).*2 = text_ptr.*2
  /\ Forall2 (fun item chunk =>
                length item.1 = length chunk.1
                /\ Forall (fun c => ~ replaced_in_tag c) item.1)
       (CollectMetadata text_ptr) text_ptr
  /\ Forall (fun chunk1 =>
       Forall (fun chunk2 =>
         metadata_tag chunk1.1 = metadata_tag chunk2.1
         <-> Forall2 (fun a b =>
                        a = b \/ ((replaced_in_tag a \/ a = "_"%char)
                                  /\ (replaced_in_tag b \/ b = "_"%char)))
               chunk1.1 chunk2.1) text_ptr) text_ptr.
Proof.
  split; [|split].
  - unfold CollectMetadata. rewrite <- !list_fmap_compose.
    by apply list_fmap_ext.
  - unfold CollectMetadata. apply Forall2_fmap_l, Forall_Forall2_diag.
    apply Forall_forall. intros [key txt] _. simpl.
    unfold metadata_tag. split; [by rewrite length_fmap|].
    apply Forall_fmap, Forall_forall. intros c _. cbn.
    case_bool_decide as Hc; [|done].
    unfold replaced_in_tag. intros [?|[?|?]]; done.
  - apply Forall_forall. intros [k1 t1] _. apply Forall_forall.
    intros [k2 t2] _. cbn [fst]. clear t1 t2. revert k2.
    unfold metadata_tag.
    induction k1 as [|a k1 IH]; intros [|b k2]; cbn [fmap list_fmap].
    + split; [constructor|done].
    + split; [done|inversion 1].
    + split; [done|inversion 1].
    + rewrite Forall2_cons. rewrite <- IH. rewrite <- metadata_tag_char_eq.
      split; [by intros [= -> ->]|by intros [-> ->]].
Qed.

(** * Properties of the ENVI driver *)

(** ** The state plane zones *)

Lemma ESRIToUSGSZone_loop_spec (pairs : list Z) (nESRIZone : Z) :
  (ENVI.ESRIToUSGSZone_loop pairs nESRIZone = 0
   /\ Forall (fun i => ENVI.zone_esri i <> nESRIZone) pairs)
  \/ exists i, i ∈ pairs /\ ENVI.zone_esri i = nESRIZone
               /\ ENVI.ESRIToUSGSZone_loop pairs nESRIZone = ENVI.zone_usgs i.
Proof.
  induction pairs as [|i rest IH]; simpl.
  - left. by split.
  - case_decide as Hi.
    + right. exists i. split; [apply list_elem_of_here|done].
    + destruct IH as [[H0 Hall]|(j & Hj & Hz & Hr)].
      * left. split; [done|by constructor].
      * right. exists j. split; [by apply list_elem_of_further|done].
Qed.

(** X14.  [ESRIToUSGSZone] returns 0 exactly for the codes that are no
    ESRI zone of the table, and otherwise the USGS zone of a pair of the
    table that has the code.  It inverts the table pair by pair, except
    for the pairs that come after another pair with the same ESRI code:
    the USGS zones 2600, 3900, 5300 and 5400, whose ESRI code 0 gives
    2500, and 5202, whose ESRI code 6051 gives 5201. *)
Theorem ESRIToUSGSZone_table :
  let nPairs := Z.of_nat (length ENVI.anUsgsEsriZones) / 2 in
  (forall nESRIZone,
     (ENVI.ESRIToUSGSZone nESRIZone = 0
      /\ forall i, 0 <= i < nPairs -> ENVI.zone_esri i <> nESRIZone)
     \/ (ENVI.ESRIToUSGSZone nESRIZone <> 0
         /\ exists i, 0 <= i < nPairs /\ ENVI.zone_esri i = nESRIZone
              /\ ENVI.ESRIToUSGSZone nESRIZone = ENVI.zone_usgs i))
  /\ (forall i, 0 <= i < nPairs ->
        ENVI.ESRIToUSGSZone (ENVI.zone_esri i) = ENVI.zone_usgs i
        <-> ENVI.zone_usgs i ∉ [2600; 3900; 5300; 5400; 5202])
  /\ ENVI.ESRIToUSGSZone 0 = 2500
  /\ ENVI.ESRIToUSGSZone 6051 = 5201.
Proof.
  intros nPairs.
  assert (Forall (fun i => ENVI.zone_usgs i <> 0
                    /\ (ENVI.ESRIToUSGSZone (ENVI.zone_esri i)
                        = ENVI.zone_usgs i
                        <-> ENVI.zone_usgs i ∉ [2600; 3900; 5300; 5400; 5202]))
            (seqZ 0 nPairs)) as Hall.
  { apply (bool_decide_unpack _). by vm_compute. }
  rewrite Forall_forall in Hall.
  split; [|split; [|split]].
  - intros z. unfold ENVI.ESRIToUSGSZone. fold nPairs.
    destruct (ESRIToUSGSZone_loop_spec (seqZ 0 nPairs) z)
      as [[H0 Hnone]|(i & Hi & Hz & Hr)].
    + left. split; [done|]. intros i Hi.
      rewrite Forall_forall in Hnone. apply Hnone, elem_of_seqZ. lia.
    + right. rewrite Hr. split; [by apply Hall|].
      exists i. apply elem_of_seqZ in Hi. split; [lia|done].
  - intros i Hi. apply Hall, elem_of_seqZ. lia.
  - by vm_compute.
  - by vm_compute.
Qed.

(** ** Value lists *)

Lemma skip_spaces_replicate n (s : list ascii) :
  ENVI.skip_spaces (replicate n " "%char ++ s) = ENVI.skip_spaces s.
Proof. induction n as [|n IH]; [done|]. simpl. exact IH. Qed.

Lemma skip_spaces_head (s : list ascii) :
  head s <> Some " "%char -> ENVI.skip_spaces s = s.
Proof. destruct s as [|c s]; [done|]. simpl. intros Hc. case_decide; congruence. Qed.

Lemma skip_spaces_spec (s : list ascii) :
  exists n, s = replicate n " "%char ++ ENVI.skip_spaces s
            /\ head (ENVI.skip_spaces s) <> Some " "%char.
Proof.
  induction s as [|c s (n & Hs & Hh)].
  - by exists 0%nat.
  - simpl. case_decide as Hc.
    + subst c. exists (S n). simpl. split; [by rewrite <- Hs|done].
    + exists 0%nat. simpl. split; [done|congruence].
Qed.

Lemma scan_field_spec (s : list ascii) :
  exists field tail,
    ENVI.scan_field s = (field, tail) /\ s = field ++ tail
    /\ Forall (fun c => ~ ENVIText.is_separator c) field
    /\ (tail = [] \/ exists d next, tail = d :: next
                                    /\ ENVIText.is_separator d).
Proof.
  induction s as [|c s (field & tail & Hs & Happ & Hf & Ht)]; simpl.
  - exists [], []. repeat split; auto.
  - case_decide as Hc.
    + exists [], (c :: s). repeat split; [constructor|].
      right. by exists c, s.
    + rewrite Hs. exists (c :: field), tail.
      split; [done|]. split; [by rewrite Happ|]. split; [by constructor|done].
Qed.

Lemma scan_field_app (field : list ascii) d (next : list ascii) :
  Forall (fun c => ~ ENVIText.is_separator c) field ->
  ENVIText.is_separator d ->
  ENVI.scan_field (field ++ d :: next) = (field, d :: next).
Proof.
  intros Hf Hd. induction Hf as [|c field Hc _ IH]; simpl.
  - by rewrite decide_True.
  - rewrite decide_False by done. by rewrite IH.
Qed.

Lemma trim_end_padded (field : list ascii) b :
  field <> [] -> last field <> Some " "%char ->
  ENVI.trim_end (field ++ replicate b " "%char) = field.
Proof.
  destruct field as [|c rest]; [done|]. intros _ Hlast. simpl. f_equal.
  rewrite reverse_app, reverse_replicate, skip_spaces_replicate.
  rewrite skip_spaces_head; [by rewrite reverse_involutive|].
  rewrite head_reverse. destruct rest as [|c' rest]; [done|].
  by rewrite last_cons_cons in Hlast.
Qed.

Lemma trim_end_spec (field : list ascii) :
  head field <> Some " "%char ->
  Forall (fun c => ~ ENVIText.is_separator c) field ->
  ENVIText.stripped (ENVI.trim_end field).
Proof.
  destruct field as [|c rest]; [by repeat split|].
  simpl. intros Hc Hall.
  destruct (skip_spaces_spec (reverse rest)) as (n & Hr & Hh).
  set (r := ENVI.skip_spaces (reverse rest)) in *.
  assert (rest = reverse r ++ replicate n " "%char) as Hrest.
  { rewrite <- (reverse_involutive rest), Hr, reverse_app, reverse_replicate.
    done. }
  split; [|split].
  - apply Forall_cons in Hall as [H1 H2]. constructor; [done|].
    rewrite Hrest in H2. by apply Forall_app in H2 as [? _].
  - simpl. congruence.
  - rewrite last_cons. rewrite last_reverse.
    destruct r as [|c' r]; simpl in *; congruence.
Qed.

(** The loop of [SplitList] never runs out of the fuel it is given, and
    every field it returns is stripped. *)
Lemma SplitList_fields_total fuel (psz : list ascii) :
  (length psz < fuel)%nat ->
  exists papsz, ENVI.SplitList_fields fuel psz = Some papsz
                /\ Forall ENVIText.stripped papsz.
Proof.
  revert psz. induction fuel as [|fuel IH]; intros psz Hlen; [lia|].
  destruct psz as [|c psz']; cbn [ENVI.SplitList_fields].
  { by exists []. }
  case_decide; [by exists []|].
  destruct (skip_spaces_spec (c :: psz')) as (n & Hs & Hh).
  destruct (scan_field_spec (ENVI.skip_spaces (c :: psz')))
    as (field & tail & Hscan & Happ & Hf & Ht).
  rewrite Hscan.
  destruct Ht as [->|(d & next & -> & Hd)]; [by exists []|].
  destruct (IH next) as (rest & Hrest & Hall).
  { apply (f_equal length) in Hs. rewrite Happ in Hs.
    rewrite !length_app, length_replicate in Hs. simpl in Hs, Hlen. lia. }
  rewrite Hrest. simpl. eexists. split; [done|]. constructor; [|done].
  apply trim_end_spec; [|done].
  rewrite Happ in Hh. destruct field; simpl in *; [|done].
  destruct Hd as [->| ->]; done.
Qed.

(** The loop gives the same result with any fuel that is enough. *)
Lemma SplitList_fields_fuel fuel fuel' (psz : list ascii) :
  (length psz < fuel)%nat -> (length psz < fuel')%nat ->
  ENVI.SplitList_fields fuel psz = ENVI.SplitList_fields fuel' psz.
Proof.
  revert fuel' psz. induction fuel as [|fuel IH]; intros fuel' psz H1 H2;
    [lia|].
  destruct fuel' as [|fuel']; [lia|].
  destruct psz as [|c psz']; cbn [ENVI.SplitList_fields]; [done|].
  case_decide; [done|].
  destruct (skip_spaces_spec (c :: psz')) as (n & Hs & Hh).
  destruct (scan_field_spec (ENVI.skip_spaces (c :: psz')))
    as (field & tail & Hscan & Happ & Hf & Ht).
  rewrite Hscan.
  destruct Ht as [->|(d & next & -> & Hd)]; [done|].
  rewrite (IH fuel' next); [done| |];
    apply (f_equal length) in Hs; rewrite Happ in Hs;
    rewrite !length_app, length_replicate in Hs; simpl in Hs, H1, H2; lia.
Qed.

Lemma SplitList_fields_value_list fuel
    (fields : list (nat * list ascii * nat)) :
  fields <> [] ->
  Forall (fun f => f.1.2 <> [] /\ ENVIText.stripped f.1.2) fields ->
  (length (ENVIText.value_list_body fields) < fuel)%nat ->
  ENVI.SplitList_fields fuel (ENVIText.value_list_body fields)
  = Some ((fun f => f.1.2) <$> fields).
Proof.
  intros Hne Hall. revert fuel Hne.
  induction Hall as [|[[a field] b] rest [Hfne (Hf & Hh & Hl)] Hall IH];
    intros fuel Hne Hlen; [done|]. clear Hne.
  destruct fuel as [|fuel]; [lia|].
  cbn [ENVIText.value_list_body] in *. cbn [fst snd] in *.
  set (tail := match rest with
               | [] => ["}"%char]
               | _ => ","%char :: ENVIText.value_list_body rest
               end) in *.
  assert (exists d next, tail = d :: next /\ ENVIText.is_separator d
            /\ (length next < fuel)%nat
            /\ (rest = [] -> next = [])
            /\ (rest <> [] -> next = ENVIText.value_list_body rest))
    as (d & next & Htail & Hd & Hnext & Hnil & Hcons).
  { rewrite length_app in Hlen. subst tail. destruct rest.
    - exists "}"%char, []. repeat split; try done; [by right|simpl in *; lia].
    - eexists _, _. repeat split; try done; [by left|simpl in *; lia]. }
  rewrite Htail. unfold ENVIText.padded.
  assert (exists c0 s0, replicate a " "%char ++ field
                        ++ replicate b " "%char ++ d :: next = c0 :: s0
                        /\ c0 <> "}"%char) as (c0 & s0 & Hs0 & Hc0).
  { destruct a as [|a]; simpl.
    - destruct field as [|c field]; [done|]. simpl.
      eexists _, _. split; [done|].
      apply Forall_cons in Hf as [Hc _]. intros ->. apply Hc. by right.
    - eexists _, _. split; [done|]. done. }
  rewrite <- !app_assoc. rewrite Hs0. cbn [ENVI.SplitList_fields].
  rewrite decide_False by done. rewrite <- Hs0.
  rewrite skip_spaces_replicate, skip_spaces_head.
  2:{ destruct field; [done|]. simpl in *. done. }
  rewrite app_assoc, scan_field_app; [|apply Forall_app; split; [done|]|done].
  2:{ apply Forall_replicate. intros [?|?]; done. }
  rewrite trim_end_padded by done.
  destruct rest as [|f rest].
  - rewrite Hnil by done. destruct fuel; [lia|]. done.
  - rewrite Hcons by done. rewrite IH; [done|done|].
    rewrite <- Hcons by done. done.
Qed.

(** X15.  [SplitList] splits a value list at its commas and strips the
    spaces around each field: for fields that are not empty and have no
    comma or closing brace in them and no space at either end, written
    between braces with any number of spaces around each, it returns
    the fields. *)
Theorem SplitList_value_list (fields : list (nat * list ascii * nat)) :
  Forall (fun f => f.1.2 <> [] /\ ENVIText.stripped f.1.2) fields ->
  ENVI.SplitList (ENVIText.value_list fields)
  = Some ((fun f => f.1.2) <$> fields).
Proof.
  intros Hall. unfold ENVIText.value_list, ENVI.SplitList.
  rewrite decide_True by done.
  destruct fields as [|f fields]; [done|].
  apply SplitList_fields_value_list; [done|done|lia].
Qed.

Lemma SplitList_value_list_witness :
  ENVI.SplitList
    (ENVIText.value_list
       [(1%nat, ENVI.c_str "UTM", 0%nat); (1%nat, ENVI.c_str "1.5", 2%nat)])
  = Some [ENVI.c_str "UTM"; ENVI.c_str "1.5"].
Proof.
  apply (SplitList_value_list
           [(1%nat, ENVI.c_str "UTM", 0%nat);
            (1%nat, ENVI.c_str "1.5", 2%nat)]).
  repeat constructor; try done; intros [?|?]; done.
Defined.

(** X16.  [SplitList] returns for every input, and every field it
    returns is stripped: it has no comma and no closing brace in it, and
    no space at either end.  An input that does not start with an
    opening brace gives no field. *)
Theorem SplitList_stripped (pszCleanInput : list ascii) :
  exists papsz,
    ENVI.SplitList pszCleanInput = Some papsz
    /\ Forall ENVIText.stripped papsz
    /\ (head pszCleanInput <> Some "{"%char -> papsz = []).
Proof.
  unfold ENVI.SplitList. destruct pszCleanInput as [|c rest].
  { by exists []. }
  case_decide as Hc.
  - destruct (SplitList_fields_total (S (length rest)) rest)
      as (papsz & Hrun & Hall); [lia|].
    exists papsz. split; [done|]. split; [done|].
    simpl. congruence.
  - by exists [].
Qed.

Lemma skip_spaces_app (s t : list ascii) :
  ENVI.skip_spaces s <> [] ->
  ENVI.skip_spaces (s ++ t) = ENVI.skip_spaces s ++ t.
Proof.
  induction s as [|c s IH]; [done|]. simpl.
  case_decide; [exact IH|done].
Qed.

Lemma skip_spaces_last (s : list ascii) d :
  last s = Some d -> d <> " "%char -> last (ENVI.skip_spaces s) = Some d.
Proof.
  intros Hlast Hd. destruct (skip_spaces_spec s) as (n & Hs & _).
  rewrite Hs, last_app in Hlast.
  destruct (last (ENVI.skip_spaces s)) as [y|]; [done|].
  exfalso. clear Hs. induction n as [|n IH]; [done|].
  simpl in Hlast. destruct n; simpl in *; [congruence|auto].
Qed.

Lemma scan_field_last (s : list ascii) d :
  last s = Some d -> ENVIText.is_separator d ->
  exists field d' next,
    ENVI.scan_field s = (field, d' :: next) /\ s = field ++ d' :: next
    /\ Forall (fun c => ~ ENVIText.is_separator c) field
    /\ ENVIText.is_separator d'
    /\ (next = [] \/ last next = Some d).
Proof.
  intros Hlast Hd.
  destruct (scan_field_spec s) as (field & tail & Hscan & Happ & Hf & Ht).
  destruct Ht as [->|(d' & next & -> & Hd')].
  - exfalso. rewrite app_nil_r in Happ. subst field.
    apply last_Some in Hlast as [l' ->].
    apply Forall_app in Hf as [_ Hf]. apply Forall_cons in Hf as [Hf _]. done.
  - exists field, d', next. repeat split; try done.
    rewrite Happ, last_app_cons in Hlast.
    destruct next as [|c next]; [by left|right].
    by rewrite last_cons_cons in Hlast.
Qed.

(** What follows the last separator of the input is not looked at any
    further than to find that no separator ends it. *)
Lemma SplitList_fields_unterminated fuel (body field : list ascii) :
  Forall (fun c => ~ ENVIText.is_separator c) field ->
  body = [] \/ (exists d, last body = Some d /\ ENVIText.is_separator d) ->
  (length (body ++ field) < fuel)%nat ->
  ENVI.SplitList_fields fuel (body ++ field)
  = ENVI.SplitList_fields fuel body.
Proof.
  intros Hfield. revert body.
  induction fuel as [|fuel IH]; intros body Hbody Hlen; [lia|].
  destruct Hbody as [->|(d & Hlast & Hd)].
  - simpl. destruct field as [|c field']; [done|].
    apply Forall_cons in Hfield as Hc. destruct Hc as [Hc _].
    rewrite decide_False by (intros ->; apply Hc; by right).
    destruct (skip_spaces_spec (c :: field')) as (n & Hs & _).
    destruct (scan_field_spec (ENVI.skip_spaces (c :: field')))
      as (f & tail & Hscan & Happ & _ & Ht).
    rewrite Hscan. destruct Ht as [->|(d & next & -> & Hd)]; [done|].
    exfalso. rewrite Hs, Happ in Hfield.
    apply Forall_app in Hfield as [_ Hfield].
    apply Forall_app in Hfield as [_ Hfield].
    apply Forall_cons in Hfield as [Hfield _]. done.
  - assert (d <> " "%char) as Hsp by (destruct Hd as [->| ->]; done).
    destruct body as [|c body']; [done|].
    cbn [app ENVI.SplitList_fields]. case_decide; [done|].
    change (c :: body' ++ field) with ((c :: body') ++ field).
    pose proof (skip_spaces_last _ _ Hlast Hsp) as Hlast'.
    destruct (skip_spaces_spec (c :: body')) as (n & Hs & _).
    rewrite skip_spaces_app by (intros E; by rewrite E in Hlast').
    destruct (scan_field_last _ _ Hlast' Hd)
      as (f & d' & next & Hscan & Happ & Hf & Hd' & Hnext).
    rewrite Hscan, Happ, <- app_assoc. cbn [app].
    rewrite scan_field_app by done.
    rewrite (IH next); [done| |].
    + destruct Hnext as [->|Hn]; [by left|right; by exists d].
    + apply (f_equal length) in Hs. rewrite Happ in Hs.
      rewrite !length_app, length_replicate in Hs.
      rewrite !length_app in *. simpl in *. lia.
Qed.

(** X17.  A value list whose last field is not closed loses it: whatever
    follows the last comma or closing brace of the input, when it holds
    neither, [SplitList] returns what it returns for the input cut
    there.  With no separator at all it returns no field. *)
Theorem SplitList_unterminated (body field : list ascii) :
  Forall (fun c => ~ ENVIText.is_separator c) field ->
  body = [] \/ (exists d, last body = Some d /\ ENVIText.is_separator d) ->
  ENVI.SplitList ("{"%char :: body ++ field)
  = ENVI.SplitList ("{"%char :: body)
  /\ (body = [] -> ENVI.SplitList ("{"%char :: field) = Some []).
Proof.
  intros Hfield Hbody. unfold ENVI.SplitList.
  rewrite !decide_True by done. split.
  - rewrite SplitList_fields_unterminated by (done || lia).
    apply SplitList_fields_fuel; rewrite ?length_app; lia.
  - intros _.
    rewrite (SplitList_fields_unterminated _ [] field) by (auto || simpl; lia).
    done.
Qed.

Lemma SplitList_unterminated_witness :
  ENVI.SplitList ("{"%char :: ENVI.c_str "a, b," ++ ENVI.c_str " c")
  = ENVI.SplitList ("{"%char :: ENVI.c_str "a, b,")
  /\ (ENVI.c_str "a, b," = [] ->
      ENVI.SplitList ("{"%char :: ENVI.c_str " c") = Some []).
Proof.
  apply (SplitList_unterminated (ENVI.c_str "a, b,") (ENVI.c_str " c")).
  - repeat constructor; intros [?|?]; done.
  - right. exists ","%char. split; [reflexivity|by left].
Defined.

(** ** Numerals *)

Lemma digit_value_digit_char d :
  0 <= d <= 9 -> ENVI.digit_value (ENVI.digit_char d) = Some d.
Proof.
  intros Hd.
  assert (d = 0 \/ d = 1 \/ d = 2 \/ d = 3 \/ d = 4 \/ d = 5 \/ d = 6
          \/ d = 7 \/ d = 8 \/ d = 9) as Hcases by lia.
  repeat (destruct Hcases as [->|Hcases]; [done|]). by subst.
Qed.

Lemma numeral_char_plain c :
  ENVIText.numeral_char c ->
  c <> " "%char /\ c <> "="%char /\ c <> "{"%char /\ c <> "}"%char
  /\ c <> ","%char /\ c <> ENVI.LF /\ c <> ":"%char
  /\ ENVI.isspace c = false.
Proof.
  intros [[d Hd]| ->]; [|by repeat split].
  repeat split; try (intros ->; by vm_compute in Hd).
  unfold ENVI.isspace. apply bool_decide_eq_false.
  rewrite !elem_of_cons, elem_of_nil.
  intros [->|[->|[->|[->|[->|[->|[]]]]]]]; by vm_compute in Hd.
Qed.

Lemma fmt_digits_spec fuel n :
  (0 < fuel)%nat -> 0 <= n < 10 ^ Z.of_nat fuel ->
  exists ds,
    (forall acc, ENVI.fmt_digits fuel n acc = ds ++ acc)
    /\ ds <> []
    /\ Forall (fun c => is_Some (ENVI.digit_value c)) ds
    /\ forall rest a,
         ENVI.atoi_digits (ds ++ rest) a
         = ENVI.atoi_digits rest (a * 10 ^ Z.of_nat (length ds) + n).
Proof.
  revert n. induction fuel as [|fuel IH]; intros n Hfuel Hn; [lia|].
  cbn [ENVI.fmt_digits].
  assert (0 <= n mod 10 <= 9) as Hmod by (pose proof (Z.mod_pos_bound n 10); lia).
  pose proof (digit_value_digit_char _ Hmod) as Hdc.
  assert (n < 10 \/ ~ n < 10) as [Hlt|Hge] by lia.
  - exists [ENVI.digit_char (n mod 10)].
    split; [intros acc; by rewrite decide_True|]. split; [done|].
    split; [by repeat constructor|].
    intros rest a. cbn [app ENVI.atoi_digits]. rewrite Hdc. cbn [length].
    f_equal. rewrite Z.mod_small by lia. lia.
  - assert (0 < fuel)%nat as Hf.
    { destruct fuel; [|lia]. simpl in Hn. lia. }
    destruct (IH (n / 10)) as (ds & Hds & Hne & Hall & Hval); [done| |].
    { rewrite Nat2Z.inj_succ, Z.pow_succ_r in Hn by lia.
      split; [apply Z.div_pos; lia|].
      apply Z.div_lt_upper_bound; lia. }
    exists (ds ++ [ENVI.digit_char (n mod 10)]).
    split; [|split; [|split]].
    + intros acc. rewrite decide_False by done. rewrite Hds.
      by rewrite <- app_assoc.
    + by destruct ds.
    + apply Forall_app. split; [done|]. by repeat constructor.
    + intros rest a. rewrite <- app_assoc, Hval.
      cbn [app ENVI.atoi_digits]. rewrite Hdc. f_equal.
      rewrite length_app, Nat2Z.inj_add. cbn [length].
      rewrite Z.pow_add_r by lia.
      pose proof (Z.div_mod n 10). lia.
Qed.

Lemma fmt_d_numeral n :
  - INT_MAX - 1 <= n <= INT_MAX ->
  ENVI.fmt_d n <> [] /\ Forall ENVIText.numeral_char (ENVI.fmt_d n).
Proof.
  intros Hn. unfold ENVI.fmt_d. case_decide.
  - destruct (fmt_digits_spec 10 (- n)) as (ds & Hds & Hne & Hall & _);
      [lia|unfold INT_MAX in *; lia|].
    rewrite Hds, app_nil_r. split; [done|].
    constructor; [by right|].
    eapply List.Forall_impl; [|exact Hall]. intros c Hc. by left.
  - destruct (fmt_digits_spec 10 n) as (ds & Hds & Hne & Hall & _);
      [lia|unfold INT_MAX in *; lia|].
    rewrite Hds, app_nil_r. split; [done|].
    eapply List.Forall_impl; [|exact Hall]. intros c Hc. by left.
Qed.

(** [atoi] reads back what ["%d"] writes. *)
Lemma atoi_fmt_d n :
  - INT_MAX - 1 <= n <= INT_MAX -> ENVI.atoi (ENVI.fmt_d n) = Some n.
Proof.
  intros Hn. unfold ENVI.fmt_d.
  destruct (decide (n < 0)) as [Hneg|Hpos]; unfold ENVI.atoi.
  - destruct (fmt_digits_spec 10 (- n)) as (ds & Hds & Hne & Hall & Hval);
      [lia|unfold INT_MAX in *; lia|].
    rewrite Hds, app_nil_r. cbn [ENVI.skip_isspace].
    change (ENVI.isspace "-"%char) with false. cbv iota.
    specialize (Hval [] 0). rewrite app_nil_r in Hval. rewrite Hval.
    cbn [ENVI.atoi_digits]. rewrite Z.mul_0_l, Z.add_0_l, Z.opp_involutive.
    by rewrite decide_True.
  - destruct (fmt_digits_spec 10 n) as (ds & Hds & Hne & Hall & Hval);
      [lia|unfold INT_MAX in *; lia|].
    rewrite Hds, app_nil_r.
    destruct ds as [|c ds]; [done|].
    apply Forall_cons in Hall as Hc. destruct Hc as [Hc _].
    destruct (numeral_char_plain c) as (_ & _ & _ & _ & _ & _ & _ & Hsp);
      [by left|].
    cbn [ENVI.skip_isspace]. rewrite Hsp.
    assert (c <> "-"%char /\ c <> "+"%char) as [Hm Hp].
    { destruct Hc as [d Hd]. split; intros ->; by vm_compute in Hd. }
    specialize (Hval [] 0). rewrite app_nil_r in Hval.
    assert (match c :: ds with
            | "-"%char :: rest => - ENVI.atoi_digits rest 0
            | "+"%char :: rest => ENVI.atoi_digits rest 0
            | rest => ENVI.atoi_digits rest 0
            end = ENVI.atoi_digits (c :: ds) 0) as ->.
    { destruct c as [[] [] [] [] [] [] [] []]; done. }
    rewrite Hval, Z.mul_0_l, Z.add_0_l. by rewrite decide_True.
Qed.

(** ** Name and value lists *)

Lemma toupper_separator (c : ascii) :
  (ENVI.toupper c = "="%char -> c = "="%char)
  /\ (ENVI.toupper c = ":"%char -> c = ":"%char).
Proof. destruct c as [[] [] [] [] [] [] [] []]; by vm_compute. Qed.

Lemma entry_separator_cons (c a : ascii) (n e : list ascii) :
  ENVI.entry_separator (c :: n) (a :: e)
  = if decide (ENVI.toupper a = ENVI.toupper c)
    then ENVI.entry_separator n e else None.
Proof.
  unfold ENVI.entry_separator, ENVI.EQUALN. cbn [length take fmap list_fmap lookup list_lookup].
  case_decide as Hac.
  - rewrite Hac. repeat case_bool_decide; try done; congruence.
  - rewrite bool_decide_eq_false_2; [done|]. congruence.
Qed.

Lemma EQUAL_cons (a c : ascii) (m n : list ascii) :
  ENVI.EQUAL (a :: m) (c :: n)
  = bool_decide (ENVI.toupper a = ENVI.toupper c) && ENVI.EQUAL m n.
Proof.
  unfold ENVI.EQUAL. cbn [fmap list_fmap].
  repeat case_bool_decide; simpl; try done; congruence.
Qed.

(** For names that hold no separator, an entry is the entry of a name
    when its own name is the name, whatever the case. *)
Lemma entry_separator_proper (n m v : list ascii) :
  ENVIText.proper_name n -> ENVIText.proper_name m ->
  ENVI.entry_separator n (m ++ "="%char :: v)
  = if ENVI.EQUAL m n then Some "="%char else None.
Proof.
  unfold ENVIText.proper_name. revert n.
  induction m as [|a m IH]; intros [|c n] [Hn1 Hn2] [Hm1 Hm2].
  - done.
  - cbn [app]. rewrite entry_separator_cons.
    rewrite decide_False; [done|].
    intros Heq. symmetry in Heq. apply toupper_separator in Heq.
    subst c. apply Hn1, list_elem_of_here.
  - unfold ENVI.entry_separator, ENVI.EQUALN. simpl.
    rewrite decide_False; [done|].
    intros [->| ->]; [apply Hm1|apply Hm2]; apply list_elem_of_here.
  - cbn [app]. rewrite entry_separator_cons, EQUAL_cons.
    rewrite not_elem_of_cons in Hn1, Hn2, Hm1, Hm2.
    rewrite IH by tauto.
    case_decide; [by rewrite bool_decide_eq_true_2|
                  by rewrite bool_decide_eq_false_2].
Qed.



Lemma drop_name_separator (n : list ascii) (c : ascii) (v : list ascii) :
  drop (S (length n)) (n ++ c :: v) = v.
Proof.
  rewrite (cons_middle c n v), app_assoc.
  apply drop_app_length'. rewrite length_app. simpl. lia.
Qed.


Lemma CSLFetchNameValue_entries (kvs : list (list ascii * list ascii))
    (n : list ascii) :
  ENVIText.proper_name n ->
  Forall (fun kv => ENVIText.proper_name kv.1) kvs ->
  ENVI.CSLFetchNameValue (ENVIText.entry <$> kvs) n
  = ENVIText.assoc_fetch kvs n.
Proof.
  intros Hn. induction 1 as [|[m v] kvs Hm _ IH]; [done|].
  cbn [fmap list_fmap ENVI.CSLFetchNameValue ENVIText.assoc_fetch].
  unfold ENVIText.entry at 1. cbn [fst snd] in *.
  rewrite entry_separator_proper by done.
  destruct (ENVI.EQUAL m n) eqn:E.
  - f_equal. unfold ENVI.EQUAL in E. apply bool_decide_eq_true in E.
    apply (f_equal length) in E. rewrite !length_fmap in E.
    rewrite <- E. apply drop_name_separator.
  - exact IH.
Qed.

Lemma CSLSetNameValue_fresh (kvs : list (list ascii * list ascii))
    (n v : list ascii) :
  ENVIText.proper_name n ->
  Forall (fun kv => ENVIText.proper_name kv.1 /\ ENVI.EQUAL kv.1 n = false)
    kvs ->
  ENVI.CSLSetNameValue (ENVIText.entry <$> kvs) n v
  = ENVIText.entry <$> (kvs ++ [(n, v)]).
Proof.
  intros Hn. induction 1 as [|[m w] kvs [Hm Hne] _ IH]; [done|].
  cbn [fmap list_fmap ENVI.CSLSetNameValue app].
  unfold ENVIText.entry at 1. cbn [fst snd] in *.
  rewrite entry_separator_proper by done. rewrite Hne. by rewrite IH.
Qed.

(** ** The lines of the header *)

Lemma before_equal_app (name rest : list ascii) :
  ("="%char ∉ name) ->
  ENVI.before_equal (name ++ "="%char :: rest) = (name, Some rest).
Proof.
  induction name as [|c name IH]; intros Hn; simpl.
  - done.
  - rewrite not_elem_of_cons in Hn. rewrite decide_False by (intros ->; tauto).
    by rewrite IH by tauto.
Qed.

Lemma before_equal_None (s : list ascii) :
  ("="%char ∉ s) -> (ENVI.before_equal s).2 = None.
Proof.
  induction s as [|c s IH]; intros Hn; simpl; [done|].
  rewrite not_elem_of_cons in Hn. rewrite decide_False by (intros ->; tauto).
  specialize (IH (proj2 Hn)). by destruct (ENVI.before_equal s).
Qed.

(** A line that gives a name, an equals sign and a value, with any
    number of spaces around the sign. *)
Lemma ReadHeader_pair_padded (papszHeader : list (list ascii))
    (name value : list ascii) (a b : nat) :
  name <> [] -> ("="%char ∉ name) -> last name <> Some " "%char ->
  head value <> Some " "%char ->
  ENVI.ReadHeader_pair papszHeader
    (name ++ replicate a " "%char ++ "="%char :: replicate b " "%char ++ value)
  = ENVI.CSLSetNameValue papszHeader (ENVIText.underscored name) value.
Proof.
  intros Hne Heq Hlast Hhead. unfold ENVI.ReadHeader_pair.
  rewrite app_assoc, before_equal_app.
  2:{ rewrite elem_of_app. intros [?|Hin]; [done|].
      apply elem_of_replicate in Hin as [? _]. done. }
  rewrite trim_end_padded by done.
  by rewrite skip_spaces_replicate, skip_spaces_head.
Qed.

Lemma text_lines_from_app (line rest cur : list ascii) :
  ENVI.LF ∉ line ->
  ENVI.text_lines_from (line ++ ENVI.LF :: rest) cur
  = (cur ++ line) :: ENVI.text_lines_from rest [].
Proof.
  revert cur. induction line as [|c line IH]; intros cur Hn; simpl.
  - by rewrite app_nil_r.
  - rewrite not_elem_of_cons in Hn.
    rewrite decide_False by (intros ->; tauto).
    rewrite IH by tauto. by rewrite <- app_assoc.
Qed.

Lemma text_lines_line (line rest : list ascii) :
  ENVI.LF ∉ line ->
  ENVI.text_lines (line ++ ENVI.LF :: rest) = line :: ENVI.text_lines rest.
Proof. intros. unfold ENVI.text_lines. by rewrite text_lines_from_app. Qed.

Lemma has_char_app c (s t : list ascii) :
  ENVI.has_char c (s ++ t) = ENVI.has_char c s || ENVI.has_char c t.
Proof.
  unfold ENVI.has_char. repeat case_bool_decide; simpl; try done;
    rewrite elem_of_app in *; tauto.
Qed.

Lemma numeral_no_char (s : list ascii) c :
  Forall ENVIText.numeral_char s -> ~ ENVIText.numeral_char c -> c ∉ s.
Proof.
  intros Hall Hc Hin. rewrite Forall_forall in Hall. by apply Hc, Hall.
Qed.



(** ** The header [Create] writes *)

Lemma numeral_not_LF (v : list ascii) :
  Forall ENVIText.numeral_char v -> ENVI.LF ∉ v.
Proof.
  intros Hv. apply numeral_no_char; [done|].
  intros Hc. by apply numeral_char_plain in Hc as (_ & _ & _ & _ & _ & ? & _).
Qed.

Lemma numeral_head (v : list ascii) :
  Forall ENVIText.numeral_char v -> head v <> Some " "%char.
Proof.
  destruct 1 as [|c v Hc _]; [done|]. simpl. intros [= ->].
  by apply numeral_char_plain in Hc as (? & _).
Qed.

Lemma numeral_has_char (v : list ascii) c :
  Forall ENVIText.numeral_char v -> ~ ENVIText.numeral_char c ->
  ENVI.has_char c v = false.
Proof.
  intros Hv Hc. apply bool_decide_eq_false. by apply numeral_no_char.
Qed.

Lemma not_numeral_brace_open : ~ ENVIText.numeral_char "{"%char.
Proof. intros [[d Hd]|?]; [by vm_compute in Hd|done]. Qed.

Lemma not_numeral_equal : ~ ENVIText.numeral_char "="%char.
Proof. intros [[d Hd]|?]; [by vm_compute in Hd|done]. Qed.

(** The lines of the header [Create] writes, the numerals left open. *)
Lemma Create_header_lines (vx vy vb vt ve : list ascii) :
  Forall ENVIText.numeral_char vx -> Forall ENVIText.numeral_char vy ->
  Forall ENVIText.numeral_char vb -> Forall ENVIText.numeral_char vt ->
  Forall ENVIText.numeral_char ve ->
  ENVI.text_lines
    (ENVI.c_str "ENVI" ++ [ENVI.LF]
     ++ ENVI.c_str "samples = " ++ vx ++ [ENVI.LF]
     ++ ENVI.c_str "lines   = " ++ vy ++ [ENVI.LF]
     ++ ENVI.c_str "bands   = " ++ vb ++ [ENVI.LF]
     ++ ENVI.c_str "header offset = 0" ++ [ENVI.LF]
     ++ ENVI.c_str "file type = ENVI Standard" ++ [ENVI.LF]
     ++ ENVI.c_str "data type = " ++ vt ++ [ENVI.LF]
     ++ ENVI.c_str "interleave = bsq" ++ [ENVI.LF]
     ++ ENVI.c_str "byte order = " ++ ve ++ [ENVI.LF])
  = [ENVI.c_str "ENVI";
     ENVI.c_str "samples = " ++ vx;
     ENVI.c_str "lines   = " ++ vy;
     ENVI.c_str "bands   = " ++ vb;
     ENVI.c_str "header offset = 0";
     ENVI.c_str "file type = ENVI Standard";
     ENVI.c_str "data type = " ++ vt;
     ENVI.c_str "interleave = bsq";
     ENVI.c_str "byte order = " ++ ve].
Proof.
  intros Hx Hy Hb Ht He.
  pose proof (numeral_not_LF _ Hx). pose proof (numeral_not_LF _ Hy).
  pose proof (numeral_not_LF _ Hb). pose proof (numeral_not_LF _ Ht).
  pose proof (numeral_not_LF _ He).
  assert (forall (p v rest : list ascii),
            ENVI.LF ∉ p -> ENVI.LF ∉ v ->
            ENVI.text_lines (p ++ v ++ [ENVI.LF] ++ rest)
            = (p ++ v) :: ENVI.text_lines rest) as Hnum.
  { intros p v rest Hp Hv. rewrite app_assoc. cbn [app].
    apply text_lines_line. rewrite elem_of_app. tauto. }
  assert (forall (p rest : list ascii),
            ENVI.LF ∉ p ->
            ENVI.text_lines (p ++ [ENVI.LF] ++ rest)
            = p :: ENVI.text_lines rest) as Hlit.
  { intros p rest Hp. cbn [app]. by apply text_lines_line. }
  assert (forall s : string,
            bool_decide (ENVI.LF ∉ ENVI.c_str s) = true ->
            ENVI.LF ∉ ENVI.c_str s) as Hdec.
  { intros s Hs. by apply bool_decide_eq_true in Hs. }
  rewrite Hlit by (by apply Hdec).
  rewrite Hnum by (done || by apply Hdec).
  rewrite Hnum by (done || by apply Hdec).
  rewrite Hnum by (done || by apply Hdec).
  rewrite Hlit by (by apply Hdec).
  rewrite Hlit by (by apply Hdec).
  rewrite Hnum by (done || by apply Hdec).
  rewrite Hlit by (by apply Hdec).
  replace (ENVI.c_str "byte order = " ++ ve ++ [ENVI.LF])
    with (ENVI.c_str "byte order = " ++ ve ++ [ENVI.LF] ++ [])
    by (by rewrite app_nil_r).
  rewrite Hnum by (done || by apply Hdec).
  done.
Qed.

Lemma ReadHeader_lines_pair fuel (line : list ascii)
    (rest hdr : list (list ascii)) :
  ENVI.has_char "="%char line = true ->
  ENVI.has_char "{"%char line = false ->
  ENVI.ReadHeader_lines (S fuel) (line :: rest) hdr
  = ENVI.ReadHeader_lines fuel rest (ENVI.ReadHeader_pair hdr line).
Proof. intros H1 H2. cbn [ENVI.ReadHeader_lines]. by rewrite H1, H2. Qed.

(** The pairs [ReadHeader] makes of these lines. *)
Lemma Create_header_read (vx vy vb vt ve : list ascii) :
  Forall ENVIText.numeral_char vx -> Forall ENVIText.numeral_char vy ->
  Forall ENVIText.numeral_char vb -> Forall ENVIText.numeral_char vt ->
  Forall ENVIText.numeral_char ve ->
  ENVI.ReadHeader
    [ENVI.c_str "ENVI";
     ENVI.c_str "samples = " ++ vx;
     ENVI.c_str "lines   = " ++ vy;
     ENVI.c_str "bands   = " ++ vb;
     ENVI.c_str "header offset = 0";
     ENVI.c_str "file type = ENVI Standard";
     ENVI.c_str "data type = " ++ vt;
     ENVI.c_str "interleave = bsq";
     ENVI.c_str "byte order = " ++ ve] []
  = Some (true,
          ENVIText.entry
            <$> [(ENVI.c_str "samples", vx); (ENVI.c_str "lines", vy);
                 (ENVI.c_str "bands", vb);
                 (ENVI.c_str "header_offset", ENVI.c_str "0");
                 (ENVI.c_str "file_type", ENVI.c_str "ENVI Standard");
                 (ENVI.c_str "data_type", vt);
                 (ENVI.c_str "interleave", ENVI.c_str "bsq");
                 (ENVI.c_str "byte_order", ve)]).
Proof.
  intros Hx Hy Hb Ht He.
  assert (forall (name : string) (a : nat) (v : list ascii)
                 (kvs : list (list ascii * list ascii)),
            head v <> Some " "%char ->
            bool_decide
              (ENVI.c_str name <> []
               /\ ("="%char ∉ ENVI.c_str name)
               /\ last (ENVI.c_str name) <> Some " "%char
               /\ ENVIText.proper_name
                    (ENVIText.underscored (ENVI.c_str name))
               /\ Forall (fun n => ENVIText.proper_name n
                                   /\ ENVI.EQUAL n
                                        (ENVIText.underscored
                                           (ENVI.c_str name)) = false)
                    kvs.*1) = true ->
            ENVI.ReadHeader_pair (ENVIText.entry <$> kvs)
              (ENVI.c_str name ++ replicate a " "%char
                 ++ "="%char :: replicate 1 " "%char ++ v)
            = ENVIText.entry
                <$> (kvs ++ [(ENVIText.underscored (ENVI.c_str name), v)]))
    as Hpair.
  { intros name a v kvs Hv Hdec.
    apply bool_decide_eq_true in Hdec as (H1 & H2 & H3 & H4 & H5).
    rewrite ReadHeader_pair_padded by done.
    apply CSLSetNameValue_fresh; [done|].
    by rewrite Forall_fmap in H5. }
  assert (forall (p : string) (v : list ascii),
            Forall ENVIText.numeral_char v ->
            ENVI.has_char "="%char (ENVI.c_str p) = true ->
            ENVI.has_char "{"%char (ENVI.c_str p) = false ->
            ENVI.has_char "="%char (ENVI.c_str p ++ v) = true
            /\ ENVI.has_char "{"%char (ENVI.c_str p ++ v) = false) as Hhas.
  { intros p v Hv H1 H2. rewrite !has_char_app, H1, H2. split; [done|].
    apply numeral_has_char; [done|apply not_numeral_brace_open]. }
  pose proof (numeral_head _ Hx). pose proof (numeral_head _ Hy).
  pose proof (numeral_head _ Hb). pose proof (numeral_head _ Ht).
  pose proof (numeral_head _ He).
  match goal with
  | |- ENVI.ReadHeader ?l [] = _ =>
      change (ENVI.ReadHeader l [])
        with (ENVI.ReadHeader l (ENVIText.entry <$> []))
  end.
  unfold ENVI.ReadHeader. rewrite decide_True by done.
  cbn [length].
  rewrite ReadHeader_lines_pair by (by apply Hhas).
  change (ENVI.c_str "samples = " ++ vx)
    with (ENVI.c_str "samples" ++ replicate 1 " "%char
            ++ "="%char :: replicate 1 " "%char ++ vx).
  rewrite Hpair by (done || by vm_compute).
  rewrite ReadHeader_lines_pair by (by apply Hhas).
  change (ENVI.c_str "lines   = " ++ vy)
    with (ENVI.c_str "lines" ++ replicate 3 " "%char
            ++ "="%char :: replicate 1 " "%char ++ vy).
  rewrite Hpair by (done || by vm_compute).
  rewrite ReadHeader_lines_pair by (by apply Hhas).
  change (ENVI.c_str "bands   = " ++ vb)
    with (ENVI.c_str "bands" ++ replicate 3 " "%char
            ++ "="%char :: replicate 1 " "%char ++ vb).
  rewrite Hpair by (done || by vm_compute).
  rewrite ReadHeader_lines_pair by (by vm_compute).
  change (ENVI.c_str "header offset = 0")
    with (ENVI.c_str "header offset" ++ replicate 1 " "%char
            ++ "="%char :: replicate 1 " "%char ++ ENVI.c_str "0").
  rewrite Hpair by (done || by vm_compute).
  rewrite ReadHeader_lines_pair by (by vm_compute).
  change (ENVI.c_str "file type = ENVI Standard")
    with (ENVI.c_str "file type" ++ replicate 1 " "%char
            ++ "="%char :: replicate 1 " "%char ++ ENVI.c_str "ENVI Standard").
  rewrite Hpair by (done || by vm_compute).
  rewrite ReadHeader_lines_pair by (by apply Hhas).
  change (ENVI.c_str "data type = " ++ vt)
    with (ENVI.c_str "data type" ++ replicate 1 " "%char
            ++ "="%char :: replicate 1 " "%char ++ vt).
  rewrite Hpair by (done || by vm_compute).
  rewrite ReadHeader_lines_pair by (by vm_compute).
  change (ENVI.c_str "interleave = bsq")
    with (ENVI.c_str "interleave" ++ replicate 1 " "%char
            ++ "="%char :: replicate 1 " "%char ++ ENVI.c_str "bsq").
  rewrite Hpair by (done || by vm_compute).
  rewrite ReadHeader_lines_pair by (by apply Hhas).
  change (ENVI.c_str "byte order = " ++ ve)
    with (ENVI.c_str "byte order" ++ replicate 1 " "%char
            ++ "="%char :: replicate 1 " "%char ++ ve).
  rewrite Hpair by (done || by vm_compute).
  reflexivity.
Qed.

(** ** [Create], then [Open] *)

Lemma Create_iENVIType_Open_eType (eType : GDALDataType) (iENVIType : Z) :
  ENVI.Create_iENVIType eType = Some iENVIType
  <-> ENVI.Open_eType iENVIType = Some eType.
Proof.
  split.
  - destruct eType; intros [= <-]; done.
  - unfold ENVI.Open_eType.
    repeat (match goal with
            | |- context [match ?n with _ => _ end] => destruct n
            end; try done);
      by intros [= <-].
Qed.

(** The header [Create] writes, read by [Open]: the sizes are taken as
    they are. *)
Lemma Create_Open_bands `{ENVI.Environment} (nXSize nYSize nBands : Z)
    (eType : GDALDataType) (eAccess : ENVI.GDALAccess)
    (pszExtension : list ascii) :
  let nDataSize := ENVI.GDALGetDataTypeSize eType / 8 in
  - INT_MAX - 1 <= nXSize <= INT_MAX -> - INT_MAX - 1 <= nYSize <= INT_MAX ->
  - INT_MAX - 1 <= nBands <= INT_MAX ->
  (nXSize = 0 \/ nYSize = 0 \/ nBands = 0
   \/ (- INT_MAX - 1 <= nDataSize * nXSize <= INT_MAX
       /\ - INT_MAX - 1 <= nDataSize * nXSize * nYSize <= INT_MAX)) ->
  ENVI.EQUAL pszExtension (ENVI.c_str "hdr") = false ->
  eType ∉ [GDT_Unknown; GDT_CInt16; GDT_CInt32] ->
  exists (img : list GByte) (text : list ascii),
    ENVI.Create nXSize nYSize nBands eType true true = Some (img, text)
    /\ if decide (nXSize = 0 \/ nYSize = 0 \/ nBands = 0)
       then ENVI.Open true eAccess pszExtension
              (Some (ENVI.text_lines text)) true = Some None
       else exists ds,
         ENVI.Open true eAccess pszExtension
           (Some (ENVI.text_lines text)) true = Some (Some ds)
         /\ ENVI.nRasterXSize ds = nXSize /\ ENVI.nRasterYSize ds = nYSize
         /\ ENVI.nBands ds = nBands /\ ENVI.eAccess ds = eAccess
         /\ ENVI.bFoundMapinfo ds = false
         /\ ENVI.pszProjection ds = []
         /\ ENVI.papoBands ds
            = (fun i =>
                 {| ENVI.nImgOffset :=
                      ENVI.to_vsi_l_offset
                        (0 + ENVI.to_vsi_l_offset
                               (nDataSize * nXSize * nYSize) * i);
                    ENVI.nPixelOffset := nDataSize;
                    ENVI.nLineOffset := nDataSize * nXSize;
                    ENVI.eDataType := eType;
                    ENVI.bNativeOrder := true;
                    ENVI.description := [] |}) <$> seqZ 0 nBands.
Proof.
  intros nDataSize HX HY HB Hsize Hext Htype.
  assert (exists iENVIType, ENVI.Create_iENVIType eType = Some iENVIType
                            /\ 1 <= iENVIType <= 13
                            /\ 1 <= nDataSize <= 16)
    as (iENVIType & Hcode & Hrange & Hds).
  { rewrite !not_elem_of_cons in Htype. subst nDataSize.
    destruct eType; try tauto; eexists; (split; [reflexivity|]);
      split; (vm_compute; split; congruence). }
  set (iBigEndian := if ENVI.CPL_LSB then 0 else 1).
  assert (- INT_MAX - 1 <= iBigEndian <= INT_MAX) as Hbe
    by (subst iBigEndian; destruct ENVI.CPL_LSB; unfold INT_MAX; lia).
  destruct (fmt_d_numeral nXSize) as [_ Hvx]; [lia|].
  destruct (fmt_d_numeral nYSize) as [_ Hvy]; [lia|].
  destruct (fmt_d_numeral nBands) as [_ Hvb]; [lia|].
  destruct (fmt_d_numeral iENVIType) as [_ Hvt]; [unfold INT_MAX; lia|].
  destruct (fmt_d_numeral iBigEndian) as [_ Hve]; [done|].
  pose proof (atoi_fmt_d nXSize ltac:(lia)) as Hax.
  pose proof (atoi_fmt_d nYSize ltac:(lia)) as Hay.
  pose proof (atoi_fmt_d nBands ltac:(lia)) as Hab.
  pose proof (atoi_fmt_d iENVIType ltac:(unfold INT_MAX; lia)) as Hat.
  pose proof (atoi_fmt_d iBigEndian Hbe) as Hae.
  eexists _, _. split.
  { unfold ENVI.Create. rewrite Hcode. cbn [mbind option_bind negb].
    fold iBigEndian. reflexivity. }
  rewrite Create_header_lines by done.
  set (vx := ENVI.fmt_d nXSize) in *. set (vy := ENVI.fmt_d nYSize) in *.
  set (vb := ENVI.fmt_d nBands) in *. set (vt := ENVI.fmt_d iENVIType) in *.
  set (ve := ENVI.fmt_d iBigEndian) in *.
  clearbody vx vy vb vt ve.
  assert (forall key : string,
            bool_decide (ENVIText.proper_name (ENVI.c_str key)) = true ->
            ENVI.CSLFetchNameValue
              (ENVIText.entry
                 <$> [(ENVI.c_str "samples", vx); (ENVI.c_str "lines", vy);
                      (ENVI.c_str "bands", vb);
                      (ENVI.c_str "header_offset", ENVI.c_str "0");
                      (ENVI.c_str "file_type", ENVI.c_str "ENVI Standard");
                      (ENVI.c_str "data_type", vt);
                      (ENVI.c_str "interleave", ENVI.c_str "bsq");
                      (ENVI.c_str "byte_order", ve)]) (ENVI.c_str key)
            = ENVIText.assoc_fetch
                [(ENVI.c_str "samples", vx); (ENVI.c_str "lines", vy);
                 (ENVI.c_str "bands", vb);
                 (ENVI.c_str "header_offset", ENVI.c_str "0");
                 (ENVI.c_str "file_type", ENVI.c_str "ENVI Standard");
                 (ENVI.c_str "data_type", vt);
                 (ENVI.c_str "interleave", ENVI.c_str "bsq");
                 (ENVI.c_str "byte_order", ve)] (ENVI.c_str key)) as Hfetch.
  { intros key Hkey. apply CSLFetchNameValue_entries.
    - by apply bool_decide_eq_true in Hkey.
    - repeat constructor; by apply (bool_decide_unpack _). }
  assert (ENVI.Open true eAccess pszExtension
            (Some [ENVI.c_str "ENVI"; ENVI.c_str "samples = " ++ vx;
                   ENVI.c_str "lines   = " ++ vy;
                   ENVI.c_str "bands   = " ++ vb;
                   ENVI.c_str "header offset = 0";
                   ENVI.c_str "file type = ENVI Standard";
                   ENVI.c_str "data type = " ++ vt;
                   ENVI.c_str "interleave = bsq";
                   ENVI.c_str "byte order = " ++ ve]) true
          = if decide (nYSize = 0 \/ nXSize = 0 \/ nBands = 0) then Some None
            else
              offsets ← ENVI.Open_offsets (ENVI.c_str "bsq") nDataSize
                          nXSize nYSize nBands;
              match offsets with
              | None => Some None
              | Some (nLineOffset, nPixelOffset, nBandOffset) =>
                  Some (Some
                    {| ENVI.nRasterXSize := nXSize;
                       ENVI.nRasterYSize := nYSize;
                       ENVI.nBands := nBands; ENVI.eAccess := eAccess;
                       ENVI.papoBands :=
                         (fun i =>
                            {| ENVI.nImgOffset :=
                                 ENVI.to_vsi_l_offset (0 + nBandOffset * i);
                               ENVI.nPixelOffset := nPixelOffset;
                               ENVI.nLineOffset := nLineOffset;
                               ENVI.eDataType := eType;
                               ENVI.bNativeOrder := true;
                               ENVI.description := [] |}) <$> seqZ 0 nBands;
                       ENVI.bFoundMapinfo := false;
                       ENVI.adfGeoTransform :=
                         ENVI.adfGeoTransform ENVI.ENVIDataset_new;
                       ENVI.pszProjection := [];
                       ENVI.papszHeader :=
                         ENVIText.entry
                           <$> [(ENVI.c_str "samples", vx);
                                (ENVI.c_str "lines", vy);
                                (ENVI.c_str "bands", vb);
                                (ENVI.c_str "header_offset", ENVI.c_str "0");
                                (ENVI.c_str "file_type",
                                 ENVI.c_str "ENVI Standard");
                                (ENVI.c_str "data_type", vt);
                                (ENVI.c_str "interleave", ENVI.c_str "bsq");
                                (ENVI.c_str "byte_order", ve)] |})
              end) as Hopen.
  { unfold ENVI.Open. cbn [negb]. cbv iota.
    change (ENVI.papszHeader ENVI.ENVIDataset_new) with (@nil (list ascii)).
    rewrite Create_header_read by done.
    cbn [mbind option_bind negb]. cbv iota. rewrite Hext.
    unfold ENVI.fetch_int. rewrite !Hfetch by done.
    cbn [ENVIText.assoc_fetch fst snd].
    repeat match goal with
           | |- context [ENVI.EQUAL (ENVI.c_str ?a) (ENVI.c_str ?b)] =>
               let r := eval vm_compute in
                        (ENVI.EQUAL (ENVI.c_str a) (ENVI.c_str b)) in
               change (ENVI.EQUAL (ENVI.c_str a) (ENVI.c_str b)) with r
           end.
    cbv iota. rewrite Hay, Hax, Hab. cbn [mbind option_bind].
    case_decide; [done|].
    change (ENVI.atoi (ENVI.c_str "0")) with (Some 0).
    rewrite Hat, Hae. cbn [mbind option_bind].
    rewrite (proj1 (Create_iENVIType_Open_eType _ _) Hcode).
    assert ((if ENVI.CPL_LSB then bool_decide (iBigEndian = 0)
             else bool_decide (iBigEndian <> 0)) = true) as ->.
    { subst iBigEndian. by destruct ENVI.CPL_LSB. }
    fold nDataSize.
    destruct (ENVI.Open_offsets _ _ _ _ _) as [[[[lo po] bo]|]|];
      reflexivity. }
  rewrite Hopen. clear Hopen Hfetch.
  destruct (decide (nXSize = 0 \/ nYSize = 0 \/ nBands = 0)) as [Hz|Hnz].
  { rewrite decide_True by tauto. done. }
  rewrite decide_False by tauto.
  unfold ENVI.Open_offsets.
  change (ENVI.EQUAL (ENVI.c_str "bsq") (ENVI.c_str "bsq")) with true.
  cbv iota. unfold ENVI.int_mul.
  rewrite decide_True by tauto. cbn [mbind option_bind].
  rewrite decide_True by tauto. cbn [mbind option_bind].
  eexists. split; [reflexivity|].
  cbn [ENVI.nRasterXSize ENVI.nRasterYSize ENVI.nBands ENVI.eAccess
       ENVI.bFoundMapinfo ENVI.pszProjection ENVI.papoBands].
  by repeat (split; [done|]).
Qed.



(** X23.  Neither [Create] nor [Open] looks at the sign of a size: for
    sizes and a band count that are not zero, negative or not, [Open] on
    the header [Create] wrote returns a dataset with the sizes and the
    band count as they were given, and a negative band count gives a
    dataset without bands.  (The line and the band fit an [int], as does
    every size.) *)
Theorem Create_then_Open_unchecked_sizes `{ENVI.Environment}
    (nXSize nYSize nBands : Z) (eType : GDALDataType)
    (eAccess : ENVI.GDALAccess) (pszExtension : list ascii) :
  let nDataSize := ENVI.GDALGetDataTypeSize eType / 8 in
  - INT_MAX - 1 <= nXSize <= INT_MAX -> - INT_MAX - 1 <= nYSize <= INT_MAX ->
  - INT_MAX - 1 <= nBands <= INT_MAX ->
  nXSize <> 0 -> nYSize <> 0 -> nBands <> 0 ->
  - INT_MAX - 1 <= nDataSize * nXSize <= INT_MAX ->
  - INT_MAX - 1 <= nDataSize * nXSize * nYSize <= INT_MAX ->
  ENVI.EQUAL pszExtension (ENVI.c_str "hdr") = false ->
  eType ∉ [GDT_Unknown; GDT_CInt16; GDT_CInt32] ->
  exists (img : list GByte) (text : list ascii) ds,
    ENVI.Create nXSize nYSize nBands eType true true = Some (img, text)
    /\ ENVI.Open true eAccess pszExtension
         (Some (ENVI.text_lines text)) true = Some (Some ds)
    /\ ENVI.nRasterXSize ds = nXSize /\ ENVI.nRasterYSize ds = nYSize
    /\ ENVI.nBands ds = nBands
    /\ length (ENVI.papoBands ds) = Z.to_nat nBands.
Proof.
  intros nDataSize HX HY HB HX0 HY0 HB0 Hline Hsize Hext Htype.
  pose proof (Create_Open_bands nXSize nYSize nBands eType eAccess
                pszExtension) as Hgen.
  cbv zeta in Hgen. fold nDataSize in Hgen.
  destruct (Hgen HX HY HB ltac:(by do 3 right) Hext Htype)
    as (img & text & Hcreate & Hopen).
  rewrite decide_False in Hopen by tauto.
  destruct Hopen as (ds & Hopen & H1 & H2 & H3 & _ & _ & _ & Hbands).
  exists img, text, ds. repeat (split; [done|]).
  by rewrite Hbands, length_fmap, length_seqZ.
Qed.

Lemma Create_then_Open_unchecked_sizes_witness :
  let H := ENVIText.text_environment in
  exists (img : list GByte) (text : list ascii) ds,
    ENVI.Create (-3) 2 (-1) GDT_Byte true true = Some (img, text)
    /\ ENVI.Open true ENVI.GA_ReadOnly (ENVI.c_str "dat")
         (Some (ENVI.text_lines text)) true = Some (Some ds)
    /\ ENVI.nRasterXSize ds = -3 /\ ENVI.nRasterYSize ds = 2
    /\ ENVI.nBands ds = -1
    /\ length (ENVI.papoBands ds) = Z.to_nat (-1).
Proof.
  intros H.
  apply (@Create_then_Open_unchecked_sizes H (-3) 2 (-1) GDT_Byte
           ENVI.GA_ReadOnly (ENVI.c_str "dat"));
    try (unfold INT_MAX; lia); try done.
  apply (bool_decide_unpack _). by vm_compute.
Defined.

(** X24.  The data types of the two drivers' headers: the code [Create]
    writes for a type is a code [Open] takes for that type, and the other
    way round.  [Create] refuses [GDT_Unknown], [GDT_CInt16] and
    [GDT_CInt32] and no other type; [Open] takes the nine codes 1 to 6,
    9, 12 and 13 and no other. *)
Theorem ENVI_data_type_codes :
  (forall eType iENVIType,
     ENVI.Create_iENVIType eType = Some iENVIType
     <-> ENVI.Open_eType iENVIType = Some eType)
  /\ (forall eType,
        ENVI.Create_iENVIType eType = None
        <-> eType ∈ [GDT_Unknown; GDT_CInt16; GDT_CInt32])
  /\ (forall nType,
        is_Some (ENVI.Open_eType nType)
        <-> nType ∈ [1; 2; 3; 4; 5; 6; 9; 12; 13]).
Proof.
  split; [|split].
  - intros eType iENVIType. split.
    + destruct eType; intros [= <-]; done.
    + unfold ENVI.Open_eType.
      repeat (match goal with
              | |- context [match ?n with _ => _ end] => destruct n
              end; try done);
        by intros [= <-].
  - intros eType. rewrite !elem_of_cons, elem_of_nil.
    destruct eType; simpl; split; try done; try tauto;
      intros [?|[?|[?|[]]]]; done.
  - intros nType. rewrite !elem_of_cons, elem_of_nil. split.
    + unfold ENVI.Open_eType.
      repeat (match goal with
              | |- context [match ?n with _ => _ end] => destruct n
              end; try (by intros [? ?]));
        intros _; lia.
    + intros Hn.
      repeat (destruct Hn as [->|Hn]; [by eexists|]). done.
Qed.

(** ** The three interleavings *)




(** ** Band names *)






(** ** Map information *)

Lemma ProcessMapinfo_spec `{ENVI.Environment} (pszMapinfo : list ascii)
    (ds ds' : ENVI.ENVIDataset) (bFound : bool) :
  ENVI.ProcessMapinfo pszMapinfo ds = Some (bFound, ds') ->
  exists papszFields,
    ENVI.SplitList pszMapinfo = Some papszFields
    /\ ENVI.papszHeader ds' = ENVI.papszHeader ds
    /\ if decide (length papszFields < 7)%nat
       then bFound = false /\ ds' = ds
       else bFound = true
            /\ ENVI.adfGeoTransform ds'
               = (let field i := default [] (papszFields !! i) in
                  [ENVI.atof (field 3%nat); ENVI.atof (field 5%nat);
                   ENVI.double_0; ENVI.atof (field 4%nat); ENVI.double_0;
                   ENVI.double_neg (ENVI.atof (field 6%nat))]).
Proof.
  unfold ENVI.ProcessMapinfo.
  destruct (ENVI.SplitList pszMapinfo) as [papszFields|]; [|done].
  cbn [mbind option_bind]. intros Hrun. exists papszFields.
  split; [done|]. case_decide.
  - injection Hrun as <- <-. done.
  - match type of Hrun with
    | (?m ≫= _) = _ => destruct m as [oSRS|]; [|done]
    end.
    cbn [mbind option_bind] in Hrun. injection Hrun as <- <-.
    split; [by destruct (negb _)|]. split; [done|].
    by destruct (negb _).
Qed.

Lemma Open_Some `{ENVI.Environment} (bFp : bool) (eAccess : ENVI.GDALAccess)
    (pszExtension : list ascii) (header : option (list (list ascii)))
    (bImage : bool) (ds : ENVI.ENVIDataset) :
  ENVI.Open bFp eAccess pszExtension header bImage = Some (Some ds) ->
  exists poDS,
    ENVI.bFoundMapinfo poDS = false
    /\ ENVI.adfGeoTransform poDS = ENVI.adfGeoTransform ENVI.ENVIDataset_new
    /\ match ENVI.CSLFetchNameValue (ENVI.papszHeader poDS)
               (ENVI.c_str "map_info") with
       | None => ds = poDS
       | Some v =>
           exists bFound poDS',
             ENVI.ProcessMapinfo v poDS = Some (bFound, poDS')
             /\ ds = ENVI.set_bFoundMapinfo bFound poDS'
       end.
Proof.
  unfold ENVI.Open. intros Hopen.
  repeat match type of Hopen with
         | (if ?b then _ else _) = _ => destruct b; [done|]
         | (if ?b then _ else _) = _ => destruct b; [|done]
         | match ?x with _ => _ end = _ => destruct x eqn:?; try done
         | (?m ≫= _) = _ =>
             destruct m eqn:?; [|done]; cbn [mbind option_bind] in Hopen
         | (let '(_, _) := ?p in _) = _ => destruct p eqn:?
         end.
  all: match type of Hopen with
       | Some (Some ?poDS) = _ =>
           exists poDS; cbn [ENVI.bFoundMapinfo ENVI.adfGeoTransform
                             ENVI.papszHeader];
           split; [done|]; split; [done|]
       | _ => idtac
       end.
  all: try (injection Hopen as <-;
            match goal with
            | E : ENVI.CSLFetchNameValue _ (ENVI.c_str "map_info") = _ |- _ =>
                rewrite E
            end; eauto).
  all: match goal with
       | Hp : ENVI.ProcessMapinfo ?v ?poDS = Some (?b, ?e) |- _ =>
           exists poDS;
           cbn [ENVI.bFoundMapinfo ENVI.adfGeoTransform ENVI.papszHeader];
           split; [done|]; split; [done|];
           match goal with
           | E : ENVI.CSLFetchNameValue _ (ENVI.c_str "map_info") = _ |- _ =>
               rewrite E
           end;
           exists b, e; split; [done|]; by injection Hopen as <-
       end.
Qed.

(** X22.  What [GetGeoTransform] returns for a dataset [Open] returned.
    Without a [map_info] key in the header, or with one whose value
    [SplitList] splits into fewer than seven fields, it returns
    [CE_Failure] with the coefficients the constructor set.  With seven
    fields or more it returns [CE_None] with the fourth and fifth fields
    as origin and the sixth and seventh as pixel size, the latter
    negated, read by [atof].  [SetGeoTransform] replaces the six
    coefficients and always succeeds, but leaves [GetGeoTransform]
    failing where it failed. *)
Theorem Open_GetGeoTransform `{ENVI.Environment} (bFp : bool)
    (eAccess : ENVI.GDALAccess) (pszExtension : list ascii)
    (header : option (list (list ascii))) (bImage : bool)
    (ds : ENVI.ENVIDataset) :
  ENVI.Open bFp eAccess pszExtension header bImage = Some (Some ds) ->
  let initial := [ENVI.double_0; ENVI.double_1; ENVI.double_0;
                  ENVI.double_0; ENVI.double_0; ENVI.double_1] in
  match ENVI.CSLFetchNameValue (ENVI.papszHeader ds)
          (ENVI.c_str "map_info") with
  | None => ENVI.GetGeoTransform ds = (CE_Failure, initial)
  | Some v =>
      exists papszFields,
        ENVI.SplitList v = Some papszFields
        /\ ENVI.GetGeoTransform ds
           = if decide (length papszFields < 7)%nat
             then (CE_Failure, initial)
             else (CE_None,
                   let field i := default [] (papszFields !! i) in
                   [ENVI.atof (field 3%nat); ENVI.atof (field 5%nat);
                    ENVI.double_0; ENVI.atof (field 4%nat); ENVI.double_0;
                    ENVI.double_neg (ENVI.atof (field 6%nat))])
  end
  /\ forall padfTransform,
       (6 <= length padfTransform)%nat ->
       exists ds',
         ENVI.SetGeoTransform padfTransform ds = Some (CE_None, ds')
         /\ ENVI.GetGeoTransform ds'
            = ((ENVI.GetGeoTransform ds).1, take 6 padfTransform).
Proof.
  intros Hopen initial. split.
  - apply Open_Some in Hopen as (poDS & Hfound & Hgeo & Hmap).
    destruct (ENVI.CSLFetchNameValue (ENVI.papszHeader poDS)
                (ENVI.c_str "map_info")) as [v|] eqn:Hv.
    + destruct Hmap as (bFound & poDS' & Hrun & ->).
      apply ProcessMapinfo_spec in Hrun as (papszFields & Hsplit & Hhdr & Hrun).
      cbn [ENVI.set_bFoundMapinfo ENVI.papszHeader].
      rewrite Hhdr, Hv. exists papszFields. split; [done|].
      unfold ENVI.GetGeoTransform.
      cbn [ENVI.set_bFoundMapinfo ENVI.bFoundMapinfo ENVI.adfGeoTransform].
      case_decide.
      * destruct Hrun as [-> ->]. by rewrite Hgeo.
      * destruct Hrun as [-> ->]. done.
    + subst ds. rewrite Hv. unfold ENVI.GetGeoTransform.
      by rewrite Hfound, Hgeo.
  - intros padfTransform Hlen. unfold ENVI.SetGeoTransform.
    rewrite decide_True by done. eexists. split; [done|].
    reflexivity.
Qed.

Lemma Open_GetGeoTransform_witness :
  let H := ENVIText.text_environment in
  let ds := ENVIText.utm_dataset in
  let initial := [ENVI.double_0; ENVI.double_1; ENVI.double_0;
                  ENVI.double_0; ENVI.double_0; ENVI.double_1] in
  match ENVI.CSLFetchNameValue (ENVI.papszHeader ds)
          (ENVI.c_str "map_info") with
  | None => ENVI.GetGeoTransform ds = (CE_Failure, initial)
  | Some v =>
      exists papszFields,
        ENVI.SplitList v = Some papszFields
        /\ ENVI.GetGeoTransform ds
           = if decide (length papszFields < 7)%nat
             then (CE_Failure, initial)
             else (CE_None,
                   let field i := default [] (papszFields !! i) in
                   [ENVI.atof (field 3%nat); ENVI.atof (field 5%nat);
                    ENVI.double_0; ENVI.atof (field 4%nat); ENVI.double_0;
                    ENVI.double_neg (ENVI.atof (field 6%nat))])
  end
  /\ forall padfTransform,
       (6 <= length padfTransform)%nat ->
       exists ds',
         ENVI.SetGeoTransform padfTransform ds = Some (CE_None, ds')
         /\ ENVI.GetGeoTransform ds'
            = ((ENVI.GetGeoTransform ds).1, take 6 padfTransform).
Proof.
  intros H ds.
  apply (@Open_GetGeoTransform H true ENVI.GA_ReadOnly (ENVI.c_str "dat")
           (Some ENVIText.utm_header) true ds).
  vm_compute. reflexivity.
Defined.

(** ** [ReadHeader] on any file *)

Lemma ReadHeader_collect_length (w : list ascii) (lines : list (list ascii)) :
  (length (ENVI.ReadHeader_collect w lines).2 <= length lines)%nat.
Proof.
  revert w. induction lines as [|l rest IH]; intros w; simpl; [done|].
  destruct (ENVI.has_char _ _); simpl; [lia|].
  specialize (IH (w ++ l)). lia.
Qed.

Lemma ReadHeader_lines_total fuel (lines papszHeader : list (list ascii)) :
  (length lines < fuel)%nat ->
  exists hdr,
    ENVI.ReadHeader_lines fuel lines papszHeader = Some hdr
    /\ (Forall (fun l => "="%char ∉ l) lines -> hdr = papszHeader).
Proof.
  revert lines papszHeader.
  induction fuel as [|fuel IH]; intros lines hdr0 Hlen; [lia|].
  destruct lines as [|l rest]; cbn [ENVI.ReadHeader_lines].
  { by exists hdr0. }
  simpl in Hlen. unfold ENVI.has_char at 1.
  case_bool_decide as Heq; cbn [negb].
  - destruct (ENVI.has_char "{"%char l && negb (ENVI.has_char "}"%char l)).
    + pose proof (ReadHeader_collect_length l rest) as Hc.
      destruct (ENVI.ReadHeader_collect l rest) as [w rest'].
      simpl in Hc.
      destruct (IH rest' (ENVI.ReadHeader_pair hdr0 w)) as (hdr & Hrun & _);
        [lia|].
      exists hdr. split; [done|]. intros Hall.
      apply Forall_cons in Hall as [? _]. done.
    + destruct (IH rest (ENVI.ReadHeader_pair hdr0 l)) as (hdr & Hrun & _);
        [lia|].
      exists hdr. split; [done|]. intros Hall.
      apply Forall_cons in Hall as [? _]. done.
  - destruct (IH rest hdr0) as (hdr & Hrun & Hsame); [lia|].
    exists hdr. split; [done|]. intros Hall.
    apply Forall_cons in Hall as [_ Hall]. auto.
Qed.

(** X25.  [ReadHeader] returns for every file.  It returns [FALSE], and
    leaves the header as it was, exactly when the file does not start
    with the four characters [ENVI]; the rest of the first line is not
    looked at, and lines without an equals sign add nothing to the
    header. *)
Theorem ReadHeader_returns (lines papszHeader : list (list ascii)) :
  exists bOk hdr,
    ENVI.ReadHeader lines papszHeader = Some (bOk, hdr)
    /\ (bOk = true
        <-> exists first rest,
              lines = first :: rest /\ take 4 first = ENVI.c_str "ENVI")
    /\ (bOk = false -> hdr = papszHeader)
    /\ (Forall (fun l => "="%char ∉ l) (tail lines) -> hdr = papszHeader).
Proof.
  unfold ENVI.ReadHeader. destruct lines as [|first rest].
  { exists false, papszHeader. split; [done|]. split; [|done].
    split; [done|]. by intros (? & ? & ? & _). }
  case_decide as Hsig.
  - destruct (ReadHeader_lines_total (S (length rest)) rest papszHeader)
      as (hdr & Hrun & Hsame); [lia|].
    rewrite Hrun. exists true, hdr. split; [done|]. split; [|done].
    split; [|done]. intros _. by exists first, rest.
  - exists false, papszHeader. split; [done|]. split; [|done].
    split; [done|]. intros (f & r & [= <- <-] & ?). done.
Qed.
